(** * Flatmate finder: search, posts, saved posts and chat handlers

    A shallow embedding of the Express/Mongoose handlers of the server
    (search-flatmates, my-posts delete, save-post, conversations, messages)
    together with the properties the specification states about them.

    Conventions of the embedding:
    - a collection is the list of its documents in insertion order;
      [findOne] returns the first document that matches;
    - an ObjectId is a number; a handler that receives an id of the
      session or of the route has it as the number, and the handler that
      compares a string of the body with [userId.toString()] is also
      given with the string;
    - a handler is a function from the store (and the request) to a
      response and the store after the request: requests are handled one
      after the other;
    - a string is the UTF-8 text of the JavaScript string;
    - a JavaScript number is [NaN], an infinity or the rational that a
      binary64 number is; the results of the operations are rounded as
      binary64 rounds them; the sign of zero is not represented;
    - regular expressions are run by an engine that the handlers take as
      a parameter. *)

From Stdlib Require Import List String Ascii Bool Arith ZArith QArith Lia.
From Stdlib Require Import Qround Permutation Sorted.
From Stdlib Require Qcanon.
Import ListNotations.

Local Open Scope Z_scope.

(** ** JavaScript values used by the handlers *)

Module JS.

(** Characters as lists, the strings of the handlers being read left to
    right. *)
Definition chars (s : string) : list ascii := list_ascii_of_string s.

(** [if (s)] on a query-string parameter: undefined and the empty string
    are falsy, every other string is truthy. *)
Definition truthy (p : option string) : option string :=
  match p with
  | Some EmptyString => None
  | Some s => Some s
  | None => None
  end.

Definition lower (c : ascii) : ascii :=
  let n := nat_of_ascii c in
  if (Nat.leb 65 n && Nat.leb n 90)%bool then ascii_of_nat (n + 32) else c.

(** A text of ASCII characters only: a byte is then a character, and a
    UTF-16 code unit of the JavaScript string. *)
Definition ascii_only (s : string) : bool :=
  forallb (fun c => Nat.ltb (nat_of_ascii c) 128) (chars s).

(** *** Numbers *)

Inductive jsnum : Type :=
| NaN
| PInf
| NInf
| Fin (q : Q).

Definition of_Z (z : Z) : jsnum := Fin (inject_Z z).
Definition of_nat (n : nat) : jsnum := of_Z (Z.of_nat n).

Definition is_NaN (x : jsnum) : bool :=
  match x with NaN => true | _ => false end.

(** The integer a finite number denotes, when it denotes one. *)
Definition as_int (x : jsnum) : option Z :=
  match x with
  | Fin q => let r := Qred q in
             if Pos.eqb (Qden r) 1 then Some (Qnum r) else None
  | _ => None
  end.

Definition sgn (q : Q) : comparison := Z.compare (Qnum q) 0.

(** **** Rounding

    The result of an operation is the binary64 number nearest to the
    exact result: 53 significant bits, the last place no finer than
    [2 ^ -1074], a tie going to the even neighbour, and an infinity from
    [2 ^ 1024] on. *)

(** [a / b] in units of [2 ^ e], as a fraction. *)
Definition scaled (a b e : Z) : Z * Z :=
  if 0 <=? e then (a, b * 2 ^ e) else (a * 2 ^ (- e), b).

(** The exponent of the last place of [a / b], for positive [a] and [b]:
    the [e] with [2 ^ 52 <= a / b / 2 ^ e < 2 ^ 53], and -1074 for the
    numbers too small for it. *)
Definition last_place (a b : Z) : Z :=
  let e := Z.log2 a - Z.log2 b - 53 in
  let nd := scaled a b e in
  Z.max (if fst nd <? 2 ^ 53 * snd nd then e else e + 1) (-1074).

(** [a / b] in units of the last place, as the nearest integer. *)
Definition nearest (a b e : Z) : Z :=
  let nd := scaled a b e in
  let m := fst nd / snd nd in
  let r := fst nd mod snd nd in
  if (snd nd <? 2 * r) || ((snd nd =? 2 * r) && Z.odd m) then m + 1 else m.

(** [m * 2 ^ e] *)
Definition dyadic (m e : Z) : Q :=
  if 0 <=? e then inject_Z (m * 2 ^ e) else Qred (m # Z.to_pos (2 ^ (- e))).

Definition round (q : Q) : jsnum :=
  let a := Z.abs (Qnum q) in
  let b := Zpos (Qden q) in
  if a =? 0 then Fin 0
  else
    let e := last_place a b in
    let m := nearest a b e in
    if (971 <? e) || ((e =? 971) && (2 ^ 53 <=? m))
    then (if Qnum q <? 0 then NInf else PInf)
    else Fin (dyadic (Z.sgn (Qnum q) * m) e).

(** [a - b] *)
Definition sub (a b : jsnum) : jsnum :=
  match a, b with
  | NaN, _ | _, NaN => NaN
  | PInf, PInf | NInf, NInf => NaN
  | PInf, _ => PInf
  | NInf, _ => NInf
  | Fin _, PInf => NInf
  | Fin _, NInf => PInf
  | Fin x, Fin y => round (x - y)
  end.

Definition inf_of (c : comparison) : jsnum :=
  match c with Gt => PInf | Lt => NInf | Eq => NaN end.

Definition flip (c : comparison) : comparison := CompOpp c.

(** [a * b] *)
Definition mul (a b : jsnum) : jsnum :=
  match a, b with
  | NaN, _ | _, NaN => NaN
  | PInf, PInf | NInf, NInf => PInf
  | PInf, NInf | NInf, PInf => NInf
  | PInf, Fin y | Fin y, PInf => inf_of (sgn y)
  | NInf, Fin y | Fin y, NInf => inf_of (flip (sgn y))
  | Fin x, Fin y => round (x * y)
  end.

(** [a / b] *)
Definition div (a b : jsnum) : jsnum :=
  match a, b with
  | NaN, _ | _, NaN => NaN
  | (PInf | NInf), (PInf | NInf) => NaN
  | PInf, Fin y => match sgn y with Lt => NInf | _ => PInf end
  | NInf, Fin y => match sgn y with Lt => PInf | _ => NInf end
  | Fin _, (PInf | NInf) => Fin 0
  | Fin x, Fin y =>
      match sgn y with
      | Eq => inf_of (sgn x)
      | _ => round (x / y)
      end
  end.

(** [Math.ceil] *)
Definition Math_ceil (a : jsnum) : jsnum :=
  match a with
  | Fin q => of_Z (Qceiling q)
  | other => other
  end.

(** [a < b]; every comparison with [NaN] is false. *)
Definition lt (a b : jsnum) : bool :=
  match a, b with
  | NaN, _ | _, NaN => false
  | _, NInf => false
  | PInf, _ => false
  | NInf, _ => true
  | Fin _, PInf => true
  | Fin x, Fin y => negb (Qle_bool y x)
  end.

Definition gt (a b : jsnum) : bool := lt b a.

(** *** White space

    The white space and the line terminators of ECMAScript, which
    [parseInt] skips and [trim] removes, in UTF-8: the characters U+0009
    to U+000D and U+0020 are one byte, U+00A0 is two bytes, and U+1680,
    U+2000 to U+200A, U+2028, U+2029, U+202F, U+205F, U+3000 and U+FEFF
    are three. *)

Definition byte (c : ascii) (n : nat) : bool := Nat.eqb (nat_of_ascii c) n.

(** The white space of one byte, of two bytes and of three bytes. *)
Definition is_space (c : ascii) : bool :=
  let n := nat_of_ascii c in
  ((Nat.leb 9 n && Nat.leb n 13) || Nat.eqb n 32)%bool.

Definition is_space2 (a b : ascii) : bool :=
  (byte a 194 && byte b 160)%bool.

Definition is_space3 (a b c : ascii) : bool :=
  let n := nat_of_ascii c in
  ((byte a 225 && byte b 154 && byte c 128)
   || (byte a 226 && byte b 128
       && ((Nat.leb 128 n && Nat.leb n 138) || byte c 168 || byte c 169
           || byte c 175))
   || (byte a 226 && byte b 129 && byte c 159)
   || (byte a 227 && byte b 128 && byte c 128)
   || (byte a 239 && byte b 187 && byte c 191))%bool.

(** The text without the white space it starts with. *)
Fixpoint skip_spaces (s : list ascii) : list ascii :=
  match s with
  | c :: s1 =>
      if is_space c then skip_spaces s1
      else
        match s1 with
        | c2 :: s2 =>
            if is_space2 c c2 then skip_spaces s2
            else
              match s2 with
              | c3 :: s3 => if is_space3 c c2 c3 then skip_spaces s3 else s
              | [] => s
              end
        | [] => s
        end
  | [] => []
  end.

(** The same on a text that is held last byte first. *)
Fixpoint skip_spaces_back (s : list ascii) : list ascii :=
  match s with
  | c :: s1 =>
      if is_space c then skip_spaces_back s1
      else
        match s1 with
        | c2 :: s2 =>
            if is_space2 c2 c then skip_spaces_back s2
            else
              match s2 with
              | c3 :: s3 =>
                  if is_space3 c3 c2 c then skip_spaces_back s3 else s
              | [] => s
              end
        | [] => s
        end
  | [] => []
  end.

(** *** parseInt *)

Definition digit_val (radix : Z) (c : ascii) : option Z :=
  let n := Z.of_nat (nat_of_ascii c) in
  let d :=
    if (48 <=? n) && (n <=? 57) then Some (n - 48)
    else if (97 <=? n) && (n <=? 122) then Some (n - 87)
    else if (65 <=? n) && (n <=? 90) then Some (n - 55)
    else None in
  match d with
  | Some v => if v <? radix then Some v else None
  | None => None
  end.

(** The value of the longest prefix of digits; [None] when there is no
    digit at all. *)
Fixpoint parse_digits (radix : Z) (s : list ascii) (acc : option Z)
  : option Z :=
  match s with
  | [] => acc
  | c :: s' =>
      match digit_val radix c with
      | Some d =>
          parse_digits radix s'
            (Some (match acc with Some a => a * radix + d | None => d end))
      | None => acc
      end
  end.

Definition strip_sign (s : list ascii) : Z * list ascii :=
  match s with
  | "-"%char :: s' => (-1, s')
  | "+"%char :: s' => (1, s')
  | _ => (1, s)
  end.

Definition strip_hex (s : list ascii) : Z * list ascii :=
  match s with
  | "0"%char :: "x"%char :: s' => (16, s')
  | "0"%char :: "X"%char :: s' => (16, s')
  | _ => (10, s)
  end.

(** [parseInt(s)] with no radix argument: the number nearest to the
    integer that the digits spell. *)
Definition parseInt (s : string) : jsnum :=
  let (sign, s1) := strip_sign (skip_spaces (chars s)) in
  let (radix, s2) := strip_hex s1 in
  match parse_digits radix s2 None with
  | Some v => round (inject_Z (sign * v))
  | None => NaN
  end.

End JS.

(** ** Regular expressions of the store

    [{ $regex: p, $options: 'i' }] and [new RegExp(p, 'i')] hand the
    parameter to a regular expression engine.  The handlers are modelled
    for every engine: an engine either refuses a pattern or tests texts
    against it.  The engine defined here covers a fragment of the
    patterns (literal characters, [.], an escaped punctuation character
    and the postfix operators [*], [+] and [?] on one character) and
    refuses every other pattern; the handlers are run on it to try them. *)

Module Regex.

Inductive atom : Type :=
| Lit (c : ascii)
| AnyChar.

Inductive quant : Type := One | Opt | Star | Plus.

Definition item : Type := (atom * quant)%type.

Inductive token : Type :=
| TAtom (a : atom)
| TQuant (q : quant).

Definition is_alnum (c : ascii) : bool :=
  let n := nat_of_ascii c in
  ((Nat.leb 48 n && Nat.leb n 57) || (Nat.leb 65 n && Nat.leb n 90)
   || (Nat.leb 97 n && Nat.leb n 122))%bool.

(** The characters with a meaning of their own in a pattern. *)
Definition is_meta (c : ascii) : bool :=
  existsb (Ascii.eqb c)
    ["\"; "."; "*"; "+"; "?"; "^"; "$"; "("; ")"; "["; "]"; "{"; "}"; "|"]%char.

Fixpoint tokens (s : list ascii) : option (list token) :=
  match s with
  | [] => Some []
  | "\"%char :: e :: s' =>
      if is_alnum e then None
      else option_map (cons (TAtom (Lit e))) (tokens s')
  | "\"%char :: [] => None
  | "."%char :: s' => option_map (cons (TAtom AnyChar)) (tokens s')
  | "*"%char :: s' => option_map (cons (TQuant Star)) (tokens s')
  | "+"%char :: s' => option_map (cons (TQuant Plus)) (tokens s')
  | "?"%char :: s' => option_map (cons (TQuant Opt)) (tokens s')
  | c :: s' =>
      if is_meta c then None
      else option_map (cons (TAtom (Lit c))) (tokens s')
  end.

(** An atom takes the operator that follows it; an operator with no atom
    before it, or right after another operator, is not in the fragment. *)
Fixpoint items (ts : list token) : option (list item) :=
  match ts with
  | [] => Some []
  | TAtom a :: TQuant q :: ts' =>
      match ts' with
      | TQuant _ :: _ => None
      | _ => option_map (cons (a, q)) (items ts')
      end
  | TAtom a :: ts' => option_map (cons (a, One)) (items ts')
  | TQuant _ :: _ => None
  end.

Definition compile (p : string) : option (list item) :=
  match tokens (JS.chars p) with
  | Some ts => items ts
  | None => None
  end.

(** One character against one atom, letters compared without case. *)
Definition atom_ok (a : atom) (c : ascii) : bool :=
  match a with
  | Lit l => Ascii.eqb (JS.lower l) (JS.lower c)
  | AnyChar => negb (Ascii.eqb c (ascii_of_nat 10))
  end.

Fixpoint star (ok : ascii -> bool) (k : list ascii -> bool)
  (s : list ascii) : bool :=
  k s || match s with
         | c :: s' => ok c && star ok k s'
         | [] => false
         end.

(** Does the pattern match a prefix of [s]? *)
Fixpoint match_here (p : list item) (s : list ascii) : bool :=
  match p with
  | [] => true
  | (a, One) :: p' =>
      match s with
      | c :: s' => atom_ok a c && match_here p' s'
      | [] => false
      end
  | (a, Opt) :: p' =>
      match s with
      | c :: s' => (atom_ok a c && match_here p' s') || match_here p' s
      | [] => match_here p' s
      end
  | (a, Star) :: p' => star (atom_ok a) (match_here p') s
  | (a, Plus) :: p' =>
      match s with
      | c :: s' => atom_ok a c && star (atom_ok a) (match_here p') s'
      | [] => false
      end
  end.

(** Does the pattern match somewhere in [s]? *)
Fixpoint search (p : list item) (s : list ascii) : bool :=
  match_here p s || match s with
                    | _ :: s' => search p s'
                    | [] => false
                    end.

Definition test (p : list item) (s : string) : bool :=
  search p (JS.chars s).

(** A parameter with no character that a pattern reads specially. *)
Definition plain (p : string) : bool :=
  forallb (fun c => negb (is_meta c)) (JS.chars p).

(** [needle] occurs in [hay], letters compared without case. *)
Definition ci_substring (needle hay : string) : Prop :=
  exists pre post,
    map JS.lower (JS.chars hay)
    = pre ++ map JS.lower (JS.chars needle) ++ post.

(** An engine: [None] for a pattern that is refused, and otherwise the
    test of a text against the pattern, letters compared without case. *)
Definition matcher : Type := string -> bool.
Definition engine : Type := string -> option matcher.

(** The engine of the fragment. *)
Definition fragment : engine :=
  fun p => option_map (fun re s => test re s) (compile p).

End Regex.

(** ** The collections *)

Definition oid : Type := nat.

(** [postSchema]: every field but [userId] and [createdAt] is optional. *)
Module Requirement.
Record doc : Type := mk {
  _id : oid;
  userId : oid;
  userEmail : option string;
  images : list string;
  price : option Q;
  furnishing : option string;
  state : option string;
  city : option string;
  location : option string;
  prefs : list string;
  gender : option string;
  notes : option string;
  createdAt : Z
}.
End Requirement.

(** [savedPostSchema] *)
Module SavedPost.
Record doc : Type := mk {
  userId : oid;
  postId : oid;
  savedAt : Z
}.
End SavedPost.

(** [conversationSchema] *)
Module Conversation.
Record doc : Type := mk {
  _id : oid;
  participants : list oid;
  lastMessage : string;
  lastMessageTime : Z;
  createdAt : Z
}.
End Conversation.

(** [messageSchema] *)
Module Message.
Record doc : Type := mk {
  _id : oid;
  conversationId : oid;
  senderId : oid;
  receiverId : oid;
  message : string;
  read : bool;
  createdAt : Z
}.
End Message.

(** The database: the four collections and the source of fresh ids. *)
Record db : Type := mkDb {
  requirements : list Requirement.doc;
  savedPosts : list SavedPost.doc;
  conversations : list Conversation.doc;
  messages : list Message.doc;
  next_id : oid
}.

(** A stable sort by insertion, the order [.sort(...)] gives. *)
Section Sort.
Context {A : Type} (le : A -> A -> bool).

Fixpoint insert_sorted (x : A) (l : list A) : list A :=
  match l with
  | [] => [x]
  | y :: l' => if le x y then x :: l else y :: insert_sorted x l'
  end.

Fixpoint sort_by (l : list A) : list A :=
  match l with
  | [] => []
  | x :: l' => insert_sorted x (sort_by l')
  end.

End Sort.

(** ** GET /api/search-flatmates *)

Module Search.

Import Requirement.

(** A query-string value: one string, or an array when the parameter is
    repeated.  Only [preferences] is read as an array by the handler;
    the other parameters are taken as given once. *)
Inductive qval : Type :=
| QStr (s : string)
| QArr (l : list string).

Record request : Type := mkRequest {
  r_state : option string;
  r_city : option string;
  r_location : option string;
  r_minPrice : option string;
  r_maxPrice : option string;
  r_furnishing : option string;
  r_gender : option string;
  r_preferences : option qval;
  r_sortBy : option string;
  r_page : option string;
  r_limit : option string
}.

(** [{ $gte, $lte }] *)
Record price_query : Type := mkPrice {
  gte : option JS.jsnum;
  lte : option JS.jsnum
}.

(** The [query] object of the handler; [None] is a key that is not set. *)
Record query : Type := mkQuery {
  q_state : option string;
  q_city : option string;
  q_location : option string;
  q_price : option price_query;
  q_furnishing : option string;
  q_gender : option string;
  q_prefs : option (list string)
}.

Inductive sort_options : Type :=
| CreatedDesc
| CreatedAsc
| PriceAsc
| PriceDesc.

Definition is_some {A : Type} (o : option A) : bool :=
  match o with Some _ => true | None => false end.

(** [if (preferences)] and [Array.isArray(preferences) ? preferences :
    [preferences]]. *)
Definition prefsArray (p : option qval) : option (list string) :=
  match p with
  | Some (QStr s) => option_map (fun s' => [s']) (JS.truthy (Some s))
  | Some (QArr l) => Some l
  | None => None
  end.

Definition build_query (r : request) : query :=
  let minPrice := JS.truthy (r_minPrice r) in
  let maxPrice := JS.truthy (r_maxPrice r) in
  {| q_state := JS.truthy (r_state r);
     q_city := JS.truthy (r_city r);
     q_location := JS.truthy (r_location r);
     q_price :=
       if is_some minPrice || is_some maxPrice
       then Some {| gte := option_map JS.parseInt minPrice;
                    lte := option_map JS.parseInt maxPrice |}
       else None;
     q_furnishing := JS.truthy (r_furnishing r);
     q_gender := JS.truthy (r_gender r);
     q_prefs := prefsArray (r_preferences r) |}.

(** The [switch (sortBy)], [sortBy] being ['newest'] when not given. *)
Definition build_sort (r : request) : sort_options :=
  match r_sortBy r with
  | None => CreatedDesc
  | Some s =>
      if String.eqb s "newest" then CreatedDesc
      else if String.eqb s "oldest" then CreatedAsc
      else if String.eqb s "price-low" then PriceAsc
      else if String.eqb s "price-high" then PriceDesc
      else CreatedDesc
  end.

(** [page = 1] and [limit = 6] stand for a parameter that is undefined. *)
Definition pageNum (r : request) : JS.jsnum :=
  match r_page r with
  | Some s => JS.parseInt s
  | None => JS.of_Z 1
  end.

Definition limitNum (r : request) : JS.jsnum :=
  match r_limit r with
  | Some s => JS.parseInt s
  | None => JS.of_Z 6
  end.

Definition skip (r : request) : JS.jsnum :=
  JS.mul (JS.sub (pageNum r) (JS.of_Z 1)) (limitNum r).

(** *** What the store answers *)

Section Store.

(** The engine behind [{ $regex: p, $options: 'i' }], and the one behind
    a [new RegExp(p, 'i')] that is sent in a query: the pattern is
    refused when the constructor throws or when the store refuses it. *)
Variable regex : Regex.engine.
Variable RegExp : Regex.engine.

(** The query as the store runs it: patterns compiled, bounds cast. *)
Record cquery : Type := mkCquery {
  c_state : option Regex.matcher;
  c_city : option Regex.matcher;
  c_location : option Regex.matcher;
  c_gte : option JS.jsnum;
  c_lte : option JS.jsnum;
  c_furnishing : option string;
  c_gender : option string;
  c_prefs : option (list Regex.matcher)
}.

(** [None] on the outside: the key is rejected; [Some None]: no such key. *)
Definition compile_opt (p : option string)
  : option (option Regex.matcher) :=
  match p with
  | None => Some None
  | Some s => option_map Some (regex s)
  end.

(** [prefsArray.map(pref => new RegExp(pref, 'i'))] *)
Fixpoint compile_all (ps : list string) : option (list Regex.matcher) :=
  match ps with
  | [] => Some []
  | p :: ps' =>
      match RegExp p, compile_all ps' with
      | Some c, Some cs => Some (c :: cs)
      | _, _ => None
      end
  end.

(** A bound of a [Number] path is cast; [NaN] fails the cast. *)
Definition cast_bound (b : option JS.jsnum) : option (option JS.jsnum) :=
  match b with
  | None => Some None
  | Some JS.NaN => None
  | Some x => Some (Some x)
  end.

Definition cast_query (q : query) : option cquery :=
  match compile_opt (q_state q), compile_opt (q_city q),
        compile_opt (q_location q) with
  | Some s, Some c, Some l =>
      let bounds :=
        match q_price q with
        | None => Some (None, None)
        | Some p =>
            match cast_bound (gte p), cast_bound (lte p) with
            | Some g, Some h => Some (g, h)
            | _, _ => None
            end
        end in
      let prefs :=
        match q_prefs q with
        | None => Some None
        | Some ps => option_map Some (compile_all ps)
        end in
      match bounds, prefs with
      | Some (g, h), Some ps =>
          Some {| c_state := s; c_city := c; c_location := l;
                  c_gte := g; c_lte := h;
                  c_furnishing := q_furnishing q;
                  c_gender := q_gender q;
                  c_prefs := ps |}
      | _, _ => None
      end
  | _, _, _ => None
  end.

(** A condition on a key that the document may lack. *)
Definition on_field {A : Type} (cond : option (A -> bool)) (v : option A)
  : bool :=
  match cond with
  | None => true
  | Some f => match v with Some x => f x | None => false end
  end.

Definition eq_cond (c : option string) : option (string -> bool) :=
  option_map (fun v s => String.eqb s v) c.

(** [price >= b] and [price <= b] on a number that is not [NaN]. *)
Definition ge_bound (b : JS.jsnum) (p : Q) : bool :=
  negb (JS.lt (JS.Fin p) b).
Definition le_bound (b : JS.jsnum) (p : Q) : bool :=
  negb (JS.lt b (JS.Fin p)).

(** [{ $in: [re, ...] }] on an array: some element matches some pattern. *)
Definition in_prefs (res : list Regex.matcher) (tags : list string)
  : bool :=
  existsb (fun re => existsb re tags) res.

Definition matches (q : cquery) (d : doc) : bool :=
  on_field (c_state q) (state d)
  && on_field (c_city q) (city d)
  && on_field (c_location q) (location d)
  && on_field (option_map ge_bound (c_gte q)) (price d)
  && on_field (option_map le_bound (c_lte q)) (price d)
  && on_field (eq_cond (c_furnishing q)) (furnishing d)
  && on_field (eq_cond (c_gender q)) (gender d)
  && match c_prefs q with
     | None => true
     | Some res => in_prefs res (prefs d)
     end.

(** Order on a key that may be missing: a missing key sorts first. *)
Definition price_le (a b : option Q) : bool :=
  match a, b with
  | None, _ => true
  | Some _, None => false
  | Some x, Some y => Qle_bool x y
  end.

Definition doc_le (o : sort_options) (a b : doc) : bool :=
  match o with
  | CreatedDesc => createdAt b <=? createdAt a
  | CreatedAsc => createdAt a <=? createdAt b
  | PriceAsc => price_le (price a) (price b)
  | PriceDesc => price_le (price b) (price a)
  end.

(** [.limit(n)]: zero is no limit, a negative limit counts as its
    absolute value. *)
Definition apply_limit {A : Type} (n : Z) (l : list A) : list A :=
  if n =? 0 then l else firstn (Z.to_nat (Z.abs n)) l.

(** [.skip(s).limit(n)]: a skip that is negative, or a skip or limit that
    is not an integer, is refused. *)
Definition window {A : Type} (s n : JS.jsnum) (l : list A)
  : option (list A) :=
  match JS.as_int s, JS.as_int n with
  | Some s', Some n' =>
      if s' <? 0 then None
      else Some (apply_limit n' (skipn (Z.to_nat s') l))
  | _, _ => None
  end.

(** [Requirement.find(query).sort(o).skip(s).limit(n)] *)
Definition find (coll : list doc) (q : query) (o : sort_options)
  (s n : JS.jsnum) : option (list doc) :=
  match cast_query q with
  | Some cq => window s n (sort_by (doc_le o) (filter (matches cq) coll))
  | None => None
  end.

(** [Requirement.countDocuments(query)] *)
Definition countDocuments (coll : list doc) (q : query) : option nat :=
  match cast_query q with
  | Some cq => Some (List.length (filter (matches cq) coll))
  | None => None
  end.

Record pagination : Type := mkPagination {
  currentPage : JS.jsnum;
  totalPages : JS.jsnum;
  totalCount : nat;
  hasNextPage : bool;
  hasPrevPage : bool;
  limit : JS.jsnum
}.

Inductive response : Type :=
| Ok (data : list doc) (p : pagination)
| ServerError.

(** The handler: a rejected [find] or [countDocuments] is caught and
    answered with status 500. *)
Definition search_flatmates (coll : list doc) (r : request) : response :=
  let query := build_query r in
  let sortOptions := build_sort r in
  match find coll query sortOptions (skip r) (limitNum r),
        countDocuments coll query with
  | Some listings, Some total =>
      let pages := JS.Math_ceil (JS.div (JS.of_nat total) (limitNum r)) in
      Ok listings
         {| currentPage := pageNum r;
            totalPages := pages;
            totalCount := total;
            hasNextPage := JS.lt (pageNum r) pages;
            hasPrevPage := JS.gt (pageNum r) (JS.of_Z 1);
            limit := limitNum r |}
  | _, _ => ServerError
  end.

Definition returned (r : response) : list doc :=
  match r with
  | Ok data _ => data
  | ServerError => []
  end.

End Store.

Arguments on_field {A} cond v.
Arguments apply_limit {A} n l.
Arguments window {A} s n l.

End Search.

(** ** DELETE /api/my-posts/:postId *)

Module Posts.

Import Requirement.

Record response : Type := mkResponse {
  status : nat;
  success : bool;
  message : string
}.

(** What [console.error] prints while the request is handled. *)
Inductive log_entry : Type :=
| CloudinaryDeleteError (publicId : string)
| DeletePostError.

Definition folder : string := "flatmate-finder-uploads/".

Fixpoint strip_prefix (p s : list ascii) : option (list ascii) :=
  match p, s with
  | [], _ => Some s
  | a :: p', b :: s' => if Ascii.eqb a b then strip_prefix p' s' else None
  | _ :: _, [] => None
  end.

(** The longest run of characters other than a dot: [[^.]+] is greedy. *)
Fixpoint take_non_dot (s : list ascii) : list ascii :=
  match s with
  | c :: s' => if Ascii.eqb c "."%char then [] else c :: take_non_dot s'
  | [] => []
  end.

Definition upload_here (s : list ascii) : option (list ascii) :=
  match strip_prefix (JS.chars folder) s with
  | Some rest =>
      match take_non_dot rest with
      | [] => None
      | cap => Some cap
      end
  | None => None
  end.

(** [imageUrl.match(/flatmate-finder-uploads\/([^.]+)/)]: the group of the
    leftmost match. *)
Fixpoint match_upload (s : list ascii) : option (list ascii) :=
  match upload_here s with
  | Some cap => Some cap
  | None =>
      match s with
      | _ :: s' => match_upload s'
      | [] => None
      end
  end.

Definition publicId (imageUrl : string) : option string :=
  match match_upload (JS.chars imageUrl) with
  | Some cap => Some (folder ++ string_of_list_ascii cap)%string
  | None => None
  end.

(** The ids [cloudinary.uploader.destroy] is called with: one call for
    every image whose URL has a public id. *)
Fixpoint destroy_calls (imgs : list string) : list string :=
  match imgs with
  | [] => []
  | u :: imgs' =>
      match publicId u with
      | Some p => p :: destroy_calls imgs'
      | None => destroy_calls imgs'
      end
  end.

Definition owned (postId uid : oid) (d : doc) : bool :=
  Nat.eqb (_id d) postId && Nat.eqb (userId d) uid.

(** [deleteOne(filter)]: the first document that matches goes. *)
Fixpoint deleteOne (f : doc -> bool) (coll : list doc) : list doc :=
  match coll with
  | [] => []
  | d :: coll' => if f d then coll' else d :: deleteOne f coll'
  end.

Definition set_requirements (s : db) (rs : list doc) : db :=
  {| requirements := rs;
     savedPosts := savedPosts s;
     conversations := conversations s;
     messages := messages s;
     next_id := next_id s |}.

Record outcome : Type := mkOutcome {
  resp : response;
  store : db;
  errors : list log_entry;
  destroyed : list string
}.

(** The handler.  [fails p] tells whether Cloudinary reports an error for
    the destroy of [p]; such a promise is rejected, [Promise.all] is then
    rejected too and control goes to the [catch]. *)
Definition delete_post (fails : string -> bool) (s : db)
  (postId uid : oid) : outcome :=
  match find (owned postId uid) (requirements s) with
  | None =>
      {| resp := {| status := 403; success := false;
                    message := "Post not found or you are not authorized to delete it." |};
         store := s; errors := []; destroyed := [] |}
  | Some post =>
      let calls := destroy_calls (images post) in
      let failed := filter fails calls in
      match failed with
      | [] =>
          {| resp := {| status := 200; success := true;
                        message := "Post deleted successfully." |};
             store := set_requirements s
                        (deleteOne (owned postId uid) (requirements s));
             errors := [];
             destroyed := calls |}
      | _ :: _ =>
          {| resp := {| status := 500; success := false;
                        message := "Server error while deleting post." |};
             store := s;
             errors := map CloudinaryDeleteError failed ++ [DeletePostError];
             destroyed := filter (fun p => negb (fails p)) calls |}
      end
  end.

End Posts.

(** ** POST /api/save-post/:postId *)

Module Saved.

Record response : Type := mkResponse {
  status : nat;
  success : bool;
  message : string;
  alreadySaved : bool
}.

Definition same_pair (uid pid : oid) (sp : SavedPost.doc) : bool :=
  Nat.eqb (SavedPost.userId sp) uid && Nat.eqb (SavedPost.postId sp) pid.

Definition findById (pid : oid) (coll : list Requirement.doc)
  : option Requirement.doc :=
  find (fun d => Nat.eqb (Requirement._id d) pid) coll.

Definition set_savedPosts (s : db) (sps : list SavedPost.doc) : db :=
  {| requirements := requirements s;
     savedPosts := sps;
     conversations := conversations s;
     messages := messages s;
     next_id := next_id s |}.

(** The handler; [now] is the clock that [savedAt] defaults to. *)
Definition save_post (now : Z) (s : db) (uid postId : oid)
  : response * db :=
  match findById postId (requirements s) with
  | None =>
      ({| status := 404; success := false; message := "Post not found";
          alreadySaved := false |}, s)
  | Some _ =>
      match find (same_pair uid postId) (savedPosts s) with
      | Some _ =>
          ({| status := 200; success := true;
              message := "Post already saved"; alreadySaved := true |}, s)
      | None =>
          ({| status := 200; success := true;
              message := "Post saved successfully"; alreadySaved := false |},
           set_savedPosts s
             (savedPosts s ++
              [{| SavedPost.userId := uid; SavedPost.postId := postId;
                  SavedPost.savedAt := now |}]))
      end
  end.

(** The rows of one (user, post) pair. *)
Definition rows (s : db) (uid pid : oid) : list SavedPost.doc :=
  filter (same_pair uid pid) (savedPosts s).

End Saved.

(** ** ObjectIds as strings

    An id is a number below [16 ^ 24]. *)

Module ObjectId.

Definition hex_digit (d : nat) : ascii :=
  ascii_of_nat (if Nat.ltb d 10 then 48 + d else 87 + d).

(** The last [k] hexadecimal digits of [n], the first of them first. *)
Fixpoint hex (k n : nat) : list ascii :=
  match k with
  | O => []
  | S k' => hex k' (n / 16) ++ [hex_digit (n mod 16)]
  end.

(** [id.toString()]: 24 hexadecimal digits, the letters in lower case. *)
Definition toString (id : oid) : string :=
  string_of_list_ascii (hex 24 id).

Definition hex_val (c : ascii) : option nat :=
  let n := nat_of_ascii c in
  if (Nat.leb 48 n && Nat.leb n 57)%bool then Some (n - 48)%nat
  else if (Nat.leb 97 n && Nat.leb n 102)%bool then Some (n - 87)%nat
  else if (Nat.leb 65 n && Nat.leb n 70)%bool then Some (n - 55)%nat
  else None.

Fixpoint hex_value (s : list ascii) (acc : nat) : option nat :=
  match s with
  | [] => Some acc
  | c :: s' =>
      match hex_val c with
      | Some d => hex_value s' (acc * 16 + d)%nat
      | None => None
      end
  end.

(** The cast of a string of a request to an ObjectId: 24 hexadecimal
    digits, the letters in either case; another string fails the cast. *)
Definition cast (s : string) : option oid :=
  if Nat.eqb (String.length s) 24 then hex_value (JS.chars s) 0%nat
  else None.

End ObjectId.

(** ** Conversations and messages *)

Module Chat.

Inductive conv_response : Type :=
| Conv200 (conversation : Conversation.doc)
| Conv400 (message : string).

Definition has (u : oid) (c : Conversation.doc) : bool :=
  existsb (Nat.eqb u) (Conversation.participants c).

(** [{ participants: { $all: [a, b] } }] *)
Definition all_of (a b : oid) (c : Conversation.doc) : bool :=
  has a c && has b c.

Definition set_conversations (s : db) (cs : list Conversation.doc)
  (next : oid) : db :=
  {| requirements := requirements s;
     savedPosts := savedPosts s;
     conversations := cs;
     messages := messages s;
     next_id := next |}.

(** POST /api/conversations, [otherUserId] being the string of an
    id. *)
Definition create_conversation (now : Z) (s : db) (uid otherUserId : oid)
  : conv_response * db :=
  if Nat.eqb uid otherUserId then (Conv400 "Cannot chat with yourself", s)
  else
    match find (all_of uid otherUserId) (conversations s) with
    | Some conversation => (Conv200 conversation, s)
    | None =>
        let conversation :=
          {| Conversation._id := next_id s;
             Conversation.participants := [uid; otherUserId];
             Conversation.lastMessage := EmptyString;
             Conversation.lastMessageTime := now;
             Conversation.createdAt := now |} in
        (Conv200 conversation,
         set_conversations s (conversations s ++ [conversation])
           (S (next_id s)))
    end.

(** POST /api/conversations with [otherUserId] as the body has it, a
    string: the guard compares it with [userId.toString()], and the
    query and the new document cast it to an ObjectId.  A cast that
    fails is caught and answered with status 500, here [None]. *)
Definition post_conversations (now : Z) (s : db) (userId : oid)
  (otherUserId : string) : option conv_response * db :=
  if String.eqb (ObjectId.toString userId) otherUserId
  then (Some (Conv400 "Cannot chat with yourself"), s)
  else
    match ObjectId.cast otherUserId with
    | None => (None, s)
    | Some other =>
        match find (all_of userId other) (conversations s) with
        | Some conversation => (Some (Conv200 conversation), s)
        | None =>
            let conversation :=
              {| Conversation._id := next_id s;
                 Conversation.participants := [userId; other];
                 Conversation.lastMessage := EmptyString;
                 Conversation.lastMessageTime := now;
                 Conversation.createdAt := now |} in
            (Some (Conv200 conversation),
             set_conversations s (conversations s ++ [conversation])
               (S (next_id s)))
        end
    end.

(** The conversations of an unordered pair of users. *)
Definition of_pair (s : db) (a b : oid) : list Conversation.doc :=
  filter (all_of a b) (conversations s).

(** [{ _id: conversationId, participants: userId }] *)
Definition member (conversationId uid : oid) (c : Conversation.doc) : bool :=
  Nat.eqb (Conversation._id c) conversationId && has uid c.

Inductive list_response : Type :=
| List200 (messages : list Message.doc)
| List403.

Definition in_conversation (conversationId : oid) (m : Message.doc) : bool :=
  Nat.eqb (Message.conversationId m) conversationId.

Definition older (a b : Message.doc) : bool :=
  Message.createdAt a <=? Message.createdAt b.

(** [{ conversationId, receiverId: userId, read: false }] *)
Definition unread_for (conversationId uid : oid) (m : Message.doc) : bool :=
  in_conversation conversationId m
  && Nat.eqb (Message.receiverId m) uid
  && negb (Message.read m).

Definition mark_read (m : Message.doc) : Message.doc :=
  {| Message._id := Message._id m;
     Message.conversationId := Message.conversationId m;
     Message.senderId := Message.senderId m;
     Message.receiverId := Message.receiverId m;
     Message.message := Message.message m;
     Message.read := true;
     Message.createdAt := Message.createdAt m |}.

(** [updateMany(filter, { read: true })] *)
Definition updateMany (f : Message.doc -> bool) (ms : list Message.doc)
  : list Message.doc :=
  map (fun m => if f m then mark_read m else m) ms.

Definition set_messages (s : db) (ms : list Message.doc) (next : oid) : db :=
  {| requirements := requirements s;
     savedPosts := savedPosts s;
     conversations := conversations s;
     messages := ms;
     next_id := next |}.

(** GET /api/messages/:conversationId.  The messages are read before the
    update, so the answer shows them as they were. *)
Definition list_messages (s : db) (conversationId uid : oid)
  : list_response * db :=
  match find (member conversationId uid) (conversations s) with
  | None => (List403, s)
  | Some _ =>
      let found :=
        sort_by older (filter (in_conversation conversationId) (messages s)) in
      (List200 found,
       set_messages s
         (updateMany (unread_for conversationId uid) (messages s))
         (next_id s))
  end.

Inductive send_response : Type :=
| Send200 (message : Message.doc)
| Send403
| Send500.

(** [message: { type: String, required: true }]: a string path that is
    required refuses the empty string. *)
Definition required (s : string) : bool :=
  negb (String.eqb s EmptyString).

(** [findByIdAndUpdate(conversationId, { lastMessage, lastMessageTime })] *)
Fixpoint findByIdAndUpdate (conversationId : oid) (text : string) (now : Z)
  (cs : list Conversation.doc) : list Conversation.doc :=
  match cs with
  | [] => []
  | c :: cs' =>
      if Nat.eqb (Conversation._id c) conversationId
      then {| Conversation._id := Conversation._id c;
              Conversation.participants := Conversation.participants c;
              Conversation.lastMessage := text;
              Conversation.lastMessageTime := now;
              Conversation.createdAt := Conversation.createdAt c |} :: cs'
      else c :: findByIdAndUpdate conversationId text now cs'
  end.

(** POST /api/messages, for a message that is a string.
    [message.substring(0, 100)] is taken on the bytes, which are the
    characters of a text in ASCII. *)
Definition send_message (now : Z) (s : db) (senderId : oid)
  (conversationId receiverId : oid) (message : string)
  : send_response * db :=
  match find (member conversationId senderId) (conversations s) with
  | None => (Send403, s)
  | Some _ =>
      if required message then
        let newMessage :=
          {| Message._id := next_id s;
             Message.conversationId := conversationId;
             Message.senderId := senderId;
             Message.receiverId := receiverId;
             Message.message := message;
             Message.read := false;
             Message.createdAt := now |} in
        (Send200 newMessage,
         {| requirements := requirements s;
            savedPosts := savedPosts s;
            conversations :=
              findByIdAndUpdate conversationId (substring 0 100 message) now
                (conversations s);
            messages := messages s ++ [newMessage];
            next_id := S (next_id s) |})
      else (Send500, s)
  end.

End Chat.

(** ** The server: requests handled one after the other *)

Module Server.

Inductive request : Type :=
| DeletePost (fails : string -> bool) (postId uid : oid)
| SavePost (now : Z) (uid postId : oid)
| CreateConversation (now : Z) (uid otherUserId : oid)
| ListMessages (conversationId uid : oid)
| SendMessage (now : Z) (senderId conversationId receiverId : oid)
    (message : string).

(** The database after one request. *)
Definition handle (s : db) (rq : request) : db :=
  match rq with
  | DeletePost fails postId uid =>
      Posts.store (Posts.delete_post fails s postId uid)
  | SavePost now uid postId => snd (Saved.save_post now s uid postId)
  | CreateConversation now uid otherUserId =>
      snd (Chat.create_conversation now s uid otherUserId)
  | ListMessages conversationId uid =>
      snd (Chat.list_messages s conversationId uid)
  | SendMessage now senderId conversationId receiverId message =>
      snd (Chat.send_message now s senderId conversationId receiverId
             message)
  end.

Definition serve (s : db) (rqs : list request) : db :=
  fold_left handle rqs s.

(** The database with listings and nothing saved or said yet. *)
Definition fresh_db (listings : list Requirement.doc) (next : oid) : db :=
  {| requirements := listings; savedPosts := []; conversations := [];
     messages := []; next_id := next |}.

End Server.

(** ** What the properties are stated with *)

Module Statements.

Import Search.

(** The compiled form of a pattern of plain characters. *)
Definition lits (s : list ascii) : list Regex.item :=
  map (fun c => (Regex.Lit c, Regex.One)) s.

(** *** Search filters, as the handler applies them *)

(** [v >= b] and [v <= b] for a bound [b] that may be infinite. *)
Definition at_least (b : JS.jsnum) (v : Q) : Prop :=
  match b with
  | JS.Fin q => (q <= v)%Q
  | JS.NInf => True
  | JS.PInf | JS.NaN => False
  end.

Definition at_most (b : JS.jsnum) (v : Q) : Prop :=
  match b with
  | JS.Fin q => (v <= q)%Q
  | JS.PInf => True
  | JS.NInf | JS.NaN => False
  end.

Section Filters.

Variable regex : Regex.engine.
Variable RegExp : Regex.engine.

(** A text filter that is set: the store takes the parameter as a
    pattern, and the pattern matches the field. *)
Definition text_hit (p field : option string) : Prop :=
  forall s, JS.truthy p = Some s ->
    exists m v, regex s = Some m /\ field = Some v /\ m v = true.

(** A bound that is set: the price is on the right side of the number
    that [parseInt] reads, which is not [NaN]. *)
Definition min_hit (p : option string) (price : option Q) : Prop :=
  forall s, JS.truthy p = Some s ->
    exists v, price = Some v /\ at_least (JS.parseInt s) v.

Definition max_hit (p : option string) (price : option Q) : Prop :=
  forall s, JS.truthy p = Some s ->
    exists v, price = Some v /\ at_most (JS.parseInt s) v.

Definition exact_hit (p field : option string) : Prop :=
  forall s, JS.truthy p = Some s -> field = Some s.

Definition prefs_hit (p : option qval) (tags : list string) : Prop :=
  forall ps, prefsArray p = Some ps ->
    exists s m t,
      In s ps /\ RegExp s = Some m /\ In t tags /\ m t = true.

Definition satisfies (r : request) (d : Requirement.doc) : Prop :=
  text_hit (r_state r) (Requirement.state d)
  /\ text_hit (r_city r) (Requirement.city d)
  /\ text_hit (r_location r) (Requirement.location d)
  /\ min_hit (r_minPrice r) (Requirement.price d)
  /\ max_hit (r_maxPrice r) (Requirement.price d)
  /\ exact_hit (r_furnishing r) (Requirement.furnishing d)
  /\ exact_hit (r_gender r) (Requirement.gender d)
  /\ prefs_hit (r_preferences r) (Requirement.prefs d).

End Filters.

(** [data] is a run of consecutive elements of [all]. *)
Definition segment {A : Type} (data all : list A) : Prop :=
  exists before after, all = before ++ data ++ after.

(** *** Search filters, in the words of the specification *)

Definition substring_hit (p field : option string) : Prop :=
  forall s, JS.truthy p = Some s ->
    exists v, field = Some v /\ Regex.ci_substring s v.

Definition prefs_substring_hit (p : option qval) (tags : list string)
  : Prop :=
  forall ps, prefsArray p = Some ps ->
    exists s t, In s ps /\ In t tags /\ Regex.ci_substring s t.

Definition spec_filters (r : request) (d : Requirement.doc) : Prop :=
  substring_hit (r_state r) (Requirement.state d)
  /\ substring_hit (r_city r) (Requirement.city d)
  /\ substring_hit (r_location r) (Requirement.location d)
  /\ min_hit (r_minPrice r) (Requirement.price d)
  /\ max_hit (r_maxPrice r) (Requirement.price d)
  /\ exact_hit (r_furnishing r) (Requirement.furnishing d)
  /\ exact_hit (r_gender r) (Requirement.gender d)
  /\ prefs_substring_hit (r_preferences r) (Requirement.prefs d).

(** *** The pagination envelope, in the words of the specification *)

Definition spec_envelope (data : list Requirement.doc) (p : pagination)
  : Prop :=
  totalPages p
  = JS.Math_ceil (JS.div (JS.of_nat (totalCount p)) (limit p))
  /\ hasNextPage p = JS.lt (currentPage p) (totalPages p)
  /\ hasPrevPage p = JS.gt (currentPage p) (JS.of_Z 1)
  /\ exists n, limit p = JS.of_Z n /\ Z.of_nat (List.length data) <= n.

(** *** Requests *)

Definition no_filter : request :=
  {| r_state := None; r_city := None; r_location := None;
     r_minPrice := None; r_maxPrice := None;
     r_furnishing := None; r_gender := None; r_preferences := None;
     r_sortBy := None; r_page := None; r_limit := None |}.

Definition with_state (s : string) (r : request) : request :=
  {| r_state := Some s; r_city := r_city r; r_location := r_location r;
     r_minPrice := r_minPrice r; r_maxPrice := r_maxPrice r;
     r_furnishing := r_furnishing r; r_gender := r_gender r;
     r_preferences := r_preferences r;
     r_sortBy := r_sortBy r; r_page := r_page r; r_limit := r_limit r |}.

Definition with_minPrice (s : option string) (r : request) : request :=
  {| r_state := r_state r; r_city := r_city r; r_location := r_location r;
     r_minPrice := s; r_maxPrice := r_maxPrice r;
     r_furnishing := r_furnishing r; r_gender := r_gender r;
     r_preferences := r_preferences r;
     r_sortBy := r_sortBy r; r_page := r_page r; r_limit := r_limit r |}.

Definition with_maxPrice (s : option string) (r : request) : request :=
  {| r_state := r_state r; r_city := r_city r; r_location := r_location r;
     r_minPrice := r_minPrice r; r_maxPrice := s;
     r_furnishing := r_furnishing r; r_gender := r_gender r;
     r_preferences := r_preferences r;
     r_sortBy := r_sortBy r; r_page := r_page r; r_limit := r_limit r |}.

Definition with_limit (s : string) (r : request) : request :=
  {| r_state := r_state r; r_city := r_city r; r_location := r_location r;
     r_minPrice := r_minPrice r; r_maxPrice := r_maxPrice r;
     r_furnishing := r_furnishing r; r_gender := r_gender r;
     r_preferences := r_preferences r;
     r_sortBy := r_sortBy r; r_page := r_page r; r_limit := Some s |}.

(** *** A listing to try the handlers on *)

Definition bengaluru : Requirement.doc :=
  {| Requirement._id := 1%nat;
     Requirement.userId := 7%nat;
     Requirement.userEmail := Some "asha@example.com"%string;
     Requirement.images :=
       ["https://res.cloudinary.com/demo/image/upload/v1/flatmate-finder-uploads/room1.jpg"%string];
     Requirement.price := Some (inject_Z 15000);
     Requirement.furnishing := Some "Furnished"%string;
     Requirement.state := Some "Karnataka"%string;
     Requirement.city := Some "Bengaluru"%string;
     Requirement.location := Some "Indiranagar"%string;
     Requirement.prefs := ["Non-smoker"%string; "Vegetarian"%string];
     Requirement.gender := Some "Female"%string;
     Requirement.notes := None;
     Requirement.createdAt := 1700000000000 |}.

Definition chennai : Requirement.doc :=
  {| Requirement._id := 2%nat;
     Requirement.userId := 8%nat;
     Requirement.userEmail := Some "ravi@example.com"%string;
     Requirement.images := [];
     Requirement.price := Some (inject_Z 9000);
     Requirement.furnishing := Some "Semi-furnished"%string;
     Requirement.state := Some "Tamil Nadu"%string;
     Requirement.city := Some "Chennai"%string;
     Requirement.location := Some "Adyar"%string;
     Requirement.prefs := ["Pets"%string];
     Requirement.gender := Some "Male"%string;
     Requirement.notes := None;
     Requirement.createdAt := 1700000100000 |}.

Definition pune : Requirement.doc :=
  {| Requirement._id := 3%nat;
     Requirement.userId := 7%nat;
     Requirement.userEmail := Some "asha@example.com"%string;
     Requirement.images := [];
     Requirement.price := Some (inject_Z 12000);
     Requirement.furnishing := None;
     Requirement.state := Some "Maharashtra"%string;
     Requirement.city := Some "Pune"%string;
     Requirement.location := None;
     Requirement.prefs := [];
     Requirement.gender := None;
     Requirement.notes := None;
     Requirement.createdAt := 1700000200000 |}.

Definition three_listings : list Requirement.doc :=
  [bengaluru; chennai; pune].

(** [minPrice=10000&maxPrice=20000&state=karn] *)
Definition scenario : request :=
  with_state "karn"
    (with_minPrice (Some "10000"%string)
       (with_maxPrice (Some "20000"%string) no_filter)).

(** [page=2&limit=2] *)
Definition second_page : request :=
  {| r_state := None; r_city := None; r_location := None;
     r_minPrice := None; r_maxPrice := None;
     r_furnishing := None; r_gender := None; r_preferences := None;
     r_sortBy := None; r_page := Some "2"%string;
     r_limit := Some "2"%string |}.

(** *** Deleting a listing, in the words of the specification *)

Definition spec_delete_survives (fails : string -> bool) (s : db)
  (postId uid : oid) : Prop :=
  forall post,
    List.find (Posts.owned postId uid) (requirements s) = Some post ->
    Requirement.images post <> [] ->
    let out := Posts.delete_post fails s postId uid in
    Posts.success (Posts.resp out) = true
    /\ requirements (Posts.store out)
       = Posts.deleteOne (Posts.owned postId uid) (requirements s).

(** *** Sending a message, in the words of the specification *)

Definition participant (s : db) (conversationId u : oid) : Prop :=
  exists c, In c (conversations s)
            /\ Conversation._id c = conversationId
            /\ In u (Conversation.participants c).

(** [m'] is the message [m], read. *)
Definition marked (m m' : Message.doc) : Prop :=
  Message._id m' = Message._id m
  /\ Message.conversationId m' = Message.conversationId m
  /\ Message.senderId m' = Message.senderId m
  /\ Message.receiverId m' = Message.receiverId m
  /\ Message.message m' = Message.message m
  /\ Message.createdAt m' = Message.createdAt m
  /\ Message.read m' = true.

(** A message of the conversation that is addressed to [u] and not yet
    read. *)
Definition unread (conversationId u : oid) (m : Message.doc) : Prop :=
  Message.conversationId m = conversationId
  /\ Message.receiverId m = u
  /\ Message.read m = false.

Definition spec_send_always_stores (now : Z) (s : db)
  (senderId conversationId receiverId : oid) (text : string) : Prop :=
  participant s conversationId senderId ->
  exists m s',
    Chat.send_message now s senderId conversationId receiverId text
    = (Chat.Send200 m, s')
    /\ Message.receiverId m = receiverId.

(** The conversation that the handler makes for two users. *)
Definition fresh (now : Z) (s : db) (a b : oid) : Conversation.doc :=
  {| Conversation._id := next_id s;
     Conversation.participants := [a; b];
     Conversation.lastMessage := EmptyString;
     Conversation.lastMessageTime := now;
     Conversation.createdAt := now |}.

(** *** Invariants of the collections *)

(** At most one saved post for a user and a listing. *)
Definition saved_once (s : db) : Prop :=
  forall u p, (List.length (Saved.rows s u p) <= 1)%nat.

(** At most one conversation for two users. *)
Definition one_conversation (s : db) : Prop :=
  forall a b, a <> b -> (List.length (Chat.of_pair s a b) <= 1)%nat.

(** *** Databases to try the handlers on *)

Definition listings_only : db :=
  {| requirements := three_listings; savedPosts := [];
     conversations := []; messages := []; next_id := 100%nat |}.

Definition asha_and_ravi : Conversation.doc :=
  {| Conversation._id := 50%nat;
     Conversation.participants := [7%nat; 8%nat];
     Conversation.lastMessage := EmptyString;
     Conversation.lastMessageTime := 1700000300000;
     Conversation.createdAt := 1700000300000 |}.

Definition with_chat : db :=
  {| requirements := three_listings; savedPosts := [];
     conversations := [asha_and_ravi]; messages := [];
     next_id := 100%nat |}.

Definition hello : Message.doc :=
  {| Message._id := 60%nat;
     Message.conversationId := 50%nat;
     Message.senderId := 7%nat;
     Message.receiverId := 8%nat;
     Message.message := "hello"%string;
     Message.read := false;
     Message.createdAt := 1700000350000 |}.

Definition with_message : db :=
  {| requirements := three_listings; savedPosts := [];
     conversations := [asha_and_ravi]; messages := [hello];
     next_id := 100%nat |}.

Definition always_fails (publicId : string) : bool := true.
Definition never_fails (publicId : string) : bool := false.

End Statements.

(** * The other handlers of the server *)

(** ** More of JavaScript *)

Module JSMore.

(** [s.trim()]: white space and line terminators go from both ends. *)
Definition trim_chars (s : list ascii) : list ascii :=
  rev (JS.skip_spaces_back (rev (JS.skip_spaces s))).

Definition trim (s : string) : string :=
  string_of_list_ascii (trim_chars (JS.chars s)).

Definition digit (d : nat) : ascii := ascii_of_nat (48 + d).

(** The decimal digits of [n], the first digit first. *)
Fixpoint digits (fuel n : nat) : list ascii :=
  match fuel with
  | O => []
  | S fuel' =>
      if Nat.ltb n 10 then [digit n]
      else digits fuel' (n / 10) ++ [digit (n mod 10)]
  end.

(** [n.toString()] for an integer that is not negative. *)
Definition toString (n : nat) : string :=
  string_of_list_ascii (digits (S n) n).

(** [z.toString()] for an integer. *)
Definition int_toString (z : Z) : string :=
  if z <? 0 then String "-" (toString (Z.to_nat (- z)))
  else toString (Z.to_nat z).

End JSMore.

(** ** Collections: first match deleted, first match updated *)

Section Collections.
Context {A : Type}.

(** [findOneAndDelete(filter)] *)
Fixpoint delete_first (f : A -> bool) (l : list A) : list A :=
  match l with
  | [] => []
  | x :: l' => if f x then l' else x :: delete_first f l'
  end.

(** [findOneAndUpdate(filter, update)] *)
Fixpoint update_first (f : A -> bool) (g : A -> A) (l : list A) : list A :=
  match l with
  | [] => []
  | x :: l' => if f x then g x :: l' else x :: update_first f g l'
  end.

End Collections.

(** [userSchema] *)
Module User.
Record doc : Type := mk {
  _id : oid;
  fullname : string;
  email : string;
  phone : string;
  age : Q;
  gender : string;
  occupation : string;
  password : string;
  confirm : option string;
  terms : bool;
  emailVerified : bool;
  createdAt : Z
}.
End User.

(** [otpSchema] *)
Module OTP.
Record doc : Type := mk {
  email : string;
  otp : string;
  createdAt : Z
}.
End OTP.

(** ** GET /api/my-posts and GET /api/requirements *)

Module Listings.

(** [Requirement.find({ userId }).sort({ createdAt: -1 })] *)
Definition my_posts (s : db) (uid : oid) : list Requirement.doc :=
  sort_by (Search.doc_le Search.CreatedDesc)
    (filter (fun d => Nat.eqb (Requirement.userId d) uid) (requirements s)).

(** [Requirement.find().sort({ createdAt: -1 })] *)
Definition all_requirements (s : db) : list Requirement.doc :=
  sort_by (Search.doc_le Search.CreatedDesc) (requirements s).

End Listings.

(** ** DELETE /api/save-post/:postId, GET /api/saved-posts and
    GET /api/check-saved/:postId *)

Module SavedMore.

(** The handler never looks at what [findOneAndDelete] found. *)
Definition unsave_post (s : db) (uid postId : oid) : Posts.response * db :=
  ({| Posts.status := 200; Posts.success := true;
      Posts.message := "Post unsaved successfully" |},
   Saved.set_savedPosts s
     (delete_first (Saved.same_pair uid postId) (savedPosts s))).

(** [isSaved: !!saved] *)
Definition check_saved (s : db) (uid postId : oid) : bool :=
  match find (Saved.same_pair uid postId) (savedPosts s) with
  | Some _ => true
  | None => false
  end.

Definition saved_later (a b : SavedPost.doc) : bool :=
  SavedPost.savedAt b <=? SavedPost.savedAt a.

(** [populate('postId')]: the listing of the row, when it still exists. *)
Definition populate_post (s : db) (sp : SavedPost.doc)
  : option Requirement.doc :=
  Saved.findById (SavedPost.postId sp) (requirements s).

(** [savedPosts.filter(sp => sp.postId).map(sp => sp.postId)] on the rows
    of the user, the last saved first. *)
Definition saved_posts (s : db) (uid : oid) : list Requirement.doc :=
  flat_map
    (fun sp => match populate_post s sp with
               | Some d => [d]
               | None => []
               end)
    (sort_by saved_later
       (filter (fun sp => Nat.eqb (SavedPost.userId sp) uid) (savedPosts s))).

End SavedMore.

(** ** GET /api/conversations *)

Module ChatMore.

(** A participant after [populate('participants', 'fullname email')]. *)
Record profile : Type := mkProfile {
  p_id : oid;
  p_fullname : string;
  p_email : string
}.

Record entry : Type := mkEntry {
  e_id : oid;
  otherUser : option profile;
  e_lastMessage : string;
  e_lastMessageTime : Z;
  e_createdAt : Z
}.

Definition findUser (users : list User.doc) (id : oid) : option User.doc :=
  find (fun u => Nat.eqb (User._id u) id) users.

(** The participants whose user exists, in the order of the array. *)
Definition populate (users : list User.doc) (ids : list oid)
  : list profile :=
  flat_map
    (fun id => match findUser users id with
               | Some u => [{| p_id := User._id u;
                               p_fullname := User.fullname u;
                               p_email := User.email u |}]
               | None => []
               end)
    ids.

Definition recent_first (a b : Conversation.doc) : bool :=
  Conversation.lastMessageTime b <=? Conversation.lastMessageTime a.

(** [conv.participants.find(p => p._id.toString() !== userId.toString())] *)
Definition other (users : list User.doc) (uid : oid) (c : Conversation.doc)
  : option profile :=
  find (fun p => negb (Nat.eqb (p_id p) uid))
    (populate users (Conversation.participants c)).

Definition list_conversations (users : list User.doc) (s : db) (uid : oid)
  : list entry :=
  map (fun conv =>
         {| e_id := Conversation._id conv;
            otherUser := other users uid conv;
            e_lastMessage := Conversation.lastMessage conv;
            e_lastMessageTime := Conversation.lastMessageTime conv;
            e_createdAt := Conversation.createdAt conv |})
    (sort_by recent_first (filter (Chat.has uid) (conversations s))).

End ChatMore.

(** ** Accounts: login, profile and the e-mail code *)

Module Accounts.

Record session : Type := mkSession {
  s_userId : oid;
  s_userEmail : string;
  s_userName : string
}.

Definition findById (users : list User.doc) (id : oid) : option User.doc :=
  find (fun u => Nat.eqb (User._id u) id) users.

(** [s.toLowerCase()], on a text in ASCII. *)
Definition toLowerCase (s : string) : string :=
  string_of_list_ascii (map JS.lower (JS.chars s)).

(** The setters of the [email] path, [lowercase] and [trim], which also
    run on the value of a query. *)
Definition email_setters (s : string) : string :=
  JSMore.trim (toLowerCase s).

(** *** POST /login *)

Record login_user : Type := mkLoginUser {
  lu_id : oid;
  lu_fullname : string;
  lu_email : string
}.

Record login_response : Type := mkLoginResponse {
  l_success : bool;
  l_message : string;
  l_user : option login_user
}.

Definition login (users : list User.doc) (sess : option session)
  (email password : option string) : login_response * option session :=
  match JS.truthy email, JS.truthy password with
  | Some e, Some p =>
      match find (fun u => String.eqb (User.email u)
                             (email_setters (toLowerCase e))) users with
      | Some user =>
          if String.eqb (User.password user) p then
            ({| l_success := true; l_message := "Login successful!";
                l_user := Some {| lu_id := User._id user;
                                  lu_fullname := User.fullname user;
                                  lu_email := User.email user |} |},
             Some {| s_userId := User._id user;
                     s_userEmail := User.email user;
                     s_userName := User.fullname user |})
          else
            ({| l_success := false; l_message := "Invalid email or password";
                l_user := None |}, sess)
      | None =>
          ({| l_success := false; l_message := "Invalid email or password";
              l_user := None |}, sess)
      end
  | _, _ =>
      ({| l_success := false;
          l_message := "Email and password are required";
          l_user := None |}, sess)
  end.

(** *** PUT /api/profile *)

Record user_view : Type := mkUserView {
  v_fullname : string;
  v_email : string;
  v_phone : string;
  v_age : Q;
  v_gender : string;
  v_occupation : string
}.

Record profile_response : Type := mkProfileResponse {
  p_status : nat;
  p_success : bool;
  p_message : string;
  p_user : option user_view
}.

Definition refused (status : nat) (message : string) : profile_response :=
  {| p_status := status; p_success := false; p_message := message;
     p_user := None |}.

(** [enum: ['Male', 'Female', 'Other']] *)
Definition gender_enum (g : string) : bool :=
  String.eqb g "Male" || String.eqb g "Female" || String.eqb g "Other".

(** The validators of the paths that the update sets, run because of
    [runValidators: true]: a required string is not empty once trimmed,
    the gender is one of the enum.  The bounds of the age have been
    checked by the handler. *)
Definition update_validators (fullname phone gender occupation : string)
  : bool :=
  Chat.required (JSMore.trim fullname)
  && Chat.required (JSMore.trim phone)
  && gender_enum gender
  && Chat.required (JSMore.trim occupation).

Definition set_profile (fullname phone : string) (age : Q)
  (gender occupation : string) (u : User.doc) : User.doc :=
  {| User._id := User._id u;
     User.fullname := JSMore.trim fullname;
     User.email := User.email u;
     User.phone := JSMore.trim phone;
     User.age := age;
     User.gender := gender;
     User.occupation := JSMore.trim occupation;
     User.password := User.password u;
     User.confirm := User.confirm u;
     User.terms := User.terms u;
     User.emailVerified := User.emailVerified u;
     User.createdAt := User.createdAt u |}.

Definition by_id (id : oid) (u : User.doc) : bool :=
  Nat.eqb (User._id u) id.

Definition update_profile (users : list User.doc) (sess : session)
  (fullname phone age gender occupation : option string)
  : profile_response * list User.doc * session :=
  match JS.truthy fullname, JS.truthy phone, JS.truthy age,
        JS.truthy gender, JS.truthy occupation with
  | Some f, Some p, Some a, Some g, Some o =>
      (* [isNaN(ageNum) || ageNum < 18 || ageNum > 100]: [NaN] and the
         infinities are refused with the ages out of the bounds *)
      let ageNum := JS.parseInt a in
      let bad_age := refused 400 "Age must be between 18 and 100" in
      match ageNum with
      | JS.Fin n =>
          if JS.lt ageNum (JS.of_Z 18) || JS.gt ageNum (JS.of_Z 100)
          then (bad_age, users, sess)
          else if update_validators f p g o then
            match findById users (s_userId sess) with
            | None => (refused 404 "User not found", users, sess)
            | Some u =>
                let updatedUser := set_profile f p n g o u in
                ({| p_status := 200; p_success := true;
                    p_message := "Profile updated successfully";
                    p_user :=
                      Some {| v_fullname := User.fullname updatedUser;
                              v_email := User.email updatedUser;
                              v_phone := User.phone updatedUser;
                              v_age := User.age updatedUser;
                              v_gender := User.gender updatedUser;
                              v_occupation := User.occupation updatedUser |}
                 |},
                 update_first (by_id (s_userId sess))
                   (set_profile f p n g o) users,
                 {| s_userId := s_userId sess;
                    s_userEmail := s_userEmail sess;
                    s_userName :=
                      if String.eqb (User.fullname updatedUser)
                           (s_userName sess)
                      then s_userName sess
                      else User.fullname updatedUser |})
            end
          else (refused 500 "Server error updating profile", users, sess)
      | _ => (bad_age, users, sess)
      end
  | _, _, _, _, _ => (refused 400 "All fields are required", users, sess)
  end.

(** *** POST /api/send-otp and POST /api/verify-otp *)

Record state : Type := mkState {
  users : list User.doc;
  otps : list OTP.doc
}.

(** [Math.floor(100000 + Math.random() * 900000).toString()], [random]
    being what [Math.random()] gives, the sum and the product taken
    exactly. *)
Definition generate_otp (random : Q) : string :=
  JSMore.int_toString
    (Qfloor (inject_Z 100000 + random * inject_Z 900000)).

Definition for_email (email : string) (o : OTP.doc) : bool :=
  String.eqb (OTP.email o) email.

Definition for_code (email otp : string) (o : OTP.doc) : bool :=
  String.eqb (OTP.email o) email && String.eqb (OTP.otp o) otp.

Definition answer (status : nat) (success : bool) (message : string)
  : Posts.response :=
  {| Posts.status := status; Posts.success := success;
     Posts.message := message |}.

(** What the handler does with the code it has generated: the old code
    goes and the new one is saved before the mail is sent, so that a mail
    that fails, [mail_ok = false], leaves the new code stored. *)
Definition send_code (now : Z) (otp : string) (mail_ok : bool) (st : state)
  (uid : oid) : Posts.response * state :=
  match findById (users st) uid with
  | None => (answer 404 false "User not found", st)
  | Some user =>
      let failed :=
        answer 500 false
          "Error sending OTP. Please check email configuration." in
      let remaining :=
        delete_first (for_email (User.email user)) (otps st) in
      if Chat.required (User.email user) && Chat.required otp then
        let st' :=
          {| users := users st;
             otps := remaining ++
                     [{| OTP.email := User.email user;
                         OTP.otp := otp;
                         OTP.createdAt := now |}] |} in
        if mail_ok then (answer 200 true "OTP sent to your email", st')
        else (failed, st')
      else (failed, {| users := users st; otps := remaining |})
  end.

Definition send_otp (now : Z) (random : Q) (mail_ok : bool) (st : state)
  (uid : oid) : Posts.response * state :=
  send_code now (generate_otp random) mail_ok st uid.

(** [createdAt: { expires: 600 }]: from 600 seconds after it was made, a
    code may be deleted by the store, at a time of the store's choosing.
    [gone] says which of the codes that are due have been deleted by
    [now]. *)
Definition due (now : Z) (o : OTP.doc) : bool :=
  OTP.createdAt o + 600000 <=? now.

Definition expire (now : Z) (gone : OTP.doc -> bool) (st : state) : state :=
  {| users := users st;
     otps := filter (fun o => negb (due now o && gone o)) (otps st) |}.

Definition verified (u : User.doc) : User.doc :=
  {| User._id := User._id u;
     User.fullname := User.fullname u;
     User.email := User.email u;
     User.phone := User.phone u;
     User.age := User.age u;
     User.gender := User.gender u;
     User.occupation := User.occupation u;
     User.password := User.password u;
     User.confirm := User.confirm u;
     User.terms := User.terms u;
     User.emailVerified := true;
     User.createdAt := User.createdAt u |}.

(** [otp] is the field of the body; [otp.trim()] throws when it is
    missing. *)
Definition verify_otp (st : state) (uid : oid) (otp : option string)
  : Posts.response * state :=
  match findById (users st) uid with
  | None => (answer 404 false "User not found", st)
  | Some user =>
      match otp with
      | None => (answer 500 false "Error verifying OTP", st)
      | Some code =>
          match find (for_code (User.email user) (JSMore.trim code))
                  (otps st) with
          | None => (answer 200 false "Invalid or expired OTP", st)
          | Some _ =>
              (answer 200 true "Email verified successfully",
               {| users := update_first (by_id (User._id user)) verified
                             (users st);
                  otps := delete_first (for_email (User.email user))
                            (otps st) |})
          end
      end
  end.

End Accounts.

(** ** What the further properties are stated with *)

Module MoreStatements.

(** The request for another page of the same search. *)
Definition with_page (p : string) (r : Search.request) : Search.request :=
  {| Search.r_state := Search.r_state r;
     Search.r_city := Search.r_city r;
     Search.r_location := Search.r_location r;
     Search.r_minPrice := Search.r_minPrice r;
     Search.r_maxPrice := Search.r_maxPrice r;
     Search.r_furnishing := Search.r_furnishing r;
     Search.r_gender := Search.r_gender r;
     Search.r_preferences := Search.r_preferences r;
     Search.r_sortBy := Search.r_sortBy r;
     Search.r_page := Some p;
     Search.r_limit := Search.r_limit r |}.

(** The matches of a query in the order of the answer. *)
Definition sorted_matches (coll : list Requirement.doc) (r : Search.request)
  (cq : Search.cquery) : list Requirement.doc :=
  sort_by (Search.doc_le (Search.build_sort r))
    (filter (Search.matches cq) coll).

(** The listings of pages 1 to [k], one page after the other. *)
Definition pages (regex RegExp : Regex.engine)
  (coll : list Requirement.doc) (r : Search.request)
  (k : nat) : list Requirement.doc :=
  List.concat
    (map (fun p =>
            Search.returned
              (Search.search_flatmates regex RegExp coll
                 (with_page (JSMore.toString p) r)))
       (seq 1 k)).

(** No two listings have the same id. *)
Definition unique_ids (s : db) : Prop :=
  NoDup (map Requirement._id (requirements s)).


(** A message and what a later state of the collection has in its
    place: the same message, read or as it was. *)
Definition same_but_read (m m' : Message.doc) : Prop :=
  m' = m \/ m' = Chat.mark_read m.

(** The collection has grown at its end and lost nothing. *)
Definition keeps_messages (before after : list Message.doc) : Prop :=
  exists kept added,
    after = kept ++ added /\ Forall2 same_but_read before kept.

(** At most one code for an e-mail address. *)
Definition otp_once (st : Accounts.state) : Prop :=
  forall e,
    (List.length (filter (Accounts.for_email e) (Accounts.otps st)) <= 1)%nat.

(** The code that [send_code] stores for a user at [now]. *)
Definition code_row (user : User.doc) (code : string) (now : Z) : OTP.doc :=
  {| OTP.email := User.email user; OTP.otp := code; OTP.createdAt := now |}.


(** The preview of a message in its conversation. *)
Definition preview (text : string) (now : Z) (c : Conversation.doc)
  : Conversation.doc :=
  {| Conversation._id := Conversation._id c;
     Conversation.participants := Conversation.participants c;
     Conversation.lastMessage := substring 0 100 text;
     Conversation.lastMessageTime := now;
     Conversation.createdAt := Conversation.createdAt c |}.

Definition profile_of (u : User.doc) : ChatMore.profile :=
  {| ChatMore.p_id := User._id u;
     ChatMore.p_fullname := User.fullname u;
     ChatMore.p_email := User.email u |}.


(** *** Users to try the handlers on *)

Definition asha : User.doc :=
  {| User._id := 7%nat; User.fullname := "Asha Rao"%string;
     User.email := "asha@example.com"%string;
     User.phone := "9800000001"%string; User.age := inject_Z 27;
     User.gender := "Female"%string;
     User.occupation := "Engineer"%string;
     User.password := "s3cret"%string; User.confirm := None;
     User.terms := true; User.emailVerified := false;
     User.createdAt := 1690000000000 |}.

Definition ravi : User.doc :=
  {| User._id := 8%nat; User.fullname := "Ravi Kumar"%string;
     User.email := "ravi@example.com"%string;
     User.phone := "9800000002"%string; User.age := inject_Z 31;
     User.gender := "Male"%string;
     User.occupation := "Designer"%string;
     User.password := "pa55word"%string; User.confirm := None;
     User.terms := true; User.emailVerified := false;
     User.createdAt := 1690000100000 |}.

Definition two_users : Accounts.state :=
  {| Accounts.users := [asha; ravi]; Accounts.otps := [] |}.

Definition asha_session : Accounts.session :=
  {| Accounts.s_userId := 7%nat;
     Accounts.s_userEmail := "asha@example.com"%string;
     Accounts.s_userName := "Asha Rao"%string |}.

End MoreStatements.

(** * The definitions on small inputs *)

Module Examples.

Import Statements.

Example parseInt_digits : JS.parseInt "15000" = JS.of_Z 15000.
Proof. vm_compute. reflexivity. Qed.

Example parseInt_prefix : JS.parseInt " -12abc" = JS.of_Z (-12).
Proof. vm_compute. reflexivity. Qed.

Example parseInt_fraction : JS.parseInt "10.9" = JS.of_Z 10.
Proof. vm_compute. reflexivity. Qed.

Example parseInt_hex : JS.parseInt "0x1F" = JS.of_Z 31.
Proof. vm_compute. reflexivity. Qed.

(** A no-break space, U+00A0, before the digits. *)
Example parseInt_no_break_space :
  JS.parseInt (String (ascii_of_nat 194) (String (ascii_of_nat 160) "5000"))
  = JS.of_Z 5000.
Proof. vm_compute. reflexivity. Qed.

(** [trim] takes a no-break space from the start and an ideographic
    space, U+3000, from the end. *)
Example trim_wide_spaces :
  JSMore.trim
    (String (ascii_of_nat 194) (String (ascii_of_nat 160)
       (String "a" (String (ascii_of_nat 227) (String (ascii_of_nat 128)
          (String (ascii_of_nat 128) EmptyString))))))
  = "a"%string.
Proof. vm_compute. reflexivity. Qed.

Example trim_ascii : JSMore.trim "  Asha R  " = "Asha R"%string.
Proof. vm_compute. reflexivity. Qed.

(** [2 ^ 53 + 1] is not a number: the nearest one is [2 ^ 53]. *)
Example parseInt_rounds :
  JS.parseInt "9007199254740993" = JS.of_Z 9007199254740992.
Proof. vm_compute. reflexivity. Qed.

Example parseInt_overflows :
  JS.parseInt
    "2000000000000000000000000000000000000000000000000000000000000000000000000000000000000000000000000000000000000000000000000000000000000000000000000000000000000000000000000000000000000000000000000000000000000000000000000000000000000000000000000000000000000000000000000000000000000000000000000000000000000000000000000000"
  = JS.PInf.
Proof. vm_compute. reflexivity. Qed.

Example third : JS.div (JS.of_Z 1) (JS.of_Z 3)
                = JS.Fin (6004799503160661 # 18014398509481984).
Proof. vm_compute. reflexivity. Qed.

Example parseInt_letters : JS.parseInt "abc" = JS.NaN.
Proof. reflexivity. Qed.

Example parseInt_empty : JS.parseInt EmptyString = JS.NaN.
Proof. reflexivity. Qed.

Example ceil_seven_sixths :
  JS.Math_ceil (JS.div (JS.of_nat 7) (JS.of_Z 6)) = JS.of_Z 2.
Proof. vm_compute. reflexivity. Qed.

Example ceil_over_zero :
  JS.Math_ceil (JS.div (JS.of_nat 7) (JS.of_Z 0)) = JS.PInf.
Proof. vm_compute. reflexivity. Qed.

Example regex_plain :
  option_map (fun re => Regex.test re "Karnataka") (Regex.compile "karn")
  = Some true.
Proof. reflexivity. Qed.

Example regex_dot :
  option_map (fun re => Regex.test re "Karnataka") (Regex.compile "k.rn")
  = Some true.
Proof. reflexivity. Qed.

Example regex_escaped_dot :
  option_map (fun re => Regex.test re "Karnataka") (Regex.compile "k\.rn")
  = Some false.
Proof. reflexivity. Qed.

Example regex_star :
  option_map (fun re => Regex.test re "Goa") (Regex.compile "go*a")
  = Some true.
Proof. reflexivity. Qed.

Example regex_group_outside : Regex.compile "(goa" = None.
Proof. reflexivity. Qed.

Example publicId_of_url :
  Posts.publicId
    "https://res.cloudinary.com/demo/image/upload/v1/flatmate-finder-uploads/room1.jpg"
  = Some "flatmate-finder-uploads/room1"%string.
Proof. reflexivity. Qed.

Example publicId_of_local_file : Posts.publicId "/uploads/room1.jpg" = None.
Proof. reflexivity. Qed.

Example newest_first :
  map Requirement._id
    (Search.returned
       (Search.search_flatmates Regex.fragment Regex.fragment
          three_listings no_filter))
  = [3; 2; 1]%nat.
Proof. vm_compute. reflexivity. Qed.

Example cheapest_first_page_two :
  map Requirement._id
    (Search.returned
       (Search.search_flatmates Regex.fragment Regex.fragment
          three_listings
          {| Search.r_state := None; Search.r_city := None;
             Search.r_location := None; Search.r_minPrice := None;
             Search.r_maxPrice := None; Search.r_furnishing := None;
             Search.r_gender := None; Search.r_preferences := None;
             Search.r_sortBy := Some "price-low"%string;
             Search.r_page := Some "2"%string;
             Search.r_limit := Some "2"%string |}))
  = [1]%nat.
Proof. vm_compute. reflexivity. Qed.

(** An id and its string; the upper-case spelling is cast to the same
    id. *)
Example toString_171 :
  ObjectId.toString 171%nat = "0000000000000000000000ab"%string.
Proof. vm_compute. reflexivity. Qed.

Example cast_upper_case :
  ObjectId.cast "0000000000000000000000AB" = Some 171%nat.
Proof. vm_compute. reflexivity. Qed.

Example cast_short : ObjectId.cast "ab" = None.
Proof. vm_compute. reflexivity. Qed.

End Examples.

(** * Properties *)

(** ** Lists: sorting and windows *)

Section SortFacts.
Context {A : Type} (le : A -> A -> bool).

Lemma insert_sorted_perm (x : A) (l : list A) :
  Permutation (insert_sorted le x l) (x :: l).
Proof.
  induction l as [|y l IH]; simpl.
  - apply Permutation_refl.
  - destruct (le x y).
    + apply Permutation_refl.
    + eapply Permutation_trans.
      * apply perm_skip, IH.
      * apply perm_swap.
Qed.

Lemma sort_by_perm (l : list A) : Permutation (sort_by le l) l.
Proof.
  induction l as [|x l IH]; simpl.
  - apply perm_nil.
  - eapply Permutation_trans.
    + apply insert_sorted_perm.
    + apply perm_skip, IH.
Qed.

Lemma sort_by_In (x : A) (l : list A) : In x (sort_by le l) -> In x l.
Proof. apply Permutation_in, sort_by_perm. Qed.

Lemma sort_by_length (l : list A) :
  List.length (sort_by le l) = List.length l.
Proof. apply Permutation_length, sort_by_perm. Qed.

Hypothesis le_total : forall a b, le a b = true \/ le b a = true.

Lemma insert_sorted_sorted (x : A) (l : list A) :
  Sorted (fun a b => le a b = true) l ->
  Sorted (fun a b => le a b = true) (insert_sorted le x l).
Proof.
  induction 1 as [|y l Hs IH Hh]; simpl.
  - repeat constructor.
  - destruct (le x y) eqn:E.
    + constructor; [constructor; assumption | constructor; exact E].
    + constructor; [exact IH|].
      destruct (le_total x y) as [F|F]; [congruence|].
      destruct Hh as [|z l' Hz]; simpl.
      * constructor; exact F.
      * destruct (le x z); constructor; assumption.
Qed.

Lemma sort_by_sorted (l : list A) :
  Sorted (fun a b => le a b = true) (sort_by le l).
Proof.
  induction l as [|x l IH]; simpl.
  - constructor.
  - apply insert_sorted_sorted, IH.
Qed.

End SortFacts.

Lemma In_firstn {A : Type} (n : nat) (l : list A) (x : A) :
  In x (firstn n l) -> In x l.
Proof.
  revert l; induction n as [|n IH]; intros [|y l]; simpl; try tauto.
  intros [E|H]; [left; exact E | right; apply IH, H].
Qed.

Lemma In_skipn {A : Type} (n : nat) (l : list A) (x : A) :
  In x (skipn n l) -> In x l.
Proof.
  revert l; induction n as [|n IH]; intros [|y l]; simpl; try tauto.
  intro H; right; apply IH, H.
Qed.

(** ** Numbers *)

Module JSFacts.

Import JS.

Lemma Qred_inject_Z (z : Z) : Qred (inject_Z z) = inject_Z z.
Proof.
  apply Qcanon.Qred_identity. simpl. apply Z.gcd_1_r.
Qed.

Lemma as_int_Qeq (q : Q) (z : Z) : q == inject_Z z -> as_int (Fin q) = Some z.
Proof.
  intro H. unfold as_int.
  rewrite (Qred_complete _ _ H), Qred_inject_Z. reflexivity.
Qed.

Lemma as_int_of_Z (z : Z) : as_int (of_Z z) = Some z.
Proof. apply as_int_Qeq. reflexivity. Qed.

(** *** Rounding *)

Lemma scaled_spec (a b e : Z) :
  0 < b ->
  exists s t, 0 < s /\ 0 < t /\ scaled a b e = (a * s, b * t)
              /\ (e <= 0 -> s = 2 ^ (- e) /\ t = 1)
              /\ (0 <= e -> s = 1 /\ t = 2 ^ e).
Proof.
  intro Hb. unfold scaled. destruct (0 <=? e) eqn:E.
  - apply Z.leb_le in E. exists 1, (2 ^ e).
    assert (0 < 2 ^ e) by (apply Z.pow_pos_nonneg; lia).
    split; [lia|]. split; [assumption|]. split; [f_equal; lia|].
    split; [|intros _; split; reflexivity].
    intro. assert (e = 0) by lia. subst e. split; reflexivity.
  - apply Z.leb_gt in E. exists (2 ^ (- e)), 1.
    assert (0 < 2 ^ (- e)) by (apply Z.pow_pos_nonneg; lia).
    split; [assumption|]. split; [lia|]. split; [f_equal; lia|].
    split; [intros _; split; reflexivity | lia].
Qed.

Lemma last_place_cases (a b : Z) :
  let e := Z.log2 a - Z.log2 b - 53 in
  last_place a b = Z.max e (-1074) \/ last_place a b = Z.max (e + 1) (-1074).
Proof.
  unfold last_place. cbv zeta.
  destruct (_ <? _); [left | right]; reflexivity.
Qed.

(** The integer nearest to [a * s / b] lies between the integers that
    [a / b] lies between, scaled by [s], and is above the lower one when
    [b] is less than [2 * s]. *)
Lemma nearest_between (a b e s k : Z) :
  0 < b -> e <= 0 -> s = 2 ^ (- e) ->
  (k - 1) * b < a <= k * b -> b < 2 * s ->
  (k - 1) * s < nearest a b e <= k * s.
Proof.
  intros Hb He Hs Hk Hbs. unfold nearest.
  destruct (scaled_spec a b e Hb) as (s' & t & Hs' & Ht & -> & Hneg & _).
  destruct (Hneg He) as [-> ->]. rewrite <- Hs. cbn [fst snd].
  rewrite Z.mul_1_r.
  assert (0 < s) by (subst s; apply Z.pow_pos_nonneg; lia).
  pose proof (Z.div_mod (a * s) b ltac:(lia)) as Hdm.
  pose proof (Z.mod_pos_bound (a * s) b Hb) as Hr.
  set (m := a * s / b) in *. set (r := (a * s) mod b) in *.
  assert (Hlo : (k - 1) * s <= m) by nia.
  assert (Hhi : m <= k * s) by nia.
  destruct ((b <? 2 * r) || (b =? 2 * r) && Z.odd m) eqn:E.
  - assert (0 < r).
    { apply orb_true_iff in E as [E | E].
      - apply Z.ltb_lt in E. lia.
      - apply andb_true_iff in E as [E _]. apply Z.eqb_eq in E. lia. }
    nia.
  - apply orb_false_iff in E as [E _]. apply Z.ltb_ge in E.
    split; [|lia].
    destruct (Z.eq_dec m ((k - 1) * s)) as [Hm | Hm]; [|lia].
    exfalso. nia.
Qed.

Lemma Qceiling_dyadic (m e k : Z) :
  e <= 0 -> (k - 1) * 2 ^ (- e) < m <= k * 2 ^ (- e) ->
  Qceiling (dyadic m e) = k.
Proof.
  intros He Hm.
  assert (Hs : 0 < 2 ^ (- e)) by (apply Z.pow_pos_nonneg; lia).
  assert (Hq : (dyadic m e == m # Z.to_pos (2 ^ (- e)))%Q).
  { unfold dyadic. destruct (0 <=? e) eqn:E.
    - apply Z.leb_le in E. assert (e = 0) by lia. subst e.
      unfold Qeq. cbn. lia.
    - apply Qred_correct. }
  rewrite Hq. unfold Qceiling, Qfloor, Qopp. cbn [Qnum Qden].
  rewrite Z2Pos.id by lia.
  set (s := 2 ^ (- e)) in *.
  assert (- m / s = - k); [|lia].
  symmetry. apply (Z.div_unique_pos (- m) s (- k) (k * s - m)); lia.
Qed.

Lemma no_overflow (e m : Z) :
  e <= 1 -> (971 <? e) || (e =? 971) && (2 ^ 53 <=? m) = false.
Proof.
  intro He. apply orb_false_iff. split.
  - apply Z.ltb_ge. lia.
  - apply andb_false_iff. left. apply Z.eqb_neq. lia.
Qed.

(** An integer of at most 53 bits is a number: it rounds to itself. *)
Lemma round_int (z : Z) :
  Z.abs z <= 2 ^ 53 -> round (inject_Z z) = of_Z z.
Proof.
  intro Hz. unfold round. cbn [inject_Z Qnum Qden].
  destruct (Z.abs z =? 0) eqn:E0.
  - apply Z.eqb_eq in E0. assert (z = 0) by lia. subst z. reflexivity.
  - apply Z.eqb_neq in E0.
    set (a := Z.abs z) in *.
    assert (Ha : 0 < a) by lia.
    pose proof (Z.log2_nonneg a) as HL0.
    destruct (Z.log2_spec a Ha) as [HL1 HL2].
    assert (HL : Z.log2 a <= 53).
    { pose proof (Z.log2_le_mono _ _ Hz) as H.
      rewrite Z.log2_pow2 in H by lia. exact H. }
    assert (Hsgn : Z.sgn z * a = z) by (unfold a; lia).
    assert (He : last_place a 1 = Z.log2 a - 52).
    { unfold last_place. change (Z.log2 1) with 0. cbv zeta.
      set (e0 := Z.log2 a - 0 - 53).
      destruct (scaled_spec a 1 e0 ltac:(lia))
        as (s & t & Hs & Ht & -> & Hneg & Hpos).
      destruct (Hneg ltac:(lia)) as [-> ->]. cbn [fst snd].
      destruct (a * 2 ^ (- e0) <? 2 ^ 53 * (1 * 1)) eqn:E; [|lia].
      apply Z.ltb_lt in E. exfalso.
      assert (2 ^ 53 = 2 ^ Z.log2 a * 2 ^ (- e0)).
      { rewrite <- Z.pow_add_r by lia. f_equal. lia. }
      assert (0 < 2 ^ (- e0)) by (apply Z.pow_pos_nonneg; lia).
      nia. }
    rewrite He. set (e := Z.log2 a - 52).
    assert (Hm : nearest a 1 e * 2 ^ Z.max e 0 = a * 2 ^ Z.max (- e) 0).
    { unfold nearest.
      destruct (scaled_spec a 1 e ltac:(lia))
        as (s & t & Hs & Ht & -> & Hneg & Hpos).
      cbn [fst snd].
      destruct (Z.le_gt_cases e 0) as [Hle | Hgt].
      - destruct (Hneg Hle) as [-> ->].
        rewrite Z.div_1_r, Z.mod_1_r.
        cbn [Z.mul Z.ltb Z.compare Z.eqb orb andb].
        rewrite (Z.max_r e 0), (Z.max_l (- e) 0) by lia.
        change (2 ^ 0) with 1. ring.
      - assert (e = 1) by lia.
        assert (HL53 : Z.log2 a = 53) by lia.
        assert (Ha53 : a = 2 ^ 53) by (rewrite HL53 in HL1; lia).
        destruct (Hpos ltac:(lia)) as [-> ->].
        rewrite Ha53. replace e with 1 by lia.
        vm_compute. reflexivity. }
    rewrite no_overflow by lia.
    unfold of_Z. f_equal. unfold dyadic.
    destruct (0 <=? e) eqn:E.
    + apply Z.leb_le in E.
      rewrite (Z.max_l e 0), (Z.max_r (- e) 0) in Hm by lia.
      change (2 ^ 0) with 1 in Hm. f_equal.
      rewrite <- Z.mul_assoc, Hm. lia.
    + apply Z.leb_gt in E.
      rewrite (Z.max_r e 0), (Z.max_l (- e) 0) in Hm by lia.
      change (2 ^ 0) with 1 in Hm.
      rewrite <- Qred_inject_Z. apply Qred_complete.
      unfold Qeq, inject_Z. cbn [Qnum Qden].
      assert (0 < 2 ^ (- e)) by (apply Z.pow_pos_nonneg; lia).
      rewrite Z2Pos.id by lia. nia.
Qed.

(** The quotient of two positive integers of at most 53 bits rounds to
    a number between the two integers that the quotient lies between. *)
Lemma round_quotient (a b k : Z) :
  0 < a < 2 ^ 53 -> 0 < b <= 2 ^ 53 -> (k - 1) * b < a <= k * b ->
  exists q, round (a # Z.to_pos b) = Fin q /\ Qceiling q = k.
Proof.
  intros Ha Hb Hk. unfold round. cbn [Qnum Qden].
  rewrite Z2Pos.id by lia. rewrite (Z.abs_eq a) by lia.
  destruct (a =? 0) eqn:E0; [apply Z.eqb_eq in E0; lia|].
  pose proof (Z.log2_nonneg a) as HLa0.
  pose proof (Z.log2_nonneg b) as HLb0.
  destruct (Z.log2_spec a ltac:(lia)) as [HLa1 HLa2].
  destruct (Z.log2_spec b ltac:(lia)) as [HLb1 HLb2].
  assert (HLa : Z.log2 a <= 52).
  { apply Z.lt_succ_r. apply (Z.pow_lt_mono_r_iff 2); [lia | lia |].
    change (Z.succ 52) with 53. lia. }
  assert (HLb : Z.log2 b <= 53).
  { pose proof (Z.log2_le_mono b (2 ^ 53) ltac:(lia)) as H.
    rewrite Z.log2_pow2 in H by lia. exact H. }
  set (e := last_place a b).
  assert (He : e <= - Z.log2 b /\ -1074 < e).
  { unfold e. destruct (last_place_cases a b) as [-> | ->]; lia. }
  destruct He as [He1 He2].
  assert (Hbs : b < 2 * 2 ^ (- e)).
  { apply Z.lt_le_trans with (2 ^ Z.succ (Z.log2 b)); [exact HLb2|].
    rewrite Z.pow_succ_r by lia.
    apply Z.mul_le_mono_nonneg_l; [lia|].
    apply Z.pow_le_mono_r; lia. }
  pose proof (nearest_between a b e (2 ^ (- e)) k ltac:(lia) ltac:(lia)
                eq_refl Hk Hbs) as Hm.
  rewrite no_overflow by lia.
  eexists. split; [reflexivity|].
  apply Qceiling_dyadic; [lia|].
  replace (Z.sgn a) with 1 by lia. rewrite Z.mul_1_l. exact Hm.
Qed.

(** *** The operations on integers of at most 53 bits *)

Lemma sub_of_Z (a b : Z) :
  Z.abs (a - b) <= 2 ^ 53 -> sub (of_Z a) (of_Z b) = of_Z (a - b).
Proof.
  intro H. unfold of_Z at 1 2, sub.
  replace (inject_Z a - inject_Z b)%Q with (inject_Z (a - b)).
  - apply round_int, H.
  - unfold Qminus, Qplus, Qopp, inject_Z. cbn [Qnum Qden Pos.mul].
    f_equal. lia.
Qed.

Lemma mul_of_Z (a b : Z) :
  Z.abs (a * b) <= 2 ^ 53 -> mul (of_Z a) (of_Z b) = of_Z (a * b).
Proof.
  intro H. unfold of_Z at 1 2, mul.
  replace (inject_Z a * inject_Z b)%Q with (inject_Z (a * b)).
  - apply round_int, H.
  - reflexivity.
Qed.

Lemma lt_of_Z (a b : Z) : lt (of_Z a) (of_Z b) = (a <? b).
Proof.
  unfold of_Z, lt, Qle_bool. simpl. rewrite !Z.mul_1_r.
  rewrite Z.ltb_antisym. reflexivity.
Qed.

(** [Math.ceil(t / n)] for a count [t] and a positive integer [n], both
    of at most 53 bits: the least integer [k] with [t <= k * n]. *)
Lemma ceil_div_of_Z (t n : Z) :
  0 <= t < 2 ^ 53 -> 0 < n <= 2 ^ 53 ->
  exists k, Math_ceil (div (of_Z t) (of_Z n)) = of_Z k
            /\ (k - 1) * n < t <= k * n.
Proof.
  intros Ht Hn. unfold of_Z at 1 2, div.
  assert (Hs : sgn (inject_Z n) = Gt).
  { unfold sgn; simpl. apply Z.compare_gt_iff. lia. }
  rewrite Hs.
  destruct n as [|pn|pn]; try lia.
  replace (inject_Z t / inject_Z (Z.pos pn))%Q
    with (t # Z.to_pos (Z.pos pn)).
  2:{ unfold Qdiv, Qmult, Qinv, inject_Z. cbn [Qnum Qden Pos.mul Z.to_pos].
      f_equal. lia. }
  destruct (Z.eq_dec t 0) as [-> | Ht0].
  - exists 0. split; [reflexivity | lia].
  - set (n := Z.pos pn) in *.
    set (k := (t + n - 1) / n).
    assert (Hk : (k - 1) * n < t <= k * n).
    { pose proof (Z.div_mod (t + n - 1) n ltac:(lia)) as Hdm.
      pose proof (Z.mod_pos_bound (t + n - 1) n ltac:(lia)) as Hr.
      fold k in Hdm. nia. }
    destruct (round_quotient t n k ltac:(lia) Hn Hk) as (q & -> & Hq).
    exists k. cbn [Math_ceil]. rewrite Hq. split; [reflexivity | exact Hk].
Qed.

(** An integer rounds to an integer or to an infinity. *)
Lemma round_integer (z : Z) :
  round (inject_Z z) = PInf \/ round (inject_Z z) = NInf
  \/ exists z', round (inject_Z z) = of_Z z'.
Proof.
  unfold round. cbn [inject_Z Qnum Qden].
  destruct (Z.abs z =? 0) eqn:E0; [right; right; exists 0; reflexivity|].
  apply Z.eqb_neq in E0.
  set (e := last_place (Z.abs z) 1).
  destruct (_ || _).
  { destruct (_ <? 0); [right; left | left]; reflexivity. }
  right; right. unfold dyadic.
  destruct (0 <=? e) eqn:E; [eexists; reflexivity|].
  apply Z.leb_gt in E. exists z. unfold of_Z. f_equal.
  assert (Hm : nearest (Z.abs z) 1 e = Z.abs z * 2 ^ (- e)).
  { unfold nearest.
    destruct (scaled_spec (Z.abs z) 1 e ltac:(lia))
      as (s & t & Hs & Ht & -> & Hneg & _).
    destruct (Hneg ltac:(lia)) as [-> ->]. cbn [fst snd].
    rewrite Z.div_1_r, Z.mod_1_r. reflexivity. }
  rewrite Hm. rewrite <- Qred_inject_Z. apply Qred_complete.
  unfold Qeq, inject_Z. cbn [Qnum Qden].
  assert (0 < 2 ^ (- e)) by (apply Z.pow_pos_nonneg; lia).
  rewrite Z2Pos.id by lia. nia.
Qed.

(** *** White space *)





End JSFacts.

(** ** Patterns without special characters *)

Module RegexFacts.

Import Regex Statements.

Lemma tokens_plain_cons (c : ascii) (s : list ascii) :
  is_meta c = false ->
  tokens (c :: s) = option_map (cons (TAtom (Lit c))) (tokens s).
Proof.
  intro H.
  destruct c as [[] [] [] [] [] [] [] []];
    first [discriminate H | reflexivity].
Qed.

Lemma tokens_plain (s : list ascii) :
  forallb (fun c => negb (is_meta c)) s = true ->
  tokens s = Some (map (fun c => TAtom (Lit c)) s).
Proof.
  induction s as [|c s IH]; intro H.
  - reflexivity.
  - cbn [forallb] in H. apply andb_true_iff in H as [Hc Hs].
    apply negb_true_iff in Hc.
    rewrite (tokens_plain_cons _ _ Hc), (IH Hs). reflexivity.
Qed.

Lemma items_lits (s : list ascii) :
  items (map (fun c => TAtom (Lit c)) s) = Some (lits s).
Proof.
  induction s as [|c s IH].
  - reflexivity.
  - cbn [map items]. destruct s as [|c' s].
    + reflexivity.
    + cbn [map] in *. rewrite IH. reflexivity.
Qed.

Lemma compile_plain (p : string) :
  plain p = true -> compile p = Some (lits (JS.chars p)).
Proof.
  intro H. unfold compile. rewrite (tokens_plain _ H). apply items_lits.
Qed.

Lemma match_here_lits (p s : list ascii) :
  match_here (lits p) s = true ->
  exists post, map JS.lower s = map JS.lower p ++ post.
Proof.
  revert s; induction p as [|c p IH]; intros s H.
  - exists (map JS.lower s). reflexivity.
  - destruct s as [|d s]; cbn [lits map match_here] in H; [discriminate|].
    apply andb_true_iff in H as [Hc Hp].
    apply Ascii.eqb_eq in Hc.
    destruct (IH _ Hp) as [post E].
    exists post. cbn [map app]. rewrite Hc, E. reflexivity.
Qed.

Lemma search_lits (p s : list ascii) :
  search (lits p) s = true ->
  exists pre post, map JS.lower s = pre ++ map JS.lower p ++ post.
Proof.
  induction s as [|d s IH]; cbn [search]; intro H;
    apply orb_true_iff in H as [H|H].
  - destruct (match_here_lits _ _ H) as [post E]. exists [], post. exact E.
  - discriminate.
  - destruct (match_here_lits _ _ H) as [post E]. exists [], post. exact E.
  - destruct (IH H) as (pre & post & E).
    exists (JS.lower d :: pre), post. cbn [map app]. rewrite E. reflexivity.
Qed.

(** A pattern of plain characters is a search for that text, letters
    compared without case. *)
Lemma plain_test_substring (p : string) (re : list item) (v : string) :
  plain p = true -> compile p = Some re -> test re v = true ->
  ci_substring p v.
Proof.
  intros Hp Hc Ht. rewrite (compile_plain _ Hp) in Hc.
  injection Hc as <-. apply search_lits, Ht.
Qed.

(** The engine of the fragment reads a pattern of plain characters as
    the text itself. *)
Lemma fragment_plain (p : string) (m : matcher) (v : string) :
  plain p = true -> fragment p = Some m -> m v = true -> ci_substring p v.
Proof.
  unfold fragment. intros Hp Hm Hv.
  destruct (compile p) as [re|] eqn:E; [|discriminate].
  injection Hm as <-. eapply plain_test_substring; eassumption.
Qed.

End RegexFacts.

(** ** The search handler *)

Module SearchFacts.

Import Search Statements.

Lemma apply_limit_In {A : Type} (n : Z) (l : list A) (x : A) :
  In x (apply_limit n l) -> In x l.
Proof.
  unfold apply_limit. destruct (n =? 0); [tauto | apply In_firstn].
Qed.

Lemma window_In {A : Type} (s n : JS.jsnum) (l w : list A) (x : A) :
  window s n l = Some w -> In x w -> In x l.
Proof.
  unfold window.
  destruct (JS.as_int s) as [s'|]; [|discriminate].
  destruct (JS.as_int n) as [n'|]; [|discriminate].
  destruct (s' <? 0); [discriminate|].
  intros [= <-] H. eapply In_skipn, apply_limit_In, H.
Qed.

(** A window is a run of consecutive elements. *)
Lemma window_segment {A : Type} (s n : JS.jsnum) (l w : list A) :
  window s n l = Some w -> segment w l.
Proof.
  unfold window.
  destruct (JS.as_int s) as [s'|]; [|discriminate].
  destruct (JS.as_int n) as [n'|]; [|discriminate].
  destruct (s' <? 0); [discriminate|].
  intros [= <-]. unfold apply_limit, segment.
  exists (firstn (Z.to_nat s') l).
  destruct (n' =? 0).
  - exists []. rewrite app_nil_r. symmetry. apply firstn_skipn.
  - exists (skipn (Z.to_nat (Z.abs n')) (skipn (Z.to_nat s') l)).
    rewrite firstn_skipn. symmetry. apply firstn_skipn.
Qed.

(** [parseInt] reads an integer, an infinity or [NaN]. *)
Lemma parseInt_cases (s : string) :
  JS.parseInt s = JS.NaN \/ JS.parseInt s = JS.PInf
  \/ JS.parseInt s = JS.NInf \/ exists z, JS.parseInt s = JS.of_Z z.
Proof.
  unfold JS.parseInt.
  destruct (JS.strip_sign _) as [sign s1].
  destruct (JS.strip_hex _) as [radix s2].
  destruct (JS.parse_digits _ _ _) as [v|]; [|left; reflexivity].
  right. apply JSFacts.round_integer.
Qed.

(** The bound that the store compares with is the number of the
    parameter, and the comparison is the order of the numbers. *)
Lemma at_least_iff (b : JS.jsnum) (g : option JS.jsnum) (price : option Q) :
  cast_bound (Some b) = Some g ->
  on_field (option_map ge_bound g) price = true
  <-> exists v, price = Some v /\ at_least b v.
Proof.
  destruct b as [| | |q]; cbn [cast_bound]; try discriminate;
    intros [= <-]; cbn [option_map on_field];
    (destruct price as [v|];
     [|split; [discriminate | intros (v & [=] & _)]]);
    unfold ge_bound, JS.lt; cbn [at_least negb].
  - split; [discriminate | intros (v' & _ & [])].
  - split; [intros _; exists v; split; [reflexivity | exact I]
           | reflexivity].
  - rewrite negb_involutive, Qle_bool_iff. split.
    + intro H. exists v. split; [reflexivity | exact H].
    + intros (v' & [= <-] & H). exact H.
Qed.

Lemma at_most_iff (b : JS.jsnum) (h : option JS.jsnum) (price : option Q) :
  cast_bound (Some b) = Some h ->
  on_field (option_map le_bound h) price = true
  <-> exists v, price = Some v /\ at_most b v.
Proof.
  destruct b as [| | |q]; cbn [cast_bound]; try discriminate;
    intros [= <-]; cbn [option_map on_field];
    (destruct price as [v|];
     [|split; [discriminate | intros (v & [=] & _)]]);
    unfold le_bound, JS.lt; cbn [at_most negb].
  - split; [intros _; exists v; split; [reflexivity | exact I]
           | reflexivity].
  - split; [discriminate | intros (v' & _ & [])].
  - rewrite negb_involutive, Qle_bool_iff. split.
    + intro H. exists v. split; [reflexivity | exact H].
    + intros (v' & [= <-] & H). exact H.
Qed.

Lemma at_least_cast (b : JS.jsnum) (v : Q) :
  at_least b v -> cast_bound (Some b) = Some (Some b).
Proof. destruct b; [intros [] | reflexivity ..]. Qed.

Lemma at_most_cast (b : JS.jsnum) (v : Q) :
  at_most b v -> cast_bound (Some b) = Some (Some b).
Proof. destruct b; [intros [] | reflexivity ..]. Qed.

Lemma exact_hit_iff (p field : option string) :
  on_field (eq_cond (JS.truthy p)) field = true <-> exact_hit p field.
Proof.
  unfold exact_hit. destruct (JS.truthy p) as [s|];
    cbn [eq_cond option_map on_field].
  - destruct field as [v|].
    + rewrite String.eqb_eq. split.
      * intros -> s' [= <-]. reflexivity.
      * intro H. specialize (H s eq_refl). congruence.
    + split; [discriminate|]. intro H. discriminate (H s eq_refl).
  - split; [intros _ s [=] | reflexivity].
Qed.

Section Engines.

Variable regex : Regex.engine.
Variable RegExp : Regex.engine.

(** What [find] returns was in the collection and matches the query as
    the store runs it. *)
Lemma find_sound (coll : list Requirement.doc) (q : query)
  (o : sort_options) (s n : JS.jsnum) (l : list Requirement.doc)
  (d : Requirement.doc) :
  find regex RegExp coll q o s n = Some l -> In d l ->
  exists cq, cast_query regex RegExp q = Some cq /\ In d coll
             /\ matches cq d = true.
Proof.
  unfold find. destruct (cast_query regex RegExp q) as [cq|]; [|discriminate].
  intros Hw Hd. exists cq. split; [reflexivity|].
  apply filter_In.
  eapply sort_by_In, window_In; eassumption.
Qed.

Lemma returned_Ok_find (coll : list Requirement.doc) (r : request)
  (d : Requirement.doc) :
  In d (returned (search_flatmates regex RegExp coll r)) ->
  exists l, find regex RegExp coll (build_query r) (build_sort r) (skip r)
              (limitNum r)
            = Some l /\ In d l.
Proof.
  unfold search_flatmates.
  destruct (find regex RegExp coll (build_query r) (build_sort r) (skip r)
              (limitNum r))
    as [l|]; [|intros []].
  destruct (countDocuments regex RegExp coll (build_query r)); [|intros []].
  intro H. exists l. split; [reflexivity | exact H].
Qed.

Lemma text_hit_iff (p field : option string) (c : option Regex.matcher) :
  compile_opt regex (JS.truthy p) = Some c ->
  on_field c field = true <-> text_hit regex p field.
Proof.
  unfold text_hit. destruct (JS.truthy p) as [s|]; cbn [compile_opt].
  - destruct (regex s) as [m|] eqn:E; [|discriminate].
    intros [= <-]. cbn [on_field]. destruct field as [v|].
    + split.
      * intros H s' [= <-]. exists m, v.
        split; [exact E|]. split; [reflexivity | exact H].
      * intro H. destruct (H s eq_refl) as (m' & v' & Em & [= <-] & Hm).
        rewrite E in Em. injection Em as <-. exact Hm.
    + split; [discriminate|].
      intro H. destruct (H s eq_refl) as (_ & _ & _ & [=] & _).
  - intros [= <-]. split; [intros _ s [=] | reflexivity].
Qed.

Lemma compile_all_In (ps : list string) (res : list Regex.matcher)
  (m : Regex.matcher) :
  compile_all RegExp ps = Some res -> In m res ->
  exists s, In s ps /\ RegExp s = Some m.
Proof.
  revert res; induction ps as [|p ps IH]; intros res; cbn [compile_all].
  - intros [= <-] [].
  - destruct (RegExp p) as [c|] eqn:E; [|discriminate].
    destruct (compile_all RegExp ps) as [cs|]; [|discriminate].
    intros [= <-] [<-|H].
    + exists p. split; [left; reflexivity | exact E].
    + destruct (IH _ eq_refl H) as (s & Hs & Hc).
      exists s. split; [right; exact Hs | exact Hc].
Qed.

Lemma compile_all_complete (ps : list string) (res : list Regex.matcher)
  (s : string) (m : Regex.matcher) :
  compile_all RegExp ps = Some res -> In s ps -> RegExp s = Some m ->
  In m res.
Proof.
  revert res; induction ps as [|p ps IH]; intros res; cbn [compile_all].
  - intros _ [].
  - destruct (RegExp p) as [c|] eqn:E; [|discriminate].
    destruct (compile_all RegExp ps) as [cs|]; [|discriminate].
    intros [= <-] [->|H] Hc.
    + left. congruence.
    + right. apply (IH _ eq_refl H Hc).
Qed.

Lemma prefs_hit_iff (p : option qval) (tags : list string)
  (c : option (list Regex.matcher)) :
  match prefsArray p with
  | None => Some None
  | Some ps => option_map Some (compile_all RegExp ps)
  end = Some c ->
  match c with None => true | Some res => in_prefs res tags end = true
  <-> prefs_hit RegExp p tags.
Proof.
  unfold prefs_hit. destruct (prefsArray p) as [ps|].
  - destruct (compile_all RegExp ps) as [res|] eqn:E; [|discriminate].
    intros [= <-]. unfold in_prefs. split.
    + intros Hm ps' [= <-].
      apply existsb_exists in Hm as (m & Hm & Ht).
      apply existsb_exists in Ht as (t & Ht & Hmt).
      destruct (compile_all_In _ _ _ E Hm) as (s & Hs & Hcs).
      exists s, m, t. repeat split; assumption.
    + intro H. destruct (H ps eq_refl) as (s & m & t & Hs & Hm & Ht & Hmt).
      apply existsb_exists. exists m. split.
      * eapply compile_all_complete; eassumption.
      * apply existsb_exists. exists t. split; assumption.
  - intros [= <-]. split; [intros _ ps [=] | reflexivity].
Qed.

(** The parts of the query of a request, once the store has accepted
    it. *)
Lemma cast_query_parts (r : request) (cq : cquery) :
  cast_query regex RegExp (build_query r) = Some cq ->
  compile_opt regex (JS.truthy (r_state r)) = Some (c_state cq)
  /\ compile_opt regex (JS.truthy (r_city r)) = Some (c_city cq)
  /\ compile_opt regex (JS.truthy (r_location r)) = Some (c_location cq)
  /\ match JS.truthy (r_minPrice r) with
     | Some s => cast_bound (Some (JS.parseInt s)) = Some (c_gte cq)
     | None => c_gte cq = None
     end
  /\ match JS.truthy (r_maxPrice r) with
     | Some s => cast_bound (Some (JS.parseInt s)) = Some (c_lte cq)
     | None => c_lte cq = None
     end
  /\ c_furnishing cq = JS.truthy (r_furnishing r)
  /\ c_gender cq = JS.truthy (r_gender r)
  /\ match prefsArray (r_preferences r) with
     | None => Some None
     | Some ps => option_map Some (compile_all RegExp ps)
     end = Some (c_prefs cq).
Proof.
  unfold cast_query, build_query.
  cbn [q_state q_city q_location q_price q_furnishing q_gender q_prefs].
  destruct (compile_opt regex (JS.truthy (r_state r))) as [cs|];
    [|discriminate].
  destruct (compile_opt regex (JS.truthy (r_city r))) as [cc|];
    [|discriminate].
  destruct (compile_opt regex (JS.truthy (r_location r))) as [cl|];
    [|discriminate].
  destruct (JS.truthy (r_minPrice r)) as [a|];
    destruct (JS.truthy (r_maxPrice r)) as [b|];
    cbn [is_some orb option_map gte lte];
    repeat match goal with
           | |- context [cast_bound (Some ?x)] =>
               destruct (cast_bound (Some x)) eqn:?
           end;
    cbn [cast_bound];
    destruct (prefsArray (r_preferences r)) as [ps|];
    try destruct (compile_all RegExp ps);
    cbn [option_map]; try discriminate;
    intros [= <-];
    cbn [c_state c_city c_location c_gte c_lte c_furnishing c_gender
         c_prefs];
    repeat split; reflexivity.
Qed.

(** The query built from a request, as the store runs it, holds for
    exactly the listings that pass every filter of the request. *)
Lemma matches_iff (r : request) (cq : cquery) (d : Requirement.doc) :
  cast_query regex RegExp (build_query r) = Some cq ->
  matches cq d = true <-> satisfies regex RegExp r d.
Proof.
  intro Hq.
  destruct (cast_query_parts r cq Hq)
    as (Es & Ec & El & Emin & Emax & Ef & Eg & Ep).
  unfold matches, satisfies. rewrite !andb_true_iff.
  rewrite (text_hit_iff _ _ _ Es), (text_hit_iff _ _ _ Ec),
    (text_hit_iff _ _ _ El), (prefs_hit_iff _ _ _ Ep), Ef, Eg,
    !exact_hit_iff.
  assert (Hmin : on_field (option_map ge_bound (c_gte cq))
                   (Requirement.price d) = true
                 <-> min_hit (r_minPrice r) (Requirement.price d)).
  { unfold min_hit. destruct (JS.truthy (r_minPrice r)) as [s|].
    - rewrite (at_least_iff _ _ _ Emin). split.
      + intros H s' [= <-]. exact H.
      + intro H. exact (H s eq_refl).
    - rewrite Emin. split; [intros _ s [=] | reflexivity]. }
  assert (Hmax : on_field (option_map le_bound (c_lte cq))
                   (Requirement.price d) = true
                 <-> max_hit (r_maxPrice r) (Requirement.price d)).
  { unfold max_hit. destruct (JS.truthy (r_maxPrice r)) as [s|].
    - rewrite (at_most_iff _ _ _ Emax). split.
      + intros H s' [= <-]. exact H.
      + intro H. exact (H s eq_refl).
    - rewrite Emax. split; [intros _ s [=] | reflexivity]. }
  rewrite Hmin, Hmax. tauto.
Qed.

(** An answer with listings: the store has accepted the query, the
    listings are a window of the sorted matches and [totalCount] is the
    number of the matches. *)
Lemma search_answer (coll : list Requirement.doc) (r : request)
  (data : list Requirement.doc) (pg : pagination) :
  search_flatmates regex RegExp coll r = Ok data pg ->
  exists cq,
    cast_query regex RegExp (build_query r) = Some cq
    /\ window (skip r) (limitNum r)
         (sort_by (doc_le (build_sort r)) (filter (matches cq) coll))
       = Some data
    /\ totalCount pg = List.length (filter (matches cq) coll).
Proof.
  unfold search_flatmates, find, countDocuments.
  destruct (cast_query regex RegExp (build_query r)) as [cq|];
    [|discriminate].
  destruct (window _ _ _) as [w|] eqn:W; [|discriminate].
  intros [= <- <-]. exists cq.
  split; [reflexivity|]. split; [exact W | reflexivity].
Qed.

End Engines.

End SearchFacts.

Module SearchClaims.

Import Search Statements.

Lemma match_here_complete (p s post : list ascii) :
  map JS.lower s = map JS.lower p ++ post ->
  Regex.match_here (lits p) s = true.
Proof.
  revert s; induction p as [|c p IH]; intros s E.
  - reflexivity.
  - destruct s as [|d s]; cbn [map app] in E; [discriminate|].
    injection E as Ec Es.
    cbn [lits map Regex.match_here Regex.atom_ok].
    rewrite Ec, Ascii.eqb_refl. apply (IH _ Es).
Qed.

(** Every occurrence of a plain text is found by its pattern. *)
Lemma substring_test (p v : string) :
  Regex.ci_substring p v -> Regex.test (lits (JS.chars p)) v = true.
Proof.
  intros (pre & post & E). unfold Regex.test.
  revert E. generalize (JS.chars v) as s.
  induction pre as [|x pre IH]; intros s E.
  - destruct s; cbn [Regex.search];
      rewrite (match_here_complete _ _ _ E); reflexivity.
  - destruct s as [|d s]; cbn [map app] in E; [discriminate|].
    injection E as _ Es. cbn [Regex.search].
    rewrite (IH _ Es). apply orb_true_r.
Qed.

(** C1, as amended: whatever engine runs the patterns, every listing
    the search returns comes from the collection and passes every filter
    that is set: the pattern of the state, city and location parameters
    matches the field, the price is at least [parseInt(minPrice)] and at
    most [parseInt(maxPrice)], furnishing and gender are equal to their
    parameters, and the pattern of some preference matches some tag.
    Nothing else is excluded: the listings that are counted, of which
    the answer holds a run, are all the listings of the collection that
    pass the filters that are set, and a parameter that is missing or
    empty is passed by every listing. *)
Theorem search_results_pass_filters (regex RegExp : Regex.engine)
  (coll : list Requirement.doc) (r : request) :
  (forall d, In d (returned (search_flatmates regex RegExp coll r)) ->
             In d coll /\ satisfies regex RegExp r d)
  /\ (forall data pg,
        search_flatmates regex RegExp coll r = Ok data pg ->
        exists all,
          segment data all
          /\ totalCount pg = List.length all
          /\ forall d, In d all <-> In d coll /\ satisfies regex RegExp r d)
  /\ (forall p field, JS.truthy p = None -> text_hit regex p field)
  /\ (forall p price,
        JS.truthy p = None -> min_hit p price /\ max_hit p price)
  /\ (forall p field, JS.truthy p = None -> exact_hit p field)
  /\ (forall p tags, prefsArray p = None -> prefs_hit RegExp p tags).
Proof.
  split; [|split; [|split; [|split; [|split]]]].
  - intros d H.
    destruct (SearchFacts.returned_Ok_find _ _ coll r d H) as (l & Hf & Hd).
    destruct (SearchFacts.find_sound _ _ _ _ _ _ _ _ _ Hf Hd)
      as (cq & Hq & Hc & Hm).
    split; [exact Hc|].
    apply (SearchFacts.matches_iff _ _ _ _ _ Hq). exact Hm.
  - intros data pg H.
    destruct (SearchFacts.search_answer _ _ _ _ _ _ H) as (cq & Hq & Hw & Ht).
    exists (sort_by (doc_le (build_sort r)) (filter (matches cq) coll)).
    split; [eapply SearchFacts.window_segment; exact Hw|].
    split; [rewrite Ht; symmetry; apply sort_by_length|].
    intro d. rewrite <- (SearchFacts.matches_iff _ _ _ _ d Hq).
    rewrite <- filter_In. split.
    + apply sort_by_In.
    + apply (Permutation_in d (Permutation_sym (sort_by_perm _ _))).
  - intros p field Hp s Hs. congruence.
  - intros p price Hp. split; intros s Hs; congruence.
  - intros p field Hp s Hs. congruence.
  - intros p tags Hp ps Hps. congruence.
Qed.

(** The scenario of the specification: price 15000 in Karnataka, found
    with [minPrice=10000&maxPrice=20000&state=karn]. *)
Lemma search_results_pass_filters_witness :
  In bengaluru
    (returned
       (search_flatmates Regex.fragment Regex.fragment [bengaluru] scenario))
  /\ In bengaluru [bengaluru]
  /\ satisfies Regex.fragment Regex.fragment scenario bengaluru.
Proof.
  assert (H : In bengaluru
                (returned
                   (search_flatmates Regex.fragment Regex.fragment
                      [bengaluru] scenario))).
  { vm_compute. left. reflexivity. }
  split; [exact H|].
  exact (proj1 (search_results_pass_filters Regex.fragment Regex.fragment
                  [bengaluru] scenario)
           bengaluru H).
Defined.

(** The same listing is absent from a search with [maxPrice=5000]. *)
Lemma scenario_maxPrice_5000 :
  returned (search_flatmates Regex.fragment Regex.fragment [bengaluru]
              (with_maxPrice (Some "5000"%string) no_filter)) = [].
Proof. vm_compute. reflexivity. Qed.

(** C1, as the specification words it, fails: [state=k.rn] returns the
    listing of Karnataka, in which the text [k.rn] does not occur. *)
Lemma search_pattern_is_not_substring :
  exists coll r d,
    In d (returned (search_flatmates Regex.fragment Regex.fragment coll r))
    /\ ~ spec_filters r d.
Proof.
  exists [bengaluru], (with_state "k.rn" no_filter), bengaluru.
  split.
  - vm_compute. left. reflexivity.
  - intros (Hs & _).
    destruct (Hs "k.rn"%string eq_refl) as (v & Hv & Hsub).
    injection Hv as <-.
    apply substring_test in Hsub. vm_compute in Hsub. discriminate Hsub.
Qed.

(** C2, as amended: when page and limit read as integers that are at
    least 1, the numbers of the handler are exact (the product of page
    and limit is at most [2 ^ 53], and so is the size of the collection)
    and the store accepts the query, the handler answers with the window
    of [limit] listings that starts at offset [(page - 1) * limit] of the
    sorted matches, and with an envelope in which [totalPages] is the
    ceiling of [totalCount / limit], [hasNextPage] is
    [currentPage < totalPages] and [hasPrevPage] is [currentPage > 1]. *)
Theorem pagination_envelope (regex RegExp : Regex.engine)
  (coll : list Requirement.doc) (r : request) (cq : cquery) (p n : Z) :
  cast_query regex RegExp (build_query r) = Some cq ->
  pageNum r = JS.of_Z p -> limitNum r = JS.of_Z n ->
  1 <= p -> 1 <= n -> p * n <= 2 ^ 53 ->
  Z.of_nat (List.length coll) < 2 ^ 53 ->
  let matching := filter (matches cq) coll in
  let total := List.length matching in
  let data :=
    firstn (Z.to_nat n)
      (skipn (Z.to_nat ((p - 1) * n))
         (sort_by (doc_le (build_sort r)) matching)) in
  exists k,
    (k - 1) * n < Z.of_nat total <= k * n
    /\ search_flatmates regex RegExp coll r
       = Ok data
           {| currentPage := JS.of_Z p;
              totalPages := JS.of_Z k;
              totalCount := total;
              hasNextPage := p <? k;
              hasPrevPage := 1 <? p;
              limit := JS.of_Z n |}
    /\ Z.of_nat (List.length data) <= n.
Proof.
  intros Hq Hp Hn Hp1 Hn1 Hpn Hsize matching total data.
  assert (Htotal : Z.of_nat total < 2 ^ 53).
  { pose proof (filter_length_le (matches cq) coll). unfold total, matching.
    lia. }
  destruct (JSFacts.ceil_div_of_Z (Z.of_nat total) n) as (k & Hk & Hb);
    [lia | nia |].
  exists k. split; [exact Hb|]. split.
  - unfold search_flatmates, find, countDocuments, skip.
    rewrite Hq, Hp, Hn.
    rewrite JSFacts.sub_of_Z by nia.
    rewrite JSFacts.mul_of_Z by nia.
    unfold window. rewrite !JSFacts.as_int_of_Z.
    destruct ((p - 1) * n <? 0) eqn:E; [apply Z.ltb_lt in E; nia|].
    unfold apply_limit.
    destruct (n =? 0) eqn:E0; [apply Z.eqb_eq in E0; lia|].
    rewrite (Z.abs_eq n) by lia.
    fold matching. fold total. unfold JS.of_nat. rewrite Hk.
    unfold JS.gt. rewrite !JSFacts.lt_of_Z. reflexivity.
  - unfold data.
    pose proof (firstn_le_length (Z.to_nat n)
                  (skipn (Z.to_nat ((p - 1) * n))
                     (sort_by (doc_le (build_sort r)) matching))).
    lia.
Qed.

(** Three listings, the second page of two. *)
Lemma pagination_envelope_witness :
  exists k,
    (k - 1) * 2 < 3 <= k * 2
    /\ search_flatmates Regex.fragment Regex.fragment three_listings
         second_page
       = Ok [bengaluru]
           {| currentPage := JS.of_Z 2; totalPages := JS.of_Z k;
              totalCount := 3; hasNextPage := 2 <? k;
              hasPrevPage := true; limit := JS.of_Z 2 |}.
Proof.
  assert (Hq : cast_query Regex.fragment Regex.fragment
                 (build_query second_page)
               = Some (mkCquery None None None None None None None None))
    by reflexivity.
  assert (Hp : pageNum second_page = JS.of_Z 2)
    by (vm_compute; reflexivity).
  assert (Hn : limitNum second_page = JS.of_Z 2)
    by (vm_compute; reflexivity).
  assert (Hpn : 2 * 2 <= 2 ^ 53) by (vm_compute; discriminate).
  assert (Hsize : Z.of_nat (List.length three_listings) < 2 ^ 53)
    by (vm_compute; reflexivity).
  destruct (pagination_envelope Regex.fragment Regex.fragment
              three_listings second_page _ 2 2 Hq Hp Hn
              ltac:(lia) ltac:(lia) Hpn Hsize)
    as (k & Hk & Hs & _).
  exists k. split; [exact Hk | exact Hs].
Defined.

(** C2, as the specification words it, fails: with [limit=0] the store
    sets no limit, and the page holds more than [limit] listings. *)
Lemma limit_zero_returns_everything :
  exists coll r data p,
    search_flatmates Regex.fragment Regex.fragment coll r = Ok data p
    /\ ~ spec_envelope data p.
Proof.
  exists [bengaluru], (with_limit "0" no_filter).
  eexists. eexists. split.
  - vm_compute. reflexivity.
  - intros (_ & _ & _ & n & Hn & Hl).
    cbn [limit] in Hn. injection Hn as Hn. subst n.
    cbn [List.length] in Hl. lia.
Qed.

Lemma truthy_nonempty (s : string) :
  s <> EmptyString -> JS.truthy (Some s) = Some s.
Proof. destruct s; [congruence | reflexivity]. Qed.

Lemma cast_query_NaN (regex RegExp : Regex.engine) (q : query)
  (pq : price_query) :
  q_price q = Some pq ->
  gte pq = Some JS.NaN \/ lte pq = Some JS.NaN ->
  cast_query regex RegExp q = None.
Proof.
  intros Hp H. unfold cast_query. rewrite Hp.
  destruct (compile_opt regex (q_state q)); [|reflexivity].
  destruct (compile_opt regex (q_city q)); [|reflexivity].
  destruct (compile_opt regex (q_location q)); [|reflexivity].
  destruct H as [-> | ->]; cbn [cast_bound].
  - reflexivity.
  - destruct (cast_bound (gte pq)); reflexivity.
Qed.

Lemma rejected_query (regex RegExp : Regex.engine)
  (coll : list Requirement.doc) (r : request) :
  cast_query regex RegExp (build_query r) = None ->
  search_flatmates regex RegExp coll r = ServerError.
Proof.
  intro H. unfold search_flatmates, find. rewrite H. reflexivity.
Qed.

(** C3, as amended: a minPrice or maxPrice that is present, not empty and
    read by [parseInt] as [NaN] is kept in the query as a [NaN] bound: it
    is not dropped, it is not zero, and the store refuses the query, so
    that the handler answers 500 and returns no listing.  An empty
    minPrice or maxPrice sets no bound.  A page or limit that [parseInt]
    reads as [NaN] is [NaN] in the handler, not its default. *)
Theorem unparsable_number_is_NaN (r : request) (s : string) :
  JS.parseInt s = JS.NaN ->
  (r_minPrice r = Some s ->
     (s = EmptyString -> build_query r = build_query (with_minPrice None r))
     /\ (s <> EmptyString ->
         (exists pq, q_price (build_query r) = Some pq
                     /\ gte pq = Some JS.NaN)
         /\ forall regex RegExp coll,
              search_flatmates regex RegExp coll r = ServerError))
  /\ (r_maxPrice r = Some s ->
     (s = EmptyString -> build_query r = build_query (with_maxPrice None r))
     /\ (s <> EmptyString ->
         (exists pq, q_price (build_query r) = Some pq
                     /\ lte pq = Some JS.NaN)
         /\ forall regex RegExp coll,
              search_flatmates regex RegExp coll r = ServerError))
  /\ (r_page r = Some s -> pageNum r = JS.NaN)
  /\ (r_limit r = Some s -> limitNum r = JS.NaN).
Proof.
  intro HN. split; [|split; [|split]].
  - intro H. split.
    + intros ->. unfold build_query. rewrite H. reflexivity.
    + intro Hne.
      assert (Hq : q_price (build_query r)
                   = Some {| gte := Some JS.NaN;
                             lte := option_map JS.parseInt
                                      (JS.truthy (r_maxPrice r)) |}).
      { unfold build_query; cbn [q_price].
        rewrite H, (truthy_nonempty _ Hne). cbn [is_some orb option_map].
        rewrite HN. reflexivity. }
      split.
      * eexists. split; [exact Hq | reflexivity].
      * intros regex RegExp coll. apply rejected_query.
        apply (cast_query_NaN _ _ _ _ Hq). left; reflexivity.
  - intro H. split.
    + intros ->. unfold build_query. rewrite H. reflexivity.
    + intro Hne.
      assert (Hq : q_price (build_query r)
                   = Some {| gte := option_map JS.parseInt
                                      (JS.truthy (r_minPrice r));
                             lte := Some JS.NaN |}).
      { unfold build_query; cbn [q_price].
        rewrite H, (truthy_nonempty _ Hne). rewrite orb_true_r.
        cbn [option_map]. rewrite HN. reflexivity. }
      split.
      * eexists. split; [exact Hq | reflexivity].
      * intros regex RegExp coll. apply rejected_query.
        apply (cast_query_NaN _ _ _ _ Hq). right; reflexivity.
  - intro H. unfold pageNum. rewrite H. exact HN.
  - intro H. unfold limitNum. rewrite H. exact HN.
Qed.

Lemma unparsable_number_is_NaN_witness :
  JS.parseInt "abc" = JS.NaN
  /\ forall regex RegExp coll,
       search_flatmates regex RegExp coll
         (with_minPrice (Some "abc"%string) no_filter)
       = ServerError.
Proof.
  split; [reflexivity|].
  destruct (unparsable_number_is_NaN
              (with_minPrice (Some "abc"%string) no_filter) "abc" eq_refl)
    as [Hmin _].
  destruct (Hmin eq_refl) as [_ Hbad].
  apply Hbad. discriminate.
Defined.

(** C3, as the specification words it, fails: [minPrice=abc] is not
    treated as absent, neither by the translator nor by the search. *)
Lemma unparsable_minPrice_is_not_absent :
  exists coll r s,
    r_minPrice r = Some s /\ JS.parseInt s = JS.NaN
    /\ build_query r <> build_query (with_minPrice None r)
    /\ search_flatmates Regex.fragment Regex.fragment coll r
       <> search_flatmates Regex.fragment Regex.fragment coll
            (with_minPrice None r).
Proof.
  exists [bengaluru], (with_minPrice (Some "abc"%string) no_filter),
    "abc"%string.
  repeat split.
  - vm_compute. discriminate.
  - vm_compute. discriminate.
Qed.

End SearchClaims.

(** ** Finding in a collection *)

Section FindFacts.
Context {A : Type} (f : A -> bool).

Lemma find_none_iff (l : list A) :
  find f l = None <-> forall x, In x l -> f x = false.
Proof.
  split.
  - apply find_none.
  - induction l as [|y l IH]; intro H; cbn [find].
    + reflexivity.
    + rewrite (H y (or_introl eq_refl)).
      apply IH. intros x Hx. apply H. right. exact Hx.
Qed.

Lemma find_exists (l : list A) (x : A) :
  In x l -> f x = true -> exists y, find f l = Some y.
Proof.
  intros Hx Hf. destruct (find f l) as [y|] eqn:E.
  - exists y. reflexivity.
  - rewrite (find_none _ _ E x Hx) in Hf. discriminate.
Qed.

Lemma find_app (l1 l2 : list A) :
  find f (l1 ++ l2)
  = match find f l1 with Some x => Some x | None => find f l2 end.
Proof.
  induction l1 as [|y l1 IH]; cbn [app find].
  - reflexivity.
  - destruct (f y); [reflexivity | exact IH].
Qed.

Lemma find_none_filter (l : list A) : find f l = None -> filter f l = [].
Proof.
  induction l as [|y l IH]; cbn [find filter].
  - reflexivity.
  - destruct (f y); [discriminate | exact IH].
Qed.

Lemma find_some_filter (l : list A) (x : A) :
  find f l = Some x -> (1 <= List.length (filter f l))%nat.
Proof.
  induction l as [|y l IH]; cbn [find filter].
  - discriminate.
  - destruct (f y); [intros _; cbn [List.length]; lia | exact IH].
Qed.

End FindFacts.

Lemma find_ext_eq {A : Type} (f g : A -> bool) (l : list A) :
  (forall x, f x = g x) -> find f l = find g l.
Proof.
  intro H. induction l as [|y l IH]; cbn [find].
  - reflexivity.
  - rewrite H, IH. reflexivity.
Qed.

(** ** Deleting a listing *)

Module PostsClaims.

Import Posts Statements.

(** [deleteOne] takes out the document that [findOne] finds. *)
Lemma deleteOne_found (f : Requirement.doc -> bool)
  (coll : list Requirement.doc) (post : Requirement.doc) :
  find f coll = Some post ->
  exists before after,
    coll = before ++ post :: after
    /\ deleteOne f coll = before ++ after
    /\ forall d, In d before -> f d = false.
Proof.
  induction coll as [|d coll IH]; cbn [find deleteOne].
  - discriminate.
  - destruct (f d) eqn:E.
    + intros [= <-]. exists [], coll. repeat split. intros ? [].
    + intro H. destruct (IH H) as (before & after & -> & Hd & Hb).
      exists (d :: before), after. cbn [app]. rewrite Hd.
      repeat split. intros x [<-|Hx]; [exact E | apply Hb, Hx].
Qed.

(** C4, as amended: the delete of an owned listing takes the listing out
    of the collection when every image deletion succeeds; when the
    deletion of one of its images fails, the failure is logged and is
    propagated: the handler answers 500 and the listing stays. *)
Theorem delete_post_images (fails : string -> bool) (s : db)
  (postId uid : oid) (post : Requirement.doc) :
  find (owned postId uid) (requirements s) = Some post ->
  let out := delete_post fails s postId uid in
  ((forall p, In p (destroy_calls (Requirement.images post)) ->
              fails p = false) ->
   status (resp out) = 200%nat /\ success (resp out) = true
   /\ errors out = []
   /\ exists before after,
        requirements s = before ++ post :: after
        /\ requirements (store out) = before ++ after)
  /\ (forall p, In p (destroy_calls (Requirement.images post)) ->
                fails p = true ->
      status (resp out) = 500%nat /\ success (resp out) = false
      /\ store out = s
      /\ In (CloudinaryDeleteError p) (errors out)
      /\ In DeletePostError (errors out)).
Proof.
  intros Hf out. unfold out, delete_post. rewrite Hf.
  split.
  - intro Hok.
    assert (E : filter fails (destroy_calls (Requirement.images post)) = []).
    { induction (destroy_calls (Requirement.images post)) as [|p l IH].
      - reflexivity.
      - cbn [filter]. rewrite (Hok p (or_introl eq_refl)).
        apply IH. intros q Hq. apply Hok. right. exact Hq. }
    rewrite E. cbn [resp status success errors store].
    repeat split.
    destruct (deleteOne_found _ _ _ Hf) as (before & after & Hc & Hd & _).
    exists before, after. split; [exact Hc | exact Hd].
  - intros p Hp Hfail.
    assert (Hin : In p (filter fails
                          (destroy_calls (Requirement.images post)))).
    { apply filter_In. split; assumption. }
    destruct (filter fails (destroy_calls (Requirement.images post)))
      as [|q l] eqn:E; [destruct Hin|].
    cbn [resp status success errors store].
    repeat split.
    + apply in_or_app. left. apply in_map. exact Hin.
    + apply in_or_app. right. left. reflexivity.
Qed.

Lemma delete_post_images_witness :
  let out := delete_post always_fails listings_only 1%nat 7%nat in
  status (resp out) = 500%nat /\ success (resp out) = false
  /\ store out = listings_only
  /\ In (CloudinaryDeleteError "flatmate-finder-uploads/room1") (errors out)
  /\ In DeletePostError (errors out).
Proof.
  refine (proj2 (delete_post_images always_fails listings_only 1%nat 7%nat
                   bengaluru eq_refl)
            "flatmate-finder-uploads/room1"%string _ eq_refl).
  vm_compute. left. reflexivity.
Defined.

(** C4, as the specification words it, fails: when the deletion of the
    image fails the listing is not removed. *)
Lemma failed_image_keeps_listing :
  exists fails s postId uid, ~ spec_delete_survives fails s postId uid.
Proof.
  exists always_fails, listings_only, 1%nat, 7%nat.
  intro H. destruct (H bengaluru eq_refl) as [Hs _].
  - discriminate.
  - vm_compute in Hs. discriminate Hs.
Qed.

(** C5: when no listing has this id and this owner, the delete answers
    with [success: false] (status 403) without raising, calls no image
    deletion and leaves the database as it was. *)
Theorem delete_post_not_owned (fails : string -> bool) (s : db)
  (postId uid : oid) :
  (forall d, In d (requirements s) ->
             Requirement._id d = postId -> Requirement.userId d <> uid) ->
  let out := delete_post fails s postId uid in
  success (resp out) = false /\ status (resp out) = 403%nat
  /\ store out = s /\ destroyed out = [] /\ errors out = [].
Proof.
  intros H out.
  assert (E : find (owned postId uid) (requirements s) = None).
  { apply find_none_iff. intros d Hd. unfold owned.
    destruct (Nat.eqb (Requirement._id d) postId) eqn:Ei; [|reflexivity].
    apply Nat.eqb_eq in Ei. cbn [andb].
    apply Nat.eqb_neq. apply H; assumption. }
  unfold out, delete_post. rewrite E. repeat split.
Qed.

(** The listing of user 7 is not deleted for user 8. *)
Lemma delete_post_not_owned_witness :
  let out := delete_post never_fails listings_only 1%nat 8%nat in
  success (resp out) = false /\ status (resp out) = 403%nat
  /\ store out = listings_only /\ destroyed out = [] /\ errors out = [].
Proof.
  apply (delete_post_not_owned never_fails listings_only 1%nat 8%nat).
  intros d Hd Hi.
  cbn [listings_only requirements three_listings In] in Hd.
  destruct Hd as [<-|[<-|[<-|[]]]];
    cbn in Hi |- *; first [discriminate Hi | discriminate].
Defined.

End PostsClaims.

(** ** Saving a post *)

Module SavedClaims.

Import Saved Statements.

Lemma same_pair_eq (u p : oid) (sp : SavedPost.doc) :
  same_pair u p sp = true
  <-> SavedPost.userId sp = u /\ SavedPost.postId sp = p.
Proof.
  unfold same_pair. rewrite andb_true_iff, !Nat.eqb_eq. tauto.
Qed.

Lemma same_pair_new (u p : oid) (t : Z) :
  same_pair u p
    {| SavedPost.userId := u; SavedPost.postId := p; SavedPost.savedAt := t |}
  = true.
Proof. apply same_pair_eq. split; reflexivity. Qed.

(** What one call does to the rows of every pair. *)
Lemma save_post_rows (now : Z) (s : db) (uid pid u p : oid) :
  saved_once s ->
  (List.length (rows (snd (save_post now s uid pid)) u p) <= 1)%nat.
Proof.
  intro Hs. unfold save_post.
  destruct (findById pid (requirements s)); [|apply Hs].
  destruct (find (same_pair uid pid) (savedPosts s)) eqn:E; [apply Hs|].
  unfold rows. cbn [snd set_savedPosts savedPosts].
  rewrite filter_app, length_app. cbn [filter].
  destruct (same_pair u p _) eqn:Ep.
  - apply same_pair_eq in Ep as [Hu Hp]. cbn in Hu, Hp. subst u p.
    rewrite (find_none_filter _ _ E). cbn. lia.
  - cbn [List.length]. specialize (Hs u p). unfold rows in Hs. lia.
Qed.

(** C8: for a post that exists, the second save of the same user and
    post answers "Post already saved" and changes nothing, so that the
    pair has one row and no pair gets a second one. *)
Theorem save_post_twice (now1 now2 : Z) (s : db) (uid pid : oid) :
  (exists post, In post (requirements s) /\ Requirement._id post = pid) ->
  let s1 := snd (save_post now1 s uid pid) in
  let second := save_post now2 s1 uid pid in
  alreadySaved (fst second) = true
  /\ message (fst second) = "Post already saved"%string
  /\ snd second = s1
  /\ ((List.length (rows s uid pid) <= 1)%nat ->
      List.length (rows (snd second) uid pid) = 1%nat)
  /\ (saved_once s -> saved_once (snd second)).
Proof.
  intros (post & Hin & Hid) s1 second.
  assert (Hp : exists y, findById pid (requirements s) = Some y).
  { apply (find_exists _ _ post Hin). apply Nat.eqb_eq. exact Hid. }
  destruct Hp as (y & Hy).
  assert (H1 : requirements s1 = requirements s
               /\ exists sp, find (same_pair uid pid) (savedPosts s1)
                             = Some sp).
  { unfold s1, save_post. rewrite Hy.
    destruct (find (same_pair uid pid) (savedPosts s)) as [sp|] eqn:E;
      cbn [snd].
    - split; [reflexivity | exists sp; exact E].
    - split; [reflexivity|]. cbn [set_savedPosts savedPosts].
      rewrite find_app, E. cbn [find].
      rewrite same_pair_new. eexists. reflexivity. }
  destruct H1 as (Hr & sp & Hsp).
  assert (E2 : second
               = ({| status := 200; success := true;
                     message := "Post already saved";
                     alreadySaved := true |}, s1)).
  { unfold second, save_post. rewrite Hr, Hy, Hsp. reflexivity. }
  rewrite E2. cbn [fst snd alreadySaved message].
  repeat split.
  - intro Hle.
    pose proof (find_some_filter _ _ _ Hsp) as Hge.
    assert (Hle1 : (List.length (rows s1 uid pid) <= 1)%nat).
    { unfold s1, save_post. rewrite Hy.
      destruct (find (same_pair uid pid) (savedPosts s)) eqn:E;
        cbn [snd]; [exact Hle|].
      unfold rows. cbn [set_savedPosts savedPosts].
      rewrite filter_app, length_app, (find_none_filter _ _ E).
      cbn [filter]. rewrite same_pair_new. cbn. lia. }
    unfold rows in *. lia.
  - intros Hs u p. apply save_post_rows. exact Hs.
Qed.

Lemma save_post_twice_witness :
  let s1 := snd (save_post 1700000400000 listings_only 8%nat 1%nat) in
  let second := save_post 1700000500000 s1 8%nat 1%nat in
  alreadySaved (fst second) = true
  /\ message (fst second) = "Post already saved"%string
  /\ snd second = s1.
Proof.
  destruct (save_post_twice 1700000400000 1700000500000 listings_only
              8%nat 1%nat) as (Ha & Hm & Hs & _).
  - exists bengaluru. split; [left; reflexivity | reflexivity].
  - repeat split; assumption.
Defined.

End SavedClaims.

(** ** Conversations and messages *)

Module ChatClaims.

Import Chat Statements.

Lemma has_In (u : oid) (c : Conversation.doc) :
  has u c = true <-> In u (Conversation.participants c).
Proof.
  unfold has. rewrite existsb_exists. split.
  - intros (x & Hx & E). apply Nat.eqb_eq in E. subst x. exact Hx.
  - intro H. exists u. split; [exact H | apply Nat.eqb_refl].
Qed.

Lemma all_of_sym (a b : oid) (c : Conversation.doc) :
  all_of a b c = all_of b a c.
Proof. apply andb_comm. Qed.

Lemma all_of_fresh (now : Z) (s : db) (a b x y : oid) :
  x <> y ->
  all_of x y (fresh now s a b) = true ->
  (x = a /\ y = b) \/ (x = b /\ y = a).
Proof.
  intros Hxy H. unfold all_of in H. apply andb_true_iff in H as [Hx Hy].
  apply has_In in Hx. apply has_In in Hy. cbn in Hx, Hy.
  destruct Hx as [<-|[<-|[]]]; destruct Hy as [<-|[<-|[]]]; tauto.
Qed.

Lemma all_of_fresh_self (now : Z) (s : db) (a b : oid) :
  all_of a b (fresh now s a b) = true.
Proof.
  unfold all_of. apply andb_true_iff. split; apply has_In; cbn; tauto.
Qed.

Lemma create_conversation_cases (now : Z) (s : db) (a b : oid) :
  a <> b ->
  (exists c, find (all_of a b) (conversations s) = Some c
             /\ create_conversation now s a b = (Conv200 c, s))
  \/ (find (all_of a b) (conversations s) = None
      /\ create_conversation now s a b
         = (Conv200 (fresh now s a b),
            set_conversations s (conversations s ++ [fresh now s a b])
              (S (next_id s)))).
Proof.
  intro Hab. unfold create_conversation.
  destruct (Nat.eqb a b) eqn:E; [apply Nat.eqb_eq in E; contradiction|].
  destruct (find (all_of a b) (conversations s)) as [c|] eqn:F.
  - left. exists c. split; reflexivity.
  - right. split; reflexivity.
Qed.

(** One call keeps the pairs of users at one conversation at most. *)
Lemma create_conversation_invariant (now : Z) (s : db) (a b : oid) :
  one_conversation s ->
  one_conversation (snd (create_conversation now s a b)).
Proof.
  intro Hs. destruct (Nat.eq_dec a b) as [->|Hab].
  - unfold create_conversation. rewrite Nat.eqb_refl. exact Hs.
  - destruct (create_conversation_cases now s a b Hab)
      as [(c & _ & ->)|(F & ->)]; [exact Hs|].
    intros x y Hxy. unfold of_pair.
    cbn [snd set_conversations conversations].
    rewrite filter_app, length_app. cbn [filter].
    destruct (all_of x y (fresh now s a b)) eqn:E.
    + assert (Hz : filter (all_of x y) (conversations s) = []).
      { destruct (all_of_fresh _ _ _ _ _ _ Hxy E) as [[-> ->]|[-> ->]].
        - apply find_none_filter, F.
        - apply find_none_filter.
          rewrite (find_ext_eq _ (all_of a b)); [exact F|].
          intro c. apply all_of_sym. }
      rewrite Hz. cbn. lia.
    + cbn [List.length]. specialize (Hs x y Hxy). unfold of_pair in Hs. lia.
Qed.

(** C6: for two different users, the second call for the pair, in the
    same or in the other order, answers with the conversation of the
    first call and makes none; the pair has one conversation after it,
    and every pair of users keeps at most one. *)
Theorem conversation_twice (now1 now2 now3 : Z) (s : db) (a b : oid) :
  a <> b ->
  let first := create_conversation now1 s a b in
  exists c,
    fst first = Conv200 c
    /\ create_conversation now2 (snd first) a b = (Conv200 c, snd first)
    /\ create_conversation now3 (snd first) b a = (Conv200 c, snd first)
    /\ (one_conversation s ->
        List.length (of_pair (snd first) a b) = 1%nat
        /\ one_conversation (snd first)).
Proof.
  intros Hab first.
  assert (Hfound : exists c,
             fst first = Conv200 c
             /\ find (all_of a b) (conversations (snd first)) = Some c).
  { unfold first.
    destruct (create_conversation_cases now1 s a b Hab)
      as [(c & F & ->)|(F & ->)]; cbn [fst snd].
    - exists c. split; [reflexivity | exact F].
    - exists (fresh now1 s a b). split; [reflexivity|].
      cbn [set_conversations conversations].
      rewrite find_app, F. cbn [find]. rewrite all_of_fresh_self.
      reflexivity. }
  destruct Hfound as (c & Hc & F).
  exists c. split; [exact Hc|].
  assert (Hba : b <> a) by congruence.
  repeat split.
  - destruct (create_conversation_cases now2 (snd first) a b Hab)
      as [(c' & F' & ->)|(F' & _)]; congruence.
  - assert (F2 : find (all_of b a) (conversations (snd first)) = Some c).
    { rewrite (find_ext_eq _ (all_of a b)); [exact F|].
      intro x. apply all_of_sym. }
    destruct (create_conversation_cases now3 (snd first) b a Hba)
      as [(c' & F' & ->)|(F' & _)]; congruence.
  - pose proof (create_conversation_invariant now1 s a b H a b Hab) as Hle.
    pose proof (find_some_filter _ _ _ F) as Hge.
    fold first in Hle. unfold of_pair in *. lia.
  - apply create_conversation_invariant. exact H.
Qed.

(** Users 7 and 9 have no conversation yet. *)
Lemma conversation_twice_witness :
  let first := create_conversation 1700000600000 with_chat 7%nat 9%nat in
  exists c,
    fst first = Conv200 c
    /\ create_conversation 1700000700000 (snd first) 7%nat 9%nat
       = (Conv200 c, snd first)
    /\ create_conversation 1700000800000 (snd first) 9%nat 7%nat
       = (Conv200 c, snd first).
Proof.
  destruct (conversation_twice 1700000600000 1700000700000 1700000800000
              with_chat 7%nat 9%nat) as (c & H1 & H2 & H3 & _).
  - discriminate.
  - exists c. repeat split; assumption.
Defined.

(** *** Ids as the strings of a request *)

Lemma hex_val_digit (d : nat) :
  (d < 16)%nat -> ObjectId.hex_val (ObjectId.hex_digit d) = Some d.
Proof.
  intro H. do 16 (destruct d as [|d]; [reflexivity|]). lia.
Qed.

Lemma hex_value_app (l : list ascii) (c : ascii) (acc : nat) :
  ObjectId.hex_value (l ++ [c]) acc
  = match ObjectId.hex_value l acc, ObjectId.hex_val c with
    | Some v, Some d => Some (v * 16 + d)%nat
    | _, _ => None
    end.
Proof.
  revert acc; induction l as [|x l IH]; intro acc; cbn [app ObjectId.hex_value].
  - destruct (ObjectId.hex_val c); reflexivity.
  - destruct (ObjectId.hex_val x); [apply IH|].
    destruct (ObjectId.hex_val c); reflexivity.
Qed.

Lemma hex_value_hex (k n : nat) :
  ObjectId.hex_value (ObjectId.hex k n) 0%nat = Some (n mod 16 ^ k)%nat.
Proof.
  revert n; induction k as [|k IH]; intro n.
  - cbn [ObjectId.hex ObjectId.hex_value Nat.pow]. rewrite Nat.mod_1_r.
    reflexivity.
  - cbn [ObjectId.hex]. rewrite hex_value_app, IH.
    rewrite hex_val_digit by (apply Nat.mod_upper_bound; lia).
    f_equal. rewrite Nat.pow_succ_r', Nat.Div0.mod_mul_r. lia.
Qed.

Lemma hex_length (k n : nat) : List.length (ObjectId.hex k n) = k.
Proof.
  revert n; induction k as [|k IH]; intro n; cbn [ObjectId.hex].
  - reflexivity.
  - rewrite length_app, IH. cbn [List.length]. lia.
Qed.

Lemma string_length_chars (l : list ascii) :
  String.length (string_of_list_ascii l) = List.length l.
Proof. induction l as [|c l IH]; cbn; [reflexivity | rewrite IH; reflexivity]. Qed.

(** The string of an id is cast back to the id. *)
Lemma cast_toString (id : oid) :
  (id < 16 ^ 24)%nat -> ObjectId.cast (ObjectId.toString id) = Some id.
Proof.
  intro H. unfold ObjectId.cast, ObjectId.toString, JS.chars.
  rewrite string_length_chars, hex_length, Nat.eqb_refl.
  rewrite list_ascii_of_string_of_list_ascii, hex_value_hex.
  rewrite Nat.mod_small by exact H. reflexivity.
Qed.

Lemma toString_eqb (a b : oid) :
  (a < 16 ^ 24)%nat -> (b < 16 ^ 24)%nat ->
  String.eqb (ObjectId.toString a) (ObjectId.toString b) = Nat.eqb a b.
Proof.
  intros Ha Hb. destruct (Nat.eqb_spec a b) as [-> | Hne].
  - apply String.eqb_refl.
  - apply String.eqb_neq. intro E.
    apply (f_equal ObjectId.cast) in E.
    rewrite !cast_toString in E by assumption. congruence.
Qed.

(** On the string of an id the handler does what it does on the id. *)
Lemma post_conversations_canonical (now : Z) (s : db) (a b : oid) :
  (a < 16 ^ 24)%nat -> (b < 16 ^ 24)%nat ->
  post_conversations now s a (ObjectId.toString b)
  = (Some (fst (create_conversation now s a b)),
     snd (create_conversation now s a b)).
Proof.
  intros Ha Hb. unfold post_conversations, create_conversation.
  rewrite (toString_eqb _ _ Ha Hb), (cast_toString _ Hb).
  destruct (Nat.eqb a b); [reflexivity|].
  destruct (find (all_of a b) (conversations s)); reflexivity.
Qed.

(** C9: the handler refuses the string that [userId.toString()] gives,
    and that string only.  Another spelling of the caller's own id, such
    as the one in upper case, is not refused: it is cast to the id of
    the caller, and the handler answers with a conversation of the
    caller, which, when the caller has none yet, is a new conversation
    of the caller with themself. *)
Theorem self_conversation_by_spelling (now : Z) (s : db) (u : oid)
  (otherUserId : string) :
  ObjectId.cast otherUserId = Some u ->
  otherUserId <> ObjectId.toString u ->
  post_conversations now s u (ObjectId.toString u)
  = (Some (Conv400 "Cannot chat with yourself"), s)
  /\ (exists c,
        fst (post_conversations now s u otherUserId) = Some (Conv200 c)
        /\ In u (Conversation.participants c))
  /\ ((forall c, In c (conversations s) ->
                 ~ In u (Conversation.participants c)) ->
      post_conversations now s u otherUserId
      = (Some (Conv200 (fresh now s u u)),
         set_conversations s (conversations s ++ [fresh now s u u])
           (S (next_id s)))).
Proof.
  intros Hc Hne. split; [|split].
  - unfold post_conversations. rewrite String.eqb_refl. reflexivity.
  - unfold post_conversations.
    destruct (String.eqb_spec (ObjectId.toString u) otherUserId) as [E|_];
      [congruence|].
    rewrite Hc.
    destruct (find (all_of u u) (conversations s)) as [c|] eqn:F;
      cbn [fst].
    + exists c. split; [reflexivity|].
      apply find_some in F as [Hin Hm].
      unfold all_of in Hm. apply andb_true_iff in Hm as [Hm _].
      apply has_In, Hm.
    + eexists. split; [reflexivity|]. left. reflexivity.
  - intro Hnone. unfold post_conversations.
    destruct (String.eqb_spec (ObjectId.toString u) otherUserId) as [E|_];
      [congruence|].
    rewrite Hc.
    destruct (find (all_of u u) (conversations s)) as [c|] eqn:F;
      [|reflexivity].
    exfalso. apply find_some in F as [Hin Hm].
    unfold all_of in Hm. apply andb_true_iff in Hm as [Hm _].
    apply has_In in Hm. exact (Hnone c Hin Hm).
Qed.

(** The user of id [...ab] posts their own id in upper case. *)
Lemma self_conversation_by_spelling_witness :
  post_conversations 1700000900000 with_chat 171%nat
    "0000000000000000000000AB"
  = (Some (Conv200 (fresh 1700000900000 with_chat 171%nat 171%nat)),
     set_conversations with_chat
       (conversations with_chat
        ++ [fresh 1700000900000 with_chat 171%nat 171%nat])
       (S (next_id with_chat))).
Proof.
  apply (proj2 (proj2 (self_conversation_by_spelling 1700000900000
                         with_chat 171%nat "0000000000000000000000AB"
                         ltac:(vm_compute; reflexivity)
                         ltac:(vm_compute; discriminate)))).
  intros c [<- | []] [E | [E | []]]; discriminate E.
Defined.

Lemma member_participant (s : db) (conversationId u : oid) :
  (exists c, find (member conversationId u) (conversations s) = Some c)
  <-> participant s conversationId u.
Proof.
  split.
  - intros (c & F). apply find_some in F as [Hin Hm].
    unfold member in Hm. apply andb_true_iff in Hm as [Hi Hu].
    exists c. repeat split; [exact Hin | apply Nat.eqb_eq, Hi |].
    apply has_In, Hu.
  - intros (c & Hin & Hi & Hu).
    apply (find_exists _ _ c Hin). unfold member.
    apply andb_true_iff. split; [apply Nat.eqb_eq, Hi | apply has_In, Hu].
Qed.

Lemma updateMany_Forall2 (f : Message.doc -> bool) (ms : list Message.doc) :
  Forall2 (fun m m' => m' = m \/ (f m = true /\ m' = mark_read m))
    ms (updateMany f ms).
Proof.
  induction ms as [|m ms IH]; cbn [updateMany map]; constructor.
  - destruct (f m); [right; split; reflexivity | left; reflexivity].
  - exact IH.
Qed.

Lemma updateMany_read (conversationId u : oid) (ms : list Message.doc)
  (m : Message.doc) :
  In m (updateMany (unread_for conversationId u) ms) ->
  Message.conversationId m = conversationId ->
  Message.receiverId m = u ->
  Message.read m = true.
Proof.
  unfold updateMany. intros Hin Hc Hr.
  apply in_map_iff in Hin as (m0 & E & _).
  destruct (unread_for conversationId u m0) eqn:F.
  - subst m. reflexivity.
  - subst m0. unfold unread_for, in_conversation in F.
    rewrite Hc, Hr, !Nat.eqb_refl in F. cbn [andb] in F.
    destruct (Message.read m); [reflexivity | discriminate].
Qed.

Lemma older_total (a b : Message.doc) :
  older a b = true \/ older b a = true.
Proof.
  unfold older. destruct (Z.leb_spec (Message.createdAt a)
                            (Message.createdAt b)); [left; reflexivity|].
  right. apply Z.leb_le. lia.
Qed.

Lemma sorted_oldest_first (l : list Message.doc) :
  Sorted (fun a b => older a b = true) l ->
  Sorted (fun a b => Message.createdAt a <= Message.createdAt b) l.
Proof.
  induction 1 as [|m l Hs IH Hh]; constructor.
  - exact IH.
  - destruct Hh as [|m' l' E]; constructor. apply Z.leb_le, E.
Qed.

Lemma updateMany_marks (conversationId u : oid) (ms : list Message.doc) :
  Forall2 (fun m m' =>
             (unread conversationId u m /\ marked m m')
             \/ (~ unread conversationId u m /\ m' = m))
    ms (updateMany (unread_for conversationId u) ms).
Proof.
  induction ms as [|m ms IH]; cbn [updateMany map]; constructor;
    [|exact IH].
  unfold unread_for, in_conversation, unread.
  destruct (Nat.eqb_spec (Message.conversationId m) conversationId) as [Ec|Ec];
    destruct (Nat.eqb_spec (Message.receiverId m) u) as [Er|Er];
    destruct (Message.read m) eqn:Erd; cbn [andb negb];
    try (right; split; [intros (? & ? & ?); congruence | reflexivity]).
  left. repeat split; assumption.
Qed.

(** C7: the listing of the messages is refused with "Access denied"
    exactly when no conversation of this id has the requester among its
    participants.  Otherwise the answer holds the messages whose
    [conversationId] is the id asked for, each as often as the
    collection has it and no other message, oldest first; and after it
    every message of the conversation addressed to the requester is
    read: the messages of the conversation that were addressed to the
    requester and unread are the same messages with [read] true, every
    other message and the conversations are as before. *)
Theorem list_messages_access (s : db) (conversationId u : oid) :
  (fst (list_messages s conversationId u) = List403
   <-> ~ participant s conversationId u)
  /\ (participant s conversationId u ->
      exists found,
        fst (list_messages s conversationId u) = List200 found
        /\ (forall m, In m found
                      <-> In m (messages s)
                          /\ Message.conversationId m = conversationId)
        /\ Permutation found
             (filter (fun m => Nat.eqb (Message.conversationId m)
                                 conversationId)
                (messages s))
        /\ Sorted (fun a b => Message.createdAt a <= Message.createdAt b)
             found)
  /\ let s' := snd (list_messages s conversationId u) in
     (participant s conversationId u ->
      (forall m, In m (messages s') ->
                 Message.conversationId m = conversationId ->
                 Message.receiverId m = u ->
                 Message.read m = true)
      /\ Forall2 (fun m m' =>
                    (unread conversationId u m /\ marked m m')
                    \/ (~ unread conversationId u m /\ m' = m))
           (messages s) (messages s'))
     /\ (~ participant s conversationId u -> s' = s)
     /\ conversations s' = conversations s.
Proof.
  pose proof (member_participant s conversationId u) as Hp.
  unfold list_messages.
  destruct (find (member conversationId u) (conversations s)) as [c|] eqn:F;
    cbn [fst snd set_messages messages conversations].
  - assert (P : participant s conversationId u).
    { apply Hp. exists c. reflexivity. }
    split; [split; [discriminate | intro H; contradiction]|].
    split.
    + intros _. eexists. split; [reflexivity|]. split; [|split].
      * intro m. split.
        -- intro H. apply sort_by_In, filter_In in H as [Hin Hc].
           split; [exact Hin | apply Nat.eqb_eq, Hc].
        -- intros [Hin Hc].
           apply (Permutation_in m (Permutation_sym (sort_by_perm _ _))).
           apply filter_In. split; [exact Hin | apply Nat.eqb_eq, Hc].
      * apply sort_by_perm.
      * apply sorted_oldest_first, sort_by_sorted. apply older_total.
    + split; [|split; [intro H; contradiction | reflexivity]].
      intros _. split.
      * intro m. apply updateMany_read.
      * apply updateMany_marks.
  - assert (P : ~ participant s conversationId u).
    { intro H. apply Hp in H as (c & E). discriminate E. }
    split; [split; [intros _; exact P | reflexivity]|].
    split; [intro H; contradiction|].
    split; [intro H; contradiction|].
    split; reflexivity.
Qed.

(** User 8 reads the conversation with user 7; user 9 may not. *)
Lemma list_messages_access_witness :
  fst (list_messages with_message 50%nat 9%nat) = List403
  /\ forall m, In m (messages (snd (list_messages with_message 50%nat 8%nat)))
               -> Message.conversationId m = 50%nat
               -> Message.receiverId m = 8%nat
               -> Message.read m = true.
Proof.
  split.
  - apply (proj1 (list_messages_access with_message 50%nat 9%nat)).
    intros (c & [<-|[]] & _ & [E|[E|[]]]); discriminate E.
  - apply (proj1 (proj2 (proj2 (list_messages_access with_message 50%nat
                                  8%nat)))).
    exists asha_and_ravi. split; [left; reflexivity|].
    split; [reflexivity | right; left; reflexivity].
Defined.

Lemma findByIdAndUpdate_member (conversationId0 : oid) (text : string)
  (now : Z) (cs : list Conversation.doc) (conversationId u : oid) :
  (exists c, In c cs /\ member conversationId u c = true) ->
  exists c, In c (findByIdAndUpdate conversationId0 text now cs)
            /\ member conversationId u c = true.
Proof.
  induction cs as [|d cs IH]; intros (c & Hin & Hm).
  - destruct Hin.
  - cbn [findByIdAndUpdate].
    destruct (Nat.eqb (Conversation._id d) conversationId0).
    + destruct Hin as [<-|Hin].
      * eexists. split; [left; reflexivity|]. exact Hm.
      * exists c. split; [right; exact Hin | exact Hm].
    + destruct Hin as [<-|Hin].
      * exists d. split; [left; reflexivity | exact Hm].
      * destruct IH as (c' & Hin' & Hm'); [exists c; split; assumption|].
        exists c'. split; [right; exact Hin' | exact Hm'].
Qed.

(** C10, as amended: when the sender is a participant and the text is
    not empty, the message is stored with the receiver of the request as
    it came, whoever that is; a participant who lists the messages
    afterwards marks this message read exactly when that participant is
    its receiver. *)
Theorem send_message_receiver_unchecked (now : Z) (s : db)
  (senderId conversationId receiverId : oid) (text : string) :
  participant s conversationId senderId ->
  text <> EmptyString ->
  exists m s',
    send_message now s senderId conversationId receiverId text
    = (Send200 m, s')
    /\ Message.receiverId m = receiverId
    /\ Message.senderId m = senderId
    /\ Message.conversationId m = conversationId
    /\ Message.message m = text
    /\ Message.read m = false
    /\ messages s' = messages s ++ [m]
    /\ forall u,
         participant s conversationId u ->
         exists found ms,
           fst (list_messages s' conversationId u) = List200 found
           /\ messages (snd (list_messages s' conversationId u))
              = ms ++ [if Nat.eqb receiverId u then mark_read m else m].
Proof.
  intros Hp Ht.
  apply member_participant in Hp as (c & F).
  unfold send_message. rewrite F.
  assert (R : required text = true).
  { unfold required. apply negb_true_iff. apply String.eqb_neq. exact Ht. }
  rewrite R. eexists. eexists. split; [reflexivity|].
  cbn [Message.receiverId Message.senderId Message.conversationId
       Message.message Message.read messages].
  repeat split.
  intros u Hu.
  apply member_participant in Hu as (cu & Fu).
  apply find_some in Fu as [Hin Hm].
  destruct (findByIdAndUpdate_member conversationId
              (substring 0 100 text) now (conversations s)
              conversationId u) as (c' & Hin' & Hm');
    [exists cu; split; assumption|].
  destruct (find_exists _ _ c' Hin' Hm') as (c'' & F'').
  unfold list_messages. cbn [conversations]. rewrite F''.
  cbn [fst snd set_messages messages].
  eexists. eexists. split; [reflexivity|].
  unfold updateMany. rewrite map_app. cbn [map]. f_equal.
  unfold unread_for, in_conversation.
  cbn [Message.conversationId Message.receiverId Message.read].
  rewrite Nat.eqb_refl. cbn [andb negb]. rewrite andb_true_r.
  reflexivity.
Qed.

(** User 7 writes to user 9, who is not in the conversation. *)
Lemma send_message_receiver_unchecked_witness :
  exists m s',
    send_message 1700000900000 with_chat 7%nat 50%nat 9%nat "hello"
    = (Send200 m, s')
    /\ Message.receiverId m = 9%nat
    /\ messages s' = [m].
Proof.
  destruct (send_message_receiver_unchecked 1700000900000 with_chat
              7%nat 50%nat 9%nat "hello")
    as (m & s' & H & Hr & _ & _ & _ & _ & Hm & _).
  - exists asha_and_ravi. split; [left; reflexivity|].
    split; [reflexivity | left; reflexivity].
  - discriminate.
  - exists m, s'. repeat split; assumption.
Defined.

(** C10, as it is worded, fails: the schema requires the text, and a
    participant who sends an empty text gets status 500 and no message
    is stored. *)
Lemma empty_message_is_refused :
  exists now s senderId conversationId receiverId text,
    ~ spec_send_always_stores now s senderId conversationId receiverId text.
Proof.
  exists 1700000900000, with_chat, 7%nat, 50%nat, 8%nat, EmptyString.
  intro H. destruct H as (m & s' & E & _).
  - exists asha_and_ravi. split; [left; reflexivity|].
    split; [reflexivity | left; reflexivity].
  - vm_compute in E. discriminate E.
Qed.

End ChatClaims.

(** ** Invariants of the server *)

Module ServerFacts.

Import Server Statements.

Lemma saved_once_ext (s s' : db) :
  savedPosts s' = savedPosts s -> saved_once s -> saved_once s'.
Proof.
  intros E H u p. specialize (H u p). unfold Saved.rows in *.
  rewrite E. exact H.
Qed.

Lemma one_conversation_ext (s s' : db) :
  map Conversation.participants (conversations s')
  = map Conversation.participants (conversations s) ->
  one_conversation s -> one_conversation s'.
Proof.
  intros E H a b Hab. specialize (H a b Hab). unfold Chat.of_pair in *.
  assert (L : forall l l' : list Conversation.doc,
             map Conversation.participants l'
             = map Conversation.participants l ->
             List.length (filter (Chat.all_of a b) l')
             = List.length (filter (Chat.all_of a b) l)).
  { clear. intros l. induction l as [|c l IH]; intros [|c' l'] E;
      try discriminate E; [reflexivity|].
    cbn [map] in E. injection E as Ec El. cbn [filter].
    assert (Ea : Chat.all_of a b c' = Chat.all_of a b c).
    { unfold Chat.all_of, Chat.has. rewrite Ec. reflexivity. }
    rewrite Ea.
    destruct (Chat.all_of a b c); cbn [List.length];
      [f_equal|]; apply IH; exact El. }
  rewrite (L _ _ E). exact H.
Qed.

Lemma findByIdAndUpdate_participants (conversationId : oid) (text : string)
  (now : Z) (cs : list Conversation.doc) :
  map Conversation.participants
    (Chat.findByIdAndUpdate conversationId text now cs)
  = map Conversation.participants cs.
Proof.
  induction cs as [|c cs IH]; cbn [Chat.findByIdAndUpdate].
  - reflexivity.
  - destruct (Nat.eqb (Conversation._id c) conversationId); cbn [map].
    + reflexivity.
    + rewrite IH. reflexivity.
Qed.

(** Every handler keeps both invariants. *)
Lemma handle_invariants (s : db) (rq : request) :
  saved_once s /\ one_conversation s ->
  saved_once (handle s rq) /\ one_conversation (handle s rq).
Proof.
  intros [Hs Hc]. destruct rq; cbn [handle].
  - unfold Posts.delete_post.
    destruct (find _ _); [destruct (filter _ _)|];
      cbn [Posts.store]; split; assumption.
  - split.
    + intros u p. apply SavedClaims.save_post_rows. exact Hs.
    + apply (one_conversation_ext s); [|exact Hc].
      unfold Saved.save_post.
      destruct (Saved.findById _ _); [destruct (find _ _)|]; reflexivity.
  - split.
    + apply (saved_once_ext s); [|exact Hs].
      unfold Chat.create_conversation.
      destruct (Nat.eqb _ _); [|destruct (find _ _)]; reflexivity.
    + apply ChatClaims.create_conversation_invariant. exact Hc.
  - unfold Chat.list_messages.
    destruct (find _ _); cbn [snd]; split; assumption.
  - unfold Chat.send_message.
    destruct (find _ _); [destruct (Chat.required _)|]; cbn [snd];
      split; try assumption.
    apply (one_conversation_ext s); [|exact Hc].
    cbn [conversations]. apply findByIdAndUpdate_participants.
Qed.

(** X24: whatever requests the server has handled since nothing was
    saved and no conversation existed, no pair has two saved posts or two
    conversations. *)
Lemma serve_invariants (listings : list Requirement.doc) (next : oid)
  (rqs : list request) :
  saved_once (serve (fresh_db listings next) rqs)
  /\ one_conversation (serve (fresh_db listings next) rqs).
Proof.
  unfold serve.
  assert (H0 : saved_once (fresh_db listings next)
               /\ one_conversation (fresh_db listings next)).
  { split; [intros u p | intros a b _]; cbn; lia. }
  revert H0. generalize (fresh_db listings next) as s.
  induction rqs as [|rq rqs IH]; intros s H; cbn [fold_left].
  - exact H.
  - apply IH, handle_invariants, H.
Qed.

End ServerFacts.

(** * Further properties *)

(** ** Windows of a sorted list *)

Section Windows.
Context {A : Type} (R : A -> A -> Prop).



End Windows.



(** ** Decimal numerals *)

Module NumeralFacts.

Import JSMore MoreStatements.










End NumeralFacts.

(** ** The search: order, exactness and pages *)

Module SearchMore.

Import Search Statements MoreStatements.

Lemma price_le_total (a b : option Q) :
  price_le a b = true \/ price_le b a = true.
Proof.
  destruct a as [x|], b as [y|]; cbn; try tauto.
  destruct (Qlt_le_dec y x) as [H|H].
  - right. apply Qle_bool_iff, Qlt_le_weak, H.
  - left. apply Qle_bool_iff, H.
Qed.

Lemma doc_le_total (o : sort_options) (a b : Requirement.doc) :
  doc_le o a b = true \/ doc_le o b a = true.
Proof.
  destruct o; cbn [doc_le]; try apply price_le_total;
    rewrite !Z.leb_le; lia.
Qed.




(** X2: when the store accepts the query, the listings that the search
    counts and pages through are exactly the listings of the collection
    that pass every filter of the request: none is missed and none is
    added, and [totalCount] is their number. *)
Theorem search_matches_exactly (regex RegExp : Regex.engine)
  (coll : list Requirement.doc) (r : request) (cq : cquery) :
  cast_query regex RegExp (build_query r) = Some cq ->
  (forall d, In d (sorted_matches coll r cq)
             <-> In d coll /\ satisfies regex RegExp r d)
  /\ countDocuments regex RegExp coll (build_query r)
     = Some (List.length (sorted_matches coll r cq))
  /\ forall data pg,
       search_flatmates regex RegExp coll r = Ok data pg ->
       totalCount pg = List.length (sorted_matches coll r cq).
Proof.
  intro Hq.
  assert (Hlen : List.length (sorted_matches coll r cq)
                 = List.length (filter (matches cq) coll)).
  { apply sort_by_length. }
  split; [|split].
  - intro d. unfold sorted_matches.
    rewrite <- (SearchFacts.matches_iff _ _ _ _ d Hq), <- filter_In.
    split.
    + apply sort_by_In.
    + apply (Permutation_in d (Permutation_sym (sort_by_perm _ _))).
  - unfold countDocuments. rewrite Hq, Hlen. reflexivity.
  - intros data pg. unfold search_flatmates, find, countDocuments.
    rewrite Hq. destruct (window _ _ _); [|discriminate].
    intros [= _ <-]. cbn [totalCount]. symmetry. exact Hlen.
Qed.

Lemma search_matches_exactly_witness :
  exists cq,
    In bengaluru (sorted_matches [bengaluru] scenario cq)
    <-> In bengaluru [bengaluru]
        /\ satisfies Regex.fragment Regex.fragment scenario bengaluru.
Proof.
  eexists.
  apply (proj1 (search_matches_exactly Regex.fragment Regex.fragment
                  [bengaluru] scenario _ ltac:(vm_compute; reflexivity))).
Defined.

(** The answer for a page that reads as [p] and a limit that reads as
    [n], both at least 1, when the numbers of the handler are exact. *)
Lemma search_page (regex RegExp : Regex.engine)
  (coll : list Requirement.doc) (r : request) (cq : cquery) (p n : Z) :
  cast_query regex RegExp (build_query r) = Some cq ->
  pageNum r = JS.of_Z p -> limitNum r = JS.of_Z n ->
  1 <= p -> 1 <= n -> p * n <= 2 ^ 53 ->
  Z.of_nat (List.length coll) < 2 ^ 53 ->
  exists pg,
    search_flatmates regex RegExp coll r
    = Ok (firstn (Z.to_nat n)
            (skipn (Z.to_nat ((p - 1) * n)) (sorted_matches coll r cq))) pg
    /\ totalCount pg = List.length (sorted_matches coll r cq)
    /\ exists k, totalPages pg = JS.of_Z k
                 /\ (k - 1) * n < Z.of_nat (totalCount pg) <= k * n
                 /\ hasNextPage pg = (p <? k)
                 /\ hasPrevPage pg = (1 <? p).
Proof.
  intros Hq Hp Hn Hp1 Hn1 Hpn Hsize.
  pose proof (filter_length_le (matches cq) coll) as Hfl.
  destruct (JSFacts.ceil_div_of_Z
              (Z.of_nat (List.length (filter (matches cq) coll))) n)
    as (k & Hk & Hb); [lia | nia |].
  unfold search_flatmates, find, countDocuments, skip.
  rewrite Hq, Hp, Hn.
  rewrite JSFacts.sub_of_Z by nia.
  rewrite JSFacts.mul_of_Z by nia.
  unfold window. rewrite !JSFacts.as_int_of_Z.
  destruct ((p - 1) * n <? 0) eqn:E; [apply Z.ltb_lt in E; nia|].
  unfold apply_limit.
  destruct (n =? 0) eqn:E0; [apply Z.eqb_eq in E0; lia|].
  rewrite (Z.abs_eq n) by lia.
  eexists. split; [reflexivity|].
  cbn [totalCount totalPages hasNextPage hasPrevPage].
  split; [symmetry; apply sort_by_length|].
  exists k. unfold JS.of_nat. rewrite Hk.
  unfold JS.gt. rewrite !JSFacts.lt_of_Z. repeat split; apply Hb.
Qed.




(** X4: with page [p >= 1] and limit [n >= 1], the numbers of the
    handler being exact, and [k] the [totalPages] of the answer: a page
    before the last is full, the last page has the listings that remain
    (at least one), a page after the last is empty, and [hasNextPage] is
    true exactly on the pages before the last. *)
Theorem page_sizes (regex RegExp : Regex.engine)
  (coll : list Requirement.doc) (r : request) (cq : cquery) (p n : Z) :
  cast_query regex RegExp (build_query r) = Some cq ->
  pageNum r = JS.of_Z p -> limitNum r = JS.of_Z n ->
  1 <= p -> 1 <= n -> p * n <= 2 ^ 53 ->
  Z.of_nat (List.length coll) < 2 ^ 53 ->
  exists data pg k,
    search_flatmates regex RegExp coll r = Ok data pg
    /\ totalPages pg = JS.of_Z k
    /\ (hasNextPage pg = true <-> p < k)
    /\ (p < k -> Z.of_nat (List.length data) = n)
    /\ (p = k ->
        Z.of_nat (List.length data)
        = Z.of_nat (totalCount pg) - (k - 1) * n
        /\ 1 <= Z.of_nat (List.length data))
    /\ (k < p -> data = []).
Proof.
  intros Hq Hp Hn Hp1 Hn1 Hpn Hsize.
  destruct (search_page regex RegExp coll r cq p n Hq Hp Hn Hp1 Hn1 Hpn
              Hsize)
    as (pg & Hs & Ht & k & Hk & Hb & Hnext & _).
  eexists. exists pg, k. split; [exact Hs|]. split; [exact Hk|].
  rewrite Ht in Hb.
  set (l := sorted_matches coll r cq) in *.
  assert (Hlen : List.length
                   (firstn (Z.to_nat n) (skipn (Z.to_nat ((p - 1) * n)) l))
                 = Nat.min (Z.to_nat n)
                     (List.length l - Z.to_nat ((p - 1) * n))).
  { rewrite length_firstn, length_skipn. reflexivity. }
  split; [rewrite Hnext; apply Z.ltb_lt|].
  split; [|split].
  - intro Hlt. rewrite Hlen. nia.
  - intros ->. rewrite Hlen, Ht. nia.
  - intro Hgt.
    apply length_zero_iff_nil. rewrite Hlen. nia.
Qed.

Lemma page_sizes_witness :
  exists data pg k,
    search_flatmates Regex.fragment Regex.fragment three_listings
      second_page = Ok data pg
    /\ totalPages pg = JS.of_Z k
    /\ (hasNextPage pg = true <-> 2 < k).
Proof.
  destruct (page_sizes Regex.fragment Regex.fragment three_listings
              second_page
              (mkCquery None None None None None None None None) 2 2
              eq_refl ltac:(vm_compute; reflexivity)
              ltac:(vm_compute; reflexivity) ltac:(lia) ltac:(lia)
              ltac:(vm_compute; discriminate)
              ltac:(vm_compute; reflexivity))
    as (data & pg & k & H1 & H2 & H3 & _).
  exists data, pg, k. repeat split; try assumption; apply H3.
Defined.

End SearchMore.

(** ** Listings: what a delete leaves, my posts *)

Module PostsMore.

Import Posts Statements MoreStatements.

Lemma deleteOne_others (f g : Requirement.doc -> bool)
  (coll : list Requirement.doc) :
  (forall d, f d = true -> g d = false) ->
  filter g (deleteOne f coll) = filter g coll.
Proof.
  intro H. induction coll as [|d coll IH]; cbn [deleteOne].
  - reflexivity.
  - destruct (f d) eqn:E; cbn [filter].
    + rewrite (H d E). reflexivity.
    + rewrite IH. reflexivity.
Qed.


(** The delete of a post writes to the listings only. *)
Lemma delete_post_rest (fails : string -> bool) (s : db) (postId uid : oid) :
  let out := delete_post fails s postId uid in
  savedPosts (store out) = savedPosts s
  /\ conversations (store out) = conversations s
  /\ messages (store out) = messages s.
Proof.
  unfold delete_post.
  destruct (find (owned postId uid) (requirements s));
    [destruct (filter fails _)|]; repeat split.
Qed.


Lemma strip_prefix_app (p s rest : list ascii) :
  strip_prefix p s = Some rest -> s = p ++ rest.
Proof.
  revert s; induction p as [|a p IH]; intros s; cbn [strip_prefix].
  - intros [= <-]. reflexivity.
  - destruct s as [|b s]; [discriminate|].
    destruct (Ascii.eqb_spec a b) as [->|]; [|discriminate].
    intro H. cbn [app]. rewrite (IH _ H). reflexivity.
Qed.

Lemma take_non_dot_spec (s : list ascii) :
  ~ In "."%char (take_non_dot s)
  /\ exists rest, s = take_non_dot s ++ rest
                  /\ (rest = [] \/ exists r, rest = "."%char :: r).
Proof.
  induction s as [|c s (Hn & rest & Hs & Hr)]; cbn [take_non_dot].
  - split; [intros []|]. exists []. split; [reflexivity | left; reflexivity].
  - destruct (Ascii.eqb_spec c "."%char) as [->|Hc].
    + split; [intros []|]. exists ("."%char :: s).
      split; [reflexivity | right; eexists; reflexivity].
    + split.
      * intros [E|H]; [congruence | exact (Hn H)].
      * exists rest. split; [cbn [app]; rewrite <- Hs; reflexivity|].
        exact Hr.
Qed.

Lemma match_upload_spec (s cap : list ascii) :
  match_upload s = Some cap ->
  cap <> [] /\ ~ In "."%char cap
  /\ exists pre rest,
       s = pre ++ JS.chars folder ++ cap ++ rest
       /\ (rest = [] \/ exists r, rest = "."%char :: r).
Proof.
  assert (Here : forall s, upload_here s = Some cap ->
            cap <> [] /\ ~ In "."%char cap
            /\ exists rest,
                 s = JS.chars folder ++ cap ++ rest
                 /\ (rest = [] \/ exists r, rest = "."%char :: r)).
  { intros s0. unfold upload_here.
    destruct (strip_prefix (JS.chars folder) s0) as [rest0|] eqn:P;
      [|discriminate].
    apply strip_prefix_app in P.
    destruct (take_non_dot_spec rest0) as (Hn & rest & Hs & Hr).
    destruct (take_non_dot rest0) as [|c t] eqn:T; [discriminate|].
    intros [= <-]. split; [discriminate|]. split; [exact Hn|].
    exists rest. split; [|exact Hr]. rewrite P, Hs. reflexivity. }
  induction s as [|c s IH]; cbn [match_upload].
  - destruct (upload_here []) eqn:U; [|discriminate].
    intros [= <-]. destruct (Here _ U) as (H1 & H2 & rest & H3 & H4).
    repeat split; try assumption. exists [], rest. split; assumption.
  - destruct (upload_here (c :: s)) eqn:U.
    + intros [= <-]. destruct (Here _ U) as (H1 & H2 & rest & H3 & H4).
      repeat split; try assumption. exists [], rest. split; assumption.
    + intro H. destruct (IH H) as (H1 & H2 & pre & rest & H3 & H4).
      repeat split; try assumption.
      exists (c :: pre), rest. split; [|exact H4].
      cbn [app]. rewrite H3. reflexivity.
Qed.

Lemma destroy_calls_In (imgs : list string) (p : string) :
  In p (destroy_calls imgs) ->
  exists url, In url imgs /\ publicId url = Some p.
Proof.
  induction imgs as [|u imgs IH]; cbn [destroy_calls].
  - intros [].
  - destruct (publicId u) as [q|] eqn:E.
    + intros [<-|H].
      * exists u. split; [left; reflexivity | exact E].
      * destruct (IH H) as (url & Hin & Hp).
        exists url. split; [right; exact Hin | exact Hp].
    + intro H. destruct (IH H) as (url & Hin & Hp).
      exists url. split; [right; exact Hin | exact Hp].
Qed.

(** X6: every public id that the delete of a post asks Cloudinary to
    destroy, with or without success, comes from an image URL of the
    listing that is deleted; it is the upload folder followed by a name
    that is not empty and has no dot, the name that follows the folder
    in the URL up to the first dot or the end: the extension is never
    part of it, and an image whose URL has no such name is never sent to
    Cloudinary. *)
Theorem destroyed_ids_are_uploads (fails : string -> bool) (s : db)
  (postId uid : oid) (p : string) :
  let out := delete_post fails s postId uid in
  In p (destroyed out) \/ In (CloudinaryDeleteError p) (errors out) ->
  exists post url name,
    find (owned postId uid) (requirements s) = Some post
    /\ In url (Requirement.images post)
    /\ p = (folder ++ string_of_list_ascii name)%string
    /\ name <> [] /\ ~ In "."%char name
    /\ exists pre rest,
         JS.chars url = pre ++ JS.chars folder ++ name ++ rest
         /\ (rest = [] \/ exists r, rest = "."%char :: r).
Proof.
  intros out H.
  assert (Hc : exists post,
             find (owned postId uid) (requirements s) = Some post
             /\ In p (destroy_calls (Requirement.images post))).
  { unfold out, delete_post in H.
    destruct (find (owned postId uid) (requirements s)) as [post|];
      [|destruct H as [[]|[]]].
    exists post. split; [reflexivity|].
    destruct (filter fails (destroy_calls (Requirement.images post)))
      as [|q l] eqn:E; cbn [destroyed errors] in H.
    - destruct H as [H|[]]. exact H.
    - destruct H as [H|H].
      + apply filter_In in H. apply H.
      + apply in_app_or in H as [H|[H|[]]]; [|discriminate H].
        apply in_map_iff in H as (q' & [= ->] & Hq).
        rewrite <- E in Hq. apply filter_In in Hq. apply Hq. }
  destruct Hc as (post & Hf & Hin).
  destruct (destroy_calls_In _ _ Hin) as (url & Hu & Hp).
  unfold publicId in Hp.
  destruct (match_upload (JS.chars url)) as [cap|] eqn:M; [|discriminate].
  injection Hp as <-.
  destruct (match_upload_spec _ _ M) as (H1 & H2 & pre & rest & H3 & H4).
  exists post, url, cap. repeat split; try assumption.
  exists pre, rest. split; assumption.
Qed.

Lemma destroyed_ids_are_uploads_witness :
  exists post url name,
    find (owned 1%nat 7%nat) (requirements listings_only) = Some post
    /\ In url (Requirement.images post)
    /\ "flatmate-finder-uploads/room1"%string
       = (folder ++ string_of_list_ascii name)%string
    /\ name <> [] /\ ~ In "."%char name.
Proof.
  destruct (destroyed_ids_are_uploads never_fails listings_only 1%nat 7%nat
              "flatmate-finder-uploads/room1")
    as (post & url & name & H1 & H2 & H3 & H4 & H5 & _).
  - left. vm_compute. left. reflexivity.
  - exists post, url, name. repeat split; assumption.
Defined.

(** X7: "my posts" is the listings of the requester and no other, the
    newest first.  After a delete that succeeds, the lists of the other
    users are what they were, and, the ids being unique, the deleted id
    is in nobody's list. *)
Theorem my_posts_are_mine (s : db) (uid : oid) :
  (forall d, In d (Listings.my_posts s uid)
             <-> In d (requirements s) /\ Requirement.userId d = uid)
  /\ Sorted (fun a b => Requirement.createdAt b <= Requirement.createdAt a)
       (Listings.my_posts s uid)
  /\ forall fails postId owner,
       let out := delete_post fails s postId owner in
       (forall u, u <> owner ->
                  Listings.my_posts (store out) u = Listings.my_posts s u)
       /\ (success (resp out) = true -> unique_ids s ->
           forall u d, In d (Listings.my_posts (store out) u) ->
                       Requirement._id d <> postId).
Proof.
  split; [|split].
  - intro d. unfold Listings.my_posts. split.
    + intro H. apply sort_by_In, filter_In in H as [Hin He].
      split; [exact Hin | apply Nat.eqb_eq, He].
    + intros [Hin He].
      apply (Permutation_in d (Permutation_sym (sort_by_perm _ _))).
      apply filter_In. split; [exact Hin | apply Nat.eqb_eq, He].
  - unfold Listings.my_posts.
    pose proof (sort_by_sorted (Search.doc_le Search.CreatedDesc)
                  (SearchMore.doc_le_total Search.CreatedDesc)
                  (filter (fun d => Nat.eqb (Requirement.userId d) uid)
                     (requirements s))) as H.
    induction H as [|a l Hs IH Hh]; constructor; [exact IH|].
    destruct Hh as [|b l' Hab]; constructor. apply Z.leb_le, Hab.
  - intros fails postId owner out. split.
    + intros u Hu. unfold Listings.my_posts, out, delete_post.
      destruct (find (owned postId owner) (requirements s)) as [post|];
        [|reflexivity].
      destruct (filter fails _); cbn [store set_requirements requirements];
        [|reflexivity].
      f_equal. apply deleteOne_others.
      intros d Hd. unfold owned in Hd. apply andb_true_iff in Hd as [_ Hd].
      apply Nat.eqb_eq in Hd. apply Nat.eqb_neq. congruence.
    + intros Hok Huniq u d Hd Hid.
      unfold Listings.my_posts in Hd.
      apply sort_by_In, filter_In in Hd as [Hd _].
      unfold out, delete_post in Hok, Hd.
      destruct (find (owned postId owner) (requirements s)) as [post|] eqn:F;
        [|discriminate Hok].
      destruct (filter fails _); [|discriminate Hok].
      cbn [store set_requirements requirements] in Hd.
      destruct (PostsClaims.deleteOne_found _ _ _ F)
        as (before & after & Hc & Hdel & _).
      rewrite Hdel in Hd.
      apply find_some in F as [_ Fo]. unfold owned in Fo.
      apply andb_true_iff in Fo as [Fi _]. apply Nat.eqb_eq in Fi.
      unfold unique_ids in Huniq. rewrite Hc, map_app in Huniq.
      cbn [map] in Huniq. apply NoDup_remove_2 in Huniq.
      apply Huniq. rewrite Fi, <- Hid, <- map_app. apply in_map. exact Hd.
Qed.

Lemma my_posts_are_mine_witness :
  In pune (Listings.my_posts listings_only 7%nat)
  <-> In pune (requirements listings_only)
      /\ Requirement.userId pune = 7%nat.
Proof.
  apply (proj1 (my_posts_are_mine listings_only 7%nat) pune).
Defined.

End PostsMore.

(** ** Saved posts: unsave, check and list *)

Module SavedMoreFacts.

Import Saved SavedMore Statements MoreStatements.

Section DeleteFirst.
Context {A : Type} (f : A -> bool).

Lemma delete_first_none (l : list A) :
  find f l = None -> delete_first f l = l.
Proof.
  induction l as [|x l IH]; cbn [find delete_first].
  - reflexivity.
  - destruct (f x); [discriminate|]. intro H. rewrite (IH H). reflexivity.
Qed.

Lemma delete_first_filter (l : list A) :
  filter f (delete_first f l) = tl (filter f l).
Proof.
  induction l as [|x l IH]; cbn [delete_first filter].
  - reflexivity.
  - destruct (f x) eqn:E; cbn [filter tl].
    + reflexivity.
    + rewrite E. exact IH.
Qed.

Lemma delete_first_others (g : A -> bool) (l : list A) :
  (forall x, f x = true -> g x = false) ->
  filter g (delete_first f l) = filter g l.
Proof.
  intro H. induction l as [|x l IH]; cbn [delete_first].
  - reflexivity.
  - destruct (f x) eqn:E; cbn [filter].
    + rewrite (H x E). reflexivity.
    + rewrite IH. reflexivity.
Qed.

Lemma delete_first_In (l : list A) (x : A) :
  In x (delete_first f l) -> In x l.
Proof.
  induction l as [|y l IH]; cbn [delete_first].
  - intros [].
  - destruct (f y); [intro H; right; exact H|].
    intros [<-|H]; [left; reflexivity | right; apply IH, H].
Qed.

End DeleteFirst.

Lemma filter_nil_find {A : Type} (f : A -> bool) (l : list A) :
  filter f l = [] -> find f l = None.
Proof.
  induction l as [|x l IH]; cbn [filter find].
  - reflexivity.
  - destruct (f x); [discriminate | exact IH].
Qed.

(** X8: saving a post that exists makes "check saved" answer true; with
    at most one row for the pair, unsaving makes it answer false, so
    that a save followed by an unsave leaves the post not saved; and at
    most one row for each pair is kept by the unsave. *)
Theorem save_check_unsave (now : Z) (s : db) (uid pid : oid) :
  (exists post, In post (requirements s) /\ Requirement._id post = pid) ->
  saved_once s ->
  let saved := snd (save_post now s uid pid) in
  check_saved saved uid pid = true
  /\ check_saved (snd (unsave_post s uid pid)) uid pid = false
  /\ check_saved (snd (unsave_post saved uid pid)) uid pid = false
  /\ saved_once (snd (unsave_post s uid pid)).
Proof.
  intros (post & Hin & Hid) Hs saved.
  assert (Hun : forall t, saved_once t ->
            check_saved (snd (unsave_post t uid pid)) uid pid = false).
  { intros t Ht. unfold check_saved, unsave_post.
    cbn [snd set_savedPosts savedPosts].
    rewrite filter_nil_find; [reflexivity|].
    rewrite delete_first_filter.
    specialize (Ht uid pid). unfold rows in Ht.
    destruct (filter (same_pair uid pid) (savedPosts t)) as [|x [|y l]];
      cbn in Ht |- *; [reflexivity | reflexivity | lia]. }
  assert (Hs1 : saved_once saved).
  { intros u p. apply SavedClaims.save_post_rows. exact Hs. }
  repeat split.
  - unfold check_saved, saved, save_post.
    destruct (find_exists (fun d => Nat.eqb (Requirement._id d) pid)
                _ post Hin) as (y & Hy); [apply Nat.eqb_eq, Hid|].
    unfold findById. rewrite Hy.
    destruct (find (same_pair uid pid) (savedPosts s)) eqn:E; cbn [snd].
    + rewrite E. reflexivity.
    + cbn [set_savedPosts savedPosts]. rewrite find_app, E. cbn [find].
      rewrite SavedClaims.same_pair_new. reflexivity.
  - apply Hun, Hs.
  - apply Hun, Hs1.
  - intros u p. unfold rows, unsave_post.
    cbn [snd set_savedPosts savedPosts].
    specialize (Hs u p). unfold rows in Hs.
    destruct (Nat.eq_dec u uid) as [->|Hu];
      [destruct (Nat.eq_dec p pid) as [->|Hp]|].
    + rewrite delete_first_filter.
      destruct (filter (same_pair uid pid) (savedPosts s)); cbn in *; lia.
    + rewrite delete_first_others; [exact Hs|].
      intros x Hx. apply SavedClaims.same_pair_eq in Hx as [_ Hx].
      unfold same_pair. rewrite Hx.
      apply andb_false_iff. right. apply Nat.eqb_neq. congruence.
    + rewrite delete_first_others; [exact Hs|].
      intros x Hx. apply SavedClaims.same_pair_eq in Hx as [Hx _].
      unfold same_pair. rewrite Hx.
      apply andb_false_iff. left. apply Nat.eqb_neq. congruence.
Qed.

Lemma save_check_unsave_witness :
  let saved := snd (save_post 1700000400000 listings_only 8%nat 1%nat) in
  check_saved saved 8%nat 1%nat = true
  /\ check_saved (snd (unsave_post saved 8%nat 1%nat)) 8%nat 1%nat = false.
Proof.
  destruct (save_check_unsave 1700000400000 listings_only 8%nat 1%nat)
    as (H1 & _ & H3 & _).
  - exists bengaluru. split; [left; reflexivity | reflexivity].
  - intros u p. cbn. lia.
  - split; assumption.
Defined.

(** X9: the unsave always answers with success; it takes out one row of
    the pair, the first, and no row of another user or another post;
    when the post was not saved it changes nothing. *)
Theorem unsave_post_only_pair (s : db) (uid pid : oid) :
  let out := unsave_post s uid pid in
  Posts.success (fst out) = true
  /\ rows (snd out) uid pid = tl (rows s uid pid)
  /\ (forall u p, (u, p) <> (uid, pid) -> rows (snd out) u p = rows s u p)
  /\ (check_saved s uid pid = false -> snd out = s)
  /\ requirements (snd out) = requirements s
  /\ conversations (snd out) = conversations s
  /\ messages (snd out) = messages s.
Proof.
  cbn zeta. unfold unsave_post, rows.
  cbn [fst snd Posts.success set_savedPosts savedPosts requirements
       conversations messages].
  repeat split.
  - apply delete_first_filter.
  - intros u p Hne. apply delete_first_others.
    intros x Hx. apply SavedClaims.same_pair_eq in Hx as [Hu Hp].
    destruct (same_pair u p x) eqn:E; [|reflexivity].
    apply SavedClaims.same_pair_eq in E as [Hu' Hp']. congruence.
  - unfold check_saved.
    destruct (find (same_pair uid pid) (savedPosts s)) eqn:E;
      [discriminate|].
    intros _. rewrite (delete_first_none _ _ E). destruct s; reflexivity.
Qed.

(** User 8 has saved nothing: the unsave is a success that changes
    nothing. *)
Lemma unsave_post_only_pair_witness :
  Posts.success (fst (unsave_post listings_only 8%nat 1%nat)) = true
  /\ snd (unsave_post listings_only 8%nat 1%nat) = listings_only.
Proof.
  destruct (unsave_post_only_pair listings_only 8%nat 1%nat)
    as (H1 & _ & _ & H4 & _).
  split; [exact H1 | apply H4; reflexivity].
Defined.

Lemma flat_map_option_In {A B : Type} (f : A -> option B) (l : list A)
  (y : B) :
  In y (flat_map (fun x => match f x with Some b => [b] | None => [] end) l)
  <-> exists x, In x l /\ f x = Some y.
Proof.
  rewrite in_flat_map. split.
  - intros (x & Hx & Hy). exists x. split; [exact Hx|].
    destruct (f x); [destruct Hy as [->|[]]; reflexivity | destruct Hy].
  - intros (x & Hx & Hy). exists x. split; [exact Hx|].
    rewrite Hy. left. reflexivity.
Qed.

Lemma findById_unique (coll : list Requirement.doc) (d : Requirement.doc) :
  NoDup (map Requirement._id coll) -> In d coll ->
  findById (Requirement._id d) coll = Some d.
Proof.
  unfold findById. induction coll as [|x coll IH]; intros Hu Hin.
  - destruct Hin.
  - cbn [find]. cbn [map] in Hu. inversion Hu as [|? ? Hnot Hu']; subst.
    destruct Hin as [->|Hin].
    + rewrite Nat.eqb_refl. reflexivity.
    + destruct (Nat.eqb_spec (Requirement._id x) (Requirement._id d)) as [E|_].
      * exfalso. apply Hnot. rewrite E. apply in_map. exact Hin.
      * apply IH; assumption.
Qed.

(** X10: the list of saved posts holds only listings that exist and that
    the user has a row for; the ids being unique, it holds every such
    listing.  The delete of a listing keeps the rows that point at it:
    "check saved" answers as before, but the listing is no longer in
    anybody's list of saved posts. *)
Theorem saved_posts_exist (s : db) (uid : oid) :
  (forall d, In d (saved_posts s uid) ->
             In d (requirements s)
             /\ check_saved s uid (Requirement._id d) = true)
  /\ (unique_ids s ->
      forall d, In d (requirements s) ->
                check_saved s uid (Requirement._id d) = true ->
                In d (saved_posts s uid))
  /\ forall fails postId owner,
       let out := Posts.delete_post fails s postId owner in
       (forall u p, check_saved (Posts.store out) u p = check_saved s u p)
       /\ (Posts.success (Posts.resp out) = true -> unique_ids s ->
           forall u d, In d (saved_posts (Posts.store out) u) ->
                       Requirement._id d <> postId).
Proof.
  assert (Hsound : forall t d, In d (saved_posts t uid) ->
            In d (requirements t)
            /\ check_saved t uid (Requirement._id d) = true).
  { intros t d H. unfold saved_posts in H.
    apply flat_map_option_In in H as (sp & Hsp & Hd).
    apply sort_by_In, filter_In in Hsp as [Hin Hu].
    unfold populate_post, findById in Hd.
    apply find_some in Hd as [Hd Hi].
    split; [exact Hd|].
    unfold check_saved.
    destruct (find_exists (same_pair uid (Requirement._id d)) _ sp Hin)
      as (y & ->); [|reflexivity].
    unfold same_pair. rewrite Hu. cbn [andb].
    apply Nat.eqb_eq. apply Nat.eqb_eq in Hi. congruence. }
  split; [apply Hsound|]. split.
  - intros Hu d Hin Hc. unfold saved_posts.
    apply flat_map_option_In. unfold check_saved in Hc.
    destruct (find (same_pair uid (Requirement._id d)) (savedPosts s))
      as [sp|] eqn:E; [|discriminate].
    apply find_some in E as [Hsp Hp].
    apply SavedClaims.same_pair_eq in Hp as [Hp1 Hp2].
    exists sp. split.
    + apply (Permutation_in sp (Permutation_sym (sort_by_perm _ _))).
      apply filter_In. split; [exact Hsp | apply Nat.eqb_eq, Hp1].
    + unfold populate_post. rewrite Hp2.
      apply findById_unique; assumption.
  - intros fails postId owner out.
    destruct (PostsMore.delete_post_rest fails s postId owner)
      as (Hsaved & _).
    fold out in Hsaved. split.
    + intros u p. unfold check_saved. rewrite Hsaved. reflexivity.
    + intros Hok Huniq u d Hd Hid.
      unfold saved_posts in Hd.
      apply flat_map_option_In in Hd as (sp & _ & Hd).
      unfold populate_post, findById in Hd.
      apply find_some in Hd as [Hd _].
      unfold out, Posts.delete_post in Hok, Hd.
      destruct (find (Posts.owned postId owner) (requirements s))
        as [post|] eqn:F; [|discriminate Hok].
      destruct (filter fails _); [|discriminate Hok].
      cbn [Posts.store Posts.set_requirements requirements] in Hd.
      destruct (PostsClaims.deleteOne_found _ _ _ F)
        as (before & after & Hc & Hdel & _).
      rewrite Hdel in Hd.
      apply find_some in F as [_ Fo]. unfold Posts.owned in Fo.
      apply andb_true_iff in Fo as [Fi _]. apply Nat.eqb_eq in Fi.
      unfold unique_ids in Huniq. rewrite Hc, map_app in Huniq.
      cbn [map] in Huniq. apply NoDup_remove_2 in Huniq.
      apply Huniq. rewrite Fi, <- Hid, <- map_app. apply in_map. exact Hd.
Qed.

Lemma saved_posts_exist_witness :
  let saved := snd (save_post 1700000400000 listings_only 8%nat 1%nat) in
  In bengaluru (saved_posts saved 8%nat)
  /\ In bengaluru (requirements saved)
  /\ check_saved saved 8%nat (Requirement._id bengaluru) = true.
Proof.
  intro saved.
  assert (H : In bengaluru (saved_posts saved 8%nat)).
  { vm_compute. left. reflexivity. }
  split; [exact H|].
  exact (proj1 (saved_posts_exist saved 8%nat) bengaluru H).
Defined.

End SavedMoreFacts.

(** ** Messages and conversations over time *)

Module ChatMoreFacts.

Import Chat ChatMore Statements MoreStatements.

Lemma unread_for_marked (conversationId u : oid) (m : Message.doc) :
  unread_for conversationId u (mark_read m) = false.
Proof.
  unfold unread_for. cbn [mark_read Message.read negb].
  apply andb_false_r.
Qed.

Lemma updateMany_twice (conversationId u : oid) (ms : list Message.doc) :
  updateMany (unread_for conversationId u)
    (updateMany (unread_for conversationId u) ms)
  = updateMany (unread_for conversationId u) ms.
Proof.
  unfold updateMany. rewrite map_map. apply map_ext. intro m.
  destruct (unread_for conversationId u m) eqn:E.
  - rewrite unread_for_marked. reflexivity.
  - rewrite E. reflexivity.
Qed.

(** X11: listing the messages a second time changes nothing more: the
    database after two listings by the same user is the database after
    one, and the second answer shows every message of the conversation
    that is addressed to that user as read. *)
Theorem list_messages_twice (s : db) (conversationId u : oid) :
  let once := snd (list_messages s conversationId u) in
  snd (list_messages once conversationId u) = once
  /\ forall found,
       fst (list_messages once conversationId u) = List200 found ->
       forall m, In m found -> Message.receiverId m = u ->
                 Message.read m = true.
Proof.
  cbn zeta. unfold list_messages.
  destruct (find (member conversationId u) (conversations s)) as [c|] eqn:F;
    cbn [snd].
  - cbn [set_messages conversations messages next_id]. rewrite F.
    cbn [fst snd set_messages messages conversations requirements
         savedPosts next_id].
    split.
    + rewrite updateMany_twice. reflexivity.
    + intros found [= <-] m Hm Hr.
      apply sort_by_In, filter_In in Hm as [Hm Hc].
      apply (ChatClaims.updateMany_read conversationId u (messages s) m Hm);
        [apply Nat.eqb_eq, Hc | exact Hr].
  - rewrite F. cbn [fst snd]. split; [reflexivity | discriminate].
Qed.

Lemma list_messages_twice_witness :
  snd (list_messages (snd (list_messages with_message 50%nat 8%nat))
         50%nat 8%nat)
  = snd (list_messages with_message 50%nat 8%nat).
Proof.
  exact (proj1 (list_messages_twice with_message 50%nat 8%nat)).
Defined.

Lemma send_message_cases (now : Z) (s : db)
  (senderId conversationId receiverId : oid) (text : string) :
  participant s conversationId senderId -> text <> EmptyString ->
  let m := {| Message._id := next_id s;
              Message.conversationId := conversationId;
              Message.senderId := senderId;
              Message.receiverId := receiverId;
              Message.message := text;
              Message.read := false;
              Message.createdAt := now |} in
  send_message now s senderId conversationId receiverId text
  = (Send200 m,
     {| requirements := requirements s;
        savedPosts := savedPosts s;
        conversations :=
          findByIdAndUpdate conversationId (substring 0 100 text) now
            (conversations s);
        messages := messages s ++ [m];
        next_id := S (next_id s) |}).
Proof.
  intros Hp Ht m.
  apply ChatClaims.member_participant in Hp as (c & F).
  unfold send_message. rewrite F.
  assert (R : required text = true).
  { unfold required. apply negb_true_iff, String.eqb_neq, Ht. }
  rewrite R. reflexivity.
Qed.

Lemma list_messages_ok (s : db) (conversationId u : oid) :
  participant s conversationId u ->
  list_messages s conversationId u
  = (List200
       (sort_by older (filter (in_conversation conversationId) (messages s))),
     set_messages s
       (updateMany (unread_for conversationId u) (messages s)) (next_id s)).
Proof.
  intro Hp. apply ChatClaims.member_participant in Hp as (c & F).
  unfold list_messages. rewrite F. reflexivity.
Qed.

Lemma participant_ext (s s' : db) (conversationId u : oid) :
  (forall c, In c (conversations s) ->
             member conversationId u c = true ->
             exists c', In c' (conversations s')
                        /\ member conversationId u c' = true) ->
  participant s conversationId u -> participant s' conversationId u.
Proof.
  intros H Hp. apply ChatClaims.member_participant in Hp as (c & F).
  apply find_some in F as [Hin Hm].
  destruct (H c Hin Hm) as (c' & Hin' & Hm').
  apply ChatClaims.member_participant.
  exact (find_exists _ _ c' Hin' Hm').
Qed.

(** X12: a participant sends a text that is not empty to another
    participant; the receiver lists the messages of the conversation;
    when the sender lists them afterwards, the message is in the answer
    and is shown as read. *)
Theorem sent_then_read (now : Z) (s : db)
  (senderId conversationId receiverId : oid) (text : string) :
  participant s conversationId senderId ->
  participant s conversationId receiverId ->
  text <> EmptyString ->
  let sent := snd (send_message now s senderId conversationId receiverId
                     text) in
  let seen := snd (list_messages sent conversationId receiverId) in
  exists found m,
    fst (list_messages seen conversationId senderId) = List200 found
    /\ In m found
    /\ Message._id m = next_id s
    /\ Message.senderId m = senderId
    /\ Message.receiverId m = receiverId
    /\ Message.message m = text
    /\ Message.read m = true.
Proof.
  intros Hs Hr Ht sent seen.
  pose proof (send_message_cases now s senderId conversationId receiverId
                text Hs Ht) as E. cbn zeta in E.
  set (m := {| Message._id := next_id s;
               Message.conversationId := conversationId;
               Message.senderId := senderId;
               Message.receiverId := receiverId;
               Message.message := text;
               Message.read := false;
               Message.createdAt := now |}) in *.
  assert (Hkeep : forall u, participant s conversationId u ->
                            participant sent conversationId u).
  { intro u. apply participant_ext. intros c Hin Hm.
    unfold sent. rewrite E. cbn [snd conversations].
    apply ChatClaims.findByIdAndUpdate_member. exists c. split; assumption. }
  assert (Hm : messages sent = messages s ++ [m]).
  { unfold sent. rewrite E. reflexivity. }
  assert (Eseen : seen
                  = set_messages sent
                      (updateMany (unread_for conversationId receiverId)
                         (messages sent)) (next_id sent)).
  { unfold seen. rewrite (list_messages_ok _ _ _ (Hkeep _ Hr)). reflexivity. }
  assert (Hs2 : participant seen conversationId senderId).
  { apply (participant_ext sent); [|apply Hkeep, Hs].
    intros c Hin Hc. exists c. split; [|exact Hc].
    rewrite Eseen. exact Hin. }
  rewrite (list_messages_ok _ _ _ Hs2). cbn [fst].
  exists (sort_by older
            (filter (in_conversation conversationId) (messages seen))),
    (mark_read m).
  split; [reflexivity|]. split; [|repeat split].
  apply (Permutation_in _ (Permutation_sym (sort_by_perm _ _))).
  apply filter_In. split.
  - rewrite Eseen. cbn [set_messages messages]. rewrite Hm.
    unfold updateMany. rewrite map_app. apply in_or_app. right.
    cbn [map]. left.
    unfold unread_for, in_conversation, m.
    cbn [Message.conversationId Message.receiverId Message.read].
    rewrite !Nat.eqb_refl. reflexivity.
  - unfold in_conversation, m. cbn. apply Nat.eqb_refl.
Qed.

Lemma sent_then_read_witness :
  exists found m,
    fst (list_messages
           (snd (list_messages
                   (snd (send_message 1700000900000 with_chat 7%nat 50%nat
                           8%nat "hello")) 50%nat 8%nat))
           50%nat 7%nat) = List200 found
    /\ In m found /\ Message.message m = "hello"%string
    /\ Message.read m = true.
Proof.
  destruct (sent_then_read 1700000900000 with_chat 7%nat 50%nat 8%nat
              "hello") as (found & m & H1 & H2 & _ & _ & _ & H3 & H4).
  - exists asha_and_ravi. split; [left; reflexivity|].
    split; [reflexivity | left; reflexivity].
  - exists asha_and_ravi. split; [left; reflexivity|].
    split; [reflexivity | right; left; reflexivity].
  - discriminate.
  - exists found, m. repeat split; assumption.
Defined.

Lemma same_but_read_refl (ms : list Message.doc) :
  Forall2 same_but_read ms ms.
Proof.
  induction ms; constructor; [left; reflexivity | assumption].
Qed.

Lemma keeps_messages_refl (ms : list Message.doc) : keeps_messages ms ms.
Proof.
  exists ms, []. split; [symmetry; apply app_nil_r|].
  apply same_but_read_refl.
Qed.

Lemma mark_read_twice (m : Message.doc) :
  mark_read (mark_read m) = mark_read m.
Proof. reflexivity. Qed.

Lemma same_but_read_trans (a b c : list Message.doc) :
  Forall2 same_but_read a b -> Forall2 same_but_read b c ->
  Forall2 same_but_read a c.
Proof.
  intro H. revert c. induction H as [|x y a b Hxy _ IH]; intros c Hc.
  - inversion Hc. constructor.
  - inversion Hc as [|? z ? c' Hyz Hbc]; subst. constructor.
    + destruct Hxy as [-> | ->]; [exact Hyz|].
      destruct Hyz as [-> | ->]; right; reflexivity.
    + apply IH, Hbc.
Qed.

Lemma keeps_messages_trans (a b c : list Message.doc) :
  keeps_messages a b -> keeps_messages b c -> keeps_messages a c.
Proof.
  intros (k1 & e1 & -> & H1) (k2 & e2 & -> & H2).
  apply Forall2_app_inv_l in H2 as (k2a & k2b & Ha & Hb & ->).
  exists k2a, (k2b ++ e2). split; [symmetry; apply app_assoc|].
  eapply same_but_read_trans; eassumption.
Qed.

Lemma handle_keeps_messages (s : db) (rq : Server.request) :
  keeps_messages (messages s) (messages (Server.handle s rq)).
Proof.
  destruct rq; cbn [Server.handle].
  - destruct (PostsMore.delete_post_rest fails s postId uid)
      as (_ & _ & ->). apply keeps_messages_refl.
  - unfold Saved.save_post.
    destruct (Saved.findById _ _); [destruct (find _ _)|];
      apply keeps_messages_refl.
  - unfold create_conversation.
    destruct (Nat.eqb _ _); [|destruct (find _ _)];
      apply keeps_messages_refl.
  - unfold list_messages.
    destruct (find _ _); cbn [snd]; [|apply keeps_messages_refl].
    cbn [set_messages messages].
    exists (updateMany (unread_for conversationId uid) (messages s)), [].
    split; [symmetry; apply app_nil_r|].
    unfold updateMany.
    induction (messages s) as [|m ms IH]; cbn [map]; constructor;
      [|exact IH].
    destruct (unread_for conversationId uid m);
      [right | left]; reflexivity.
  - unfold send_message.
    destruct (find _ _); [destruct (required _)|]; cbn [snd];
      try apply keeps_messages_refl.
    cbn [messages]. eexists. eexists. split; [reflexivity|].
    apply same_but_read_refl.
Qed.

(** X13: whatever requests the server handles, no message is deleted,
    moved or rewritten: the collection of messages after the requests is
    the collection before them, each message as it was or marked read,
    followed by the messages that were sent since. *)
Theorem messages_are_kept (s : db) (rqs : list Server.request) :
  keeps_messages (messages s) (messages (Server.serve s rqs)).
Proof.
  unfold Server.serve. revert s.
  induction rqs as [|rq rqs IH]; intro s; cbn [fold_left].
  - apply keeps_messages_refl.
  - eapply keeps_messages_trans; [apply handle_keeps_messages | apply IH].
Qed.

Lemma substring_prefix (n : nat) (s : string) :
  String.prefix (substring 0 n s) s = true
  /\ (String.length (substring 0 n s) <= n)%nat.
Proof.
  revert s; induction n as [|n IH]; intros [|c s]; cbn; try tauto;
    try (split; [reflexivity | lia]).
  destruct (IH s) as [Hp Hl]. rewrite Hp.
  destruct (ascii_dec c c); [|congruence]. split; [reflexivity | lia].
Qed.

Lemma findByIdAndUpdate_spec (conversationId : oid) (text : string)
  (now : Z) (cs : list Conversation.doc) :
  (exists before c after,
      cs = before ++ c :: after
      /\ Conversation._id c = conversationId
      /\ (forall x, In x before -> Conversation._id x <> conversationId)
      /\ findByIdAndUpdate conversationId (substring 0 100 text) now cs
         = before ++ preview text now c :: after)
  \/ ((forall x, In x cs -> Conversation._id x <> conversationId)
      /\ findByIdAndUpdate conversationId (substring 0 100 text) now cs = cs).
Proof.
  induction cs as [|x cs IH]; cbn [findByIdAndUpdate].
  - right. split; [intros ? [] | reflexivity].
  - destruct (Nat.eqb_spec (Conversation._id x) conversationId) as [E|E].
    + left. exists [], x, cs. repeat split; [exact E | intros ? []].
    + destruct IH as [(before & c & after & -> & Hc & Hb & ->)|(Hn & ->)].
      * left. exists (x :: before), c, after. repeat split; [exact Hc|].
        intros y [<-|Hy]; [exact E | apply Hb, Hy].
      * right. split; [|reflexivity].
        intros y [<-|Hy]; [exact E | apply Hn, Hy].
Qed.

(** X14: a message that is sent changes one conversation, the first of
    the given id: its [lastMessageTime] becomes the time of the send and
    its [lastMessage] the preview of the text, which for a text in ASCII
    is its first 100 characters; its id, its participants, its
    [createdAt] and every other conversation stay as they were. *)
Theorem send_message_preview (now : Z) (s : db)
  (senderId conversationId receiverId : oid) (text : string) :
  let out := send_message now s senderId conversationId receiverId text in
  forall m, fst out = Send200 m ->
    exists before c c' after,
      conversations s = before ++ c :: after
      /\ Conversation._id c = conversationId
      /\ (forall x, In x before -> Conversation._id x <> conversationId)
      /\ conversations (snd out) = before ++ c' :: after
      /\ Conversation._id c' = Conversation._id c
      /\ Conversation.participants c' = Conversation.participants c
      /\ Conversation.createdAt c' = Conversation.createdAt c
      /\ Conversation.lastMessageTime c' = now
      /\ (JS.ascii_only text = true ->
          Conversation.lastMessage c' = substring 0 100 text
          /\ String.prefix (Conversation.lastMessage c') text = true
          /\ (String.length (Conversation.lastMessage c') <= 100)%nat).
Proof.
  cbn zeta. unfold send_message.
  destruct (find (member conversationId senderId) (conversations s))
    as [c0|] eqn:F; [|discriminate].
  destruct (required text); cbn [fst snd conversations]; [|discriminate].
  intros m _.
  destruct (findByIdAndUpdate_spec conversationId text now
              (conversations s))
    as [(before & c & after & Hc & Hi & Hb & Hu)|(Hn & _)].
  - exists before, c, (preview text now c), after.
    repeat split; try assumption; apply substring_prefix.
  - exfalso. apply find_some in F as [Hin Hm].
    unfold member in Hm. apply andb_true_iff in Hm as [Hm _].
    apply Nat.eqb_eq in Hm. exact (Hn c0 Hin Hm).
Qed.

Lemma send_message_preview_witness :
  exists before c c' after,
    conversations with_chat = before ++ c :: after
    /\ conversations
         (snd (send_message 1700000900000 with_chat 7%nat 50%nat 8%nat
                 "hello"))
       = before ++ c' :: after
    /\ Conversation.lastMessageTime c' = 1700000900000
    /\ Conversation.lastMessage c' = "hello"%string.
Proof.
  destruct (send_message_preview 1700000900000 with_chat 7%nat
              50%nat 8%nat "hello" _ eq_refl)
    as (before & c & c' & after & H1 & _ & _ & H2 & _ & _ & _ & H3 & H4).
  exists before, c, c', after.
  split; [exact H1|]. split; [exact H2|]. split; [exact H3|].
  exact (proj1 (H4 eq_refl)).
Defined.

Lemma populate_In (users : list User.doc) (ids : list oid) (p : profile) :
  In p (populate users ids) ->
  In (p_id p) ids
  /\ exists u, In u users /\ p = profile_of u.
Proof.
  unfold populate. intro H.
  apply in_flat_map in H as (id & Hid & Hp).
  destruct (findUser users id) as [u|] eqn:E; [|destruct Hp].
  destruct Hp as [<-|[]].
  apply find_some in E as [Hu Hi]. apply Nat.eqb_eq in Hi. split.
  - cbn [p_id]. rewrite Hi. exact Hid.
  - exists u. split; [exact Hu | reflexivity].
Qed.

Lemma Sorted_map {A B : Type} (f : A -> B) (R : A -> A -> Prop)
  (R' : B -> B -> Prop) (l : list A) :
  (forall a b, R a b -> R' (f a) (f b)) ->
  Sorted R l -> Sorted R' (map f l).
Proof.
  intros H Hs. induction Hs as [|a l Hs IH Hh]; cbn [map]; constructor.
  - exact IH.
  - destruct Hh as [|b l' Hab]; constructor. apply H, Hab.
Qed.

Lemma recent_first_total (a b : Conversation.doc) :
  recent_first a b = true \/ recent_first b a = true.
Proof. unfold recent_first. rewrite !Z.leb_le. lia. Qed.

(** X15: the list of conversations of a user has an entry for each
    conversation that has the user among its participants and for no
    other, the conversation of the latest message first.  The
    [otherUser] of an entry, when there is one, is the profile of a user
    that exists, is a participant and is not the requester; for a
    conversation of two users who both exist it is the other one, for
    each of them, and when the other user does not exist there is no
    [otherUser]. *)
Theorem list_conversations_entries (users : list User.doc) (s : db)
  (uid : oid) :
  (forall e, In e (list_conversations users s uid) ->
     exists c,
       In c (conversations s) /\ In uid (Conversation.participants c)
       /\ e_id e = Conversation._id c
       /\ e_lastMessage e = Conversation.lastMessage c
       /\ e_lastMessageTime e = Conversation.lastMessageTime c
       /\ otherUser e = other users uid c)
  /\ (forall c, In c (conversations s) ->
                In uid (Conversation.participants c) ->
                exists e, In e (list_conversations users s uid)
                          /\ e_id e = Conversation._id c)
  /\ Sorted (fun a b => e_lastMessageTime b <= e_lastMessageTime a)
       (list_conversations users s uid)
  /\ (forall c p, other users uid c = Some p ->
        p_id p <> uid /\ In (p_id p) (Conversation.participants c)
        /\ exists u, In u users /\ p = profile_of u)
  /\ (forall c a b ua ub,
        Conversation.participants c = [a; b] -> a <> b ->
        findUser users a = Some ua -> findUser users b = Some ub ->
        other users a c = Some (profile_of ub)
        /\ other users b c = Some (profile_of ua))
  /\ (forall c a b,
        Conversation.participants c = [a; b] ->
        findUser users b = None -> other users a c = None).
Proof.
  split; [|split; [|split; [|split; [|split]]]].
  - intros e H. unfold list_conversations in H.
    apply in_map_iff in H as (c & <- & Hc).
    apply sort_by_In, filter_In in Hc as [Hin Hu].
    exists c. repeat split; [exact Hin | apply ChatClaims.has_In, Hu].
  - intros c Hin Hu. eexists. split.
    + unfold list_conversations. apply in_map.
      apply (Permutation_in c (Permutation_sym (sort_by_perm _ _))).
      apply filter_In. split; [exact Hin | apply ChatClaims.has_In, Hu].
    + reflexivity.
  - unfold list_conversations.
    apply (Sorted_map _ (fun a b => recent_first a b = true)).
    + intros a b H. cbn [e_lastMessageTime]. apply Z.leb_le, H.
    + apply sort_by_sorted, recent_first_total.
  - intros c p H. unfold other in H. apply find_some in H as [Hin Hne].
    apply populate_In in Hin as [Hid Hu].
    split; [|split; assumption].
    apply negb_true_iff, Nat.eqb_neq in Hne. exact Hne.
  - intros c a b ua ub Hp Hab Ha Hb. unfold other, populate.
    rewrite Hp. cbn [flat_map]. rewrite Ha, Hb. cbn [app find p_id].
    pose proof Ha as Ha'. pose proof Hb as Hb'.
    apply find_some in Ha' as [_ Ea]. apply find_some in Hb' as [_ Eb].
    apply Nat.eqb_eq in Ea. apply Nat.eqb_eq in Eb.
    rewrite Ea, Eb, !Nat.eqb_refl. cbn [negb].
    destruct (Nat.eqb_spec b a) as [E|_]; [congruence|].
    destruct (Nat.eqb_spec a b) as [E|_]; [congruence|].
    cbn [negb]. unfold profile_of. rewrite Ea, Eb. split; reflexivity.
  - intros c a b Hp Hb. unfold other, populate.
    rewrite Hp. cbn [flat_map]. rewrite Hb. cbn [app].
    destruct (findUser users a) as [ua|] eqn:Ha; [|reflexivity].
    apply find_some in Ha as [_ Ea]. apply Nat.eqb_eq in Ea.
    cbn [app find p_id]. rewrite Ea, Nat.eqb_refl. reflexivity.
Qed.

Lemma list_conversations_entries_witness :
  other [asha; ravi] 7%nat asha_and_ravi = Some (profile_of ravi)
  /\ other [asha; ravi] 8%nat asha_and_ravi = Some (profile_of asha).
Proof.
  apply (proj1 (proj2 (proj2 (proj2 (proj2
           (list_conversations_entries [asha; ravi] with_chat 7%nat)))))
           asha_and_ravi 7%nat 8%nat asha ravi eq_refl).
  - discriminate.
  - reflexivity.
  - reflexivity.
Defined.

Lemma insert_under_head (x y : Conversation.doc)
  (l : list Conversation.doc) :
  recent_first y x = false ->
  insert_sorted recent_first y (x :: l)
  = x :: insert_sorted recent_first y l.
Proof. intro H. cbn [insert_sorted]. rewrite H. reflexivity. Qed.

(** The conversation of the latest message comes first, wherever it is
    in the collection. *)
Lemma sort_latest_first (l1 l2 : list Conversation.doc)
  (x : Conversation.doc) :
  (forall y, In y (l1 ++ l2) ->
             Conversation.lastMessageTime y
             < Conversation.lastMessageTime x) ->
  sort_by recent_first (l1 ++ x :: l2)
  = x :: sort_by recent_first (l1 ++ l2).
Proof.
  induction l1 as [|y l1 IH]; intro H; cbn [app sort_by].
  - destruct (sort_by recent_first l2) as [|z l] eqn:E; [reflexivity|].
    cbn [insert_sorted].
    assert (Hz : In z l2).
    { apply (sort_by_In recent_first). rewrite E. left. reflexivity. }
    unfold recent_first at 1.
    destruct (Z.leb_spec (Conversation.lastMessageTime z)
                (Conversation.lastMessageTime x)); [reflexivity|].
    specialize (H z Hz). lia.
  - rewrite IH by (intros z Hz; apply H; right; exact Hz).
    apply insert_under_head. unfold recent_first.
    apply Z.leb_gt. apply H. left. reflexivity.
Qed.

Lemma same_id_same (cs : list Conversation.doc) (a b : Conversation.doc) :
  NoDup (map Conversation._id cs) -> In a cs -> In b cs ->
  Conversation._id a = Conversation._id b -> a = b.
Proof.
  induction cs as [|c cs IH]; intros Hu Ha Hb E; [destruct Ha|].
  cbn [map] in Hu. inversion Hu as [|? ? Hn Hu']; subst.
  destruct Ha as [->|Ha], Hb as [->|Hb].
  - reflexivity.
  - exfalso. apply Hn. rewrite E. apply in_map, Hb.
  - exfalso. apply Hn. rewrite <- E. apply in_map, Ha.
  - apply IH; assumption.
Qed.

(** X16: the conversations having different ids, when a message is sent
    at a time later than every [lastMessageTime], the conversation of the
    message is the first entry of the list of conversations of each of
    its participants, with the time of the send as its [lastMessageTime]
    and, for a text in ASCII, the first 100 characters of the text as its
    [lastMessage]. *)
Theorem sent_conversation_first (users : list User.doc) (now : Z) (s : db)
  (senderId conversationId receiverId : oid) (text : string) (u : oid) :
  participant s conversationId senderId ->
  text <> EmptyString ->
  participant s conversationId u ->
  NoDup (map Conversation._id (conversations s)) ->
  (forall c, In c (conversations s) -> Conversation.lastMessageTime c < now) ->
  let sent := snd (send_message now s senderId conversationId receiverId
                     text) in
  exists e rest,
    list_conversations users sent u = e :: rest
    /\ e_id e = conversationId
    /\ e_lastMessageTime e = now
    /\ (JS.ascii_only text = true ->
        e_lastMessage e = substring 0 100 text).
Proof.
  intros Hs Ht (cu & Hcu & Hid & Hu) Huniq Hold sent.
  pose proof (send_message_cases now s senderId conversationId receiverId
                text Hs Ht) as E. cbn zeta in E.
  destruct (findByIdAndUpdate_spec conversationId text now (conversations s))
    as [(before & c & after & Hc & Hi & Hb & Hupd)|(Hn & _)];
    [|exfalso; exact (Hn cu Hcu Hid)].
  assert (Ec : cu = c).
  { apply (same_id_same (conversations s)); try assumption.
    - rewrite Hc. apply in_or_app. right. left. reflexivity.
    - congruence. }
  subst cu.
  unfold list_conversations, sent. rewrite E. cbn [snd conversations].
  rewrite Hupd, filter_app. cbn [filter].
  assert (Hh : has u (preview text now c) = true).
  { apply ChatClaims.has_In. exact Hu. }
  rewrite Hh, sort_latest_first.
  - cbn [map]. eexists. eexists. split; [reflexivity|].
    cbn [e_id e_lastMessage e_lastMessageTime preview Conversation._id
         Conversation.lastMessage Conversation.lastMessageTime].
    repeat split. exact Hi.
  - intros y Hy. cbn [preview Conversation.lastMessageTime].
    apply Hold. rewrite Hc.
    apply in_app_or in Hy as [Hy|Hy]; apply filter_In in Hy as [Hy _];
      apply in_or_app; [left | right; right]; exact Hy.
Qed.

Lemma sent_conversation_first_witness :
  exists e rest,
    list_conversations [asha; ravi]
      (snd (send_message 1700000900000 with_chat 7%nat 50%nat 8%nat "hello"))
      8%nat = e :: rest
    /\ e_id e = 50%nat /\ e_lastMessage e = "hello"%string.
Proof.
  destruct (sent_conversation_first [asha; ravi] 1700000900000 with_chat
              7%nat 50%nat 8%nat "hello" 8%nat)
    as (e & rest & H1 & H2 & _ & H3).
  - exists asha_and_ravi. split; [left; reflexivity|].
    split; [reflexivity | left; reflexivity].
  - discriminate.
  - exists asha_and_ravi. split; [left; reflexivity|].
    split; [reflexivity | right; left; reflexivity].
  - cbn. repeat constructor. intros [].
  - intros c [<-|[]]. cbn. lia.
  - exists e, rest. split; [exact H1|]. split; [exact H2|].
    exact (H3 eq_refl).
Defined.

End ChatMoreFacts.

(** ** Accounts: profile, e-mail code and login *)

Module AccountsFacts.

Import Accounts Statements MoreStatements.

Section UpdateFirst.
Context {A : Type} (f : A -> bool) (g : A -> A).

Lemma update_first_length (l : list A) :
  List.length (update_first f g l) = List.length l.
Proof.
  induction l as [|x l IH]; cbn [update_first]; [reflexivity|].
  destruct (f x); cbn [List.length]; [reflexivity|].
  rewrite IH. reflexivity.
Qed.

Lemma update_first_map {B : Type} (h : A -> B) (l : list A) :
  (forall x, h (g x) = h x) ->
  map h (update_first f g l) = map h l.
Proof.
  intro H. induction l as [|x l IH]; cbn [update_first]; [reflexivity|].
  destruct (f x); cbn [map]; [rewrite H | rewrite IH]; reflexivity.
Qed.

Lemma update_first_others (k : A -> bool) (l : list A) :
  (forall x, f x = true -> k x = false) ->
  (forall x, f x = true -> k (g x) = false) ->
  filter k (update_first f g l) = filter k l.
Proof.
  intros H1 H2. induction l as [|x l IH]; cbn [update_first];
    [reflexivity|].
  destruct (f x) eqn:E; cbn [filter].
  - rewrite (H1 x E), (H2 x E). reflexivity.
  - rewrite IH. reflexivity.
Qed.

Lemma update_first_find (l : list A) :
  (forall x, f (g x) = f x) ->
  find f (update_first f g l) = option_map g (find f l).
Proof.
  intro H. induction l as [|x l IH]; cbn [update_first find];
    [reflexivity|].
  destruct (f x) eqn:E; cbn [find].
  - rewrite H, E. reflexivity.
  - rewrite E. exact IH.
Qed.

End UpdateFirst.

Lemma findById_by_id (l : list User.doc) (id : oid) :
  findById l id = find (by_id id) l.
Proof. reflexivity. Qed.

Lemma truthy_Some (p : option string) (s : string) :
  JS.truthy p = Some s -> p = Some s /\ s <> EmptyString.
Proof.
  destruct p as [[|c t]|]; cbn; try discriminate.
  intros [= <-]. split; [reflexivity | discriminate].
Qed.

(** X17: an update of the profile that does not succeed changes
    neither the users nor the session.  It is refused with status 400
    when one of the five fields is missing or empty, and when the age is
    read by [parseInt] as [NaN], as an infinity or as an integer below
    18 or above 100. *)
Theorem update_profile_refused (users : list User.doc) (sess : session)
  (fullname phone age gender occupation : option string) :
  let out := update_profile users sess fullname phone age gender
               occupation in
  (p_success (fst (fst out)) = false ->
   snd (fst out) = users /\ snd out = sess)
  /\ (JS.truthy fullname = None \/ JS.truthy phone = None
      \/ JS.truthy age = None \/ JS.truthy gender = None
      \/ JS.truthy occupation = None ->
      out = (refused 400 "All fields are required", users, sess))
  /\ (forall f p a g o,
        JS.truthy fullname = Some f -> JS.truthy phone = Some p ->
        JS.truthy age = Some a -> JS.truthy gender = Some g ->
        JS.truthy occupation = Some o ->
        (JS.parseInt a = JS.NaN \/ JS.parseInt a = JS.PInf
         \/ JS.parseInt a = JS.NInf
         \/ exists z, JS.parseInt a = JS.of_Z z /\ (z < 18 \/ 100 < z)) ->
        out = (refused 400 "Age must be between 18 and 100", users, sess)).
Proof.
  cbn zeta. unfold update_profile. split; [|split].
  - destruct (JS.truthy fullname) as [f|]; [|split; reflexivity].
    destruct (JS.truthy phone) as [p|]; [|split; reflexivity].
    destruct (JS.truthy age) as [a|]; [|split; reflexivity].
    destruct (JS.truthy gender) as [g|]; [|split; reflexivity].
    destruct (JS.truthy occupation) as [o|]; [|split; reflexivity].
    destruct (JS.parseInt a) as [| | |n]; try (split; reflexivity).
    destruct (_ || _); [split; reflexivity|].
    destruct (update_validators f p g o); [|split; reflexivity].
    destruct (findById users (s_userId sess)); [|split; reflexivity].
    discriminate.
  - intro H.
    destruct (JS.truthy fullname); [|reflexivity].
    destruct (JS.truthy phone); [|reflexivity].
    destruct (JS.truthy age); [|reflexivity].
    destruct (JS.truthy gender); [|reflexivity].
    destruct (JS.truthy occupation); [|reflexivity].
    destruct H as [H|[H|[H|[H|H]]]]; discriminate H.
  - intros f p a g o -> -> -> -> -> [E|[E|[E|(z & E & Hz)]]]; rewrite E.
    + reflexivity.
    + reflexivity.
    + reflexivity.
    + unfold JS.gt. rewrite !JSFacts.lt_of_Z.
      destruct Hz as [Hz|Hz]; apply Z.ltb_lt in Hz; rewrite Hz;
        [|rewrite orb_true_r]; reflexivity.
Qed.

Lemma update_profile_refused_witness :
  update_profile [asha; ravi] asha_session (Some "Asha Rao"%string)
    (Some "9800000001"%string) (Some "17"%string) (Some "Female"%string)
    (Some "Engineer"%string)
  = (refused 400 "Age must be between 18 and 100", [asha; ravi],
     asha_session).
Proof.
  refine (proj2 (proj2 (update_profile_refused [asha; ravi] asha_session
                   (Some "Asha Rao"%string) (Some "9800000001"%string)
                   (Some "17"%string) (Some "Female"%string)
                   (Some "Engineer"%string)))
            "Asha Rao"%string "9800000001"%string "17"%string
            "Female"%string "Engineer"%string
            eq_refl eq_refl eq_refl eq_refl eq_refl _).
  right. right. right. exists 17.
  split; [vm_compute; reflexivity | lia].
Defined.

Lemma gender_enum_spec (g : string) :
  gender_enum g = true ->
  g = "Male"%string \/ g = "Female"%string \/ g = "Other"%string.
Proof.
  unfold gender_enum. rewrite !orb_true_iff, !String.eqb_eq. tauto.
Qed.

(** X18: when the update of the profile succeeds, the requester exists,
    the age that is stored is the integer that [parseInt] reads, between
    18 and 100, the name, phone and occupation are stored trimmed and
    not empty, the gender is Male, Female or Other, and the name of the
    session is the stored name.  Whatever the answer, the update changes
    no id, e-mail, password or verification mark and no user other than
    the requester. *)
Theorem update_profile_stores_valid (users : list User.doc) (sess : session)
  (fullname phone age gender occupation : option string) :
  let out := update_profile users sess fullname phone age gender
               occupation in
  let users' := snd (fst out) in
  (p_success (fst (fst out)) = true ->
   exists u f p a g o z,
     fullname = Some f /\ phone = Some p /\ age = Some a
     /\ gender = Some g /\ occupation = Some o
     /\ findById users (s_userId sess) = Some u
     /\ JS.parseInt a = JS.of_Z z /\ 18 <= z <= 100
     /\ JSMore.trim f <> EmptyString /\ JSMore.trim p <> EmptyString
     /\ JSMore.trim o <> EmptyString
     /\ (g = "Male"%string \/ g = "Female"%string \/ g = "Other"%string)
     /\ findById users' (s_userId sess)
        = Some (set_profile f p (inject_Z z) g o u)
     /\ s_userName (snd out) = JSMore.trim f)
  /\ map (fun u => (User._id u, User.email u, User.password u,
                    User.emailVerified u)) users'
     = map (fun u => (User._id u, User.email u, User.password u,
                      User.emailVerified u)) users
  /\ filter (fun u => negb (by_id (s_userId sess) u)) users'
     = filter (fun u => negb (by_id (s_userId sess) u)) users
  /\ s_userId (snd out) = s_userId sess.
Proof.
  cbn zeta. unfold update_profile.
  destruct (JS.truthy fullname) as [f|] eqn:Ef;
    [|split; [discriminate | repeat split]].
  destruct (JS.truthy phone) as [p|] eqn:Ep;
    [|split; [discriminate | repeat split]].
  destruct (JS.truthy age) as [a|] eqn:Ea;
    [|split; [discriminate | repeat split]].
  destruct (JS.truthy gender) as [g|] eqn:Eg;
    [|split; [discriminate | repeat split]].
  destruct (JS.truthy occupation) as [o|] eqn:Eo;
    [|split; [discriminate | repeat split]].
  destruct (SearchFacts.parseInt_cases a) as [E|[E|[E|(z & E)]]]; rewrite E;
    try (split; [discriminate | repeat split]).
  unfold JS.gt. rewrite !JSFacts.lt_of_Z.
  destruct (z <? 18) eqn:L; [split; [discriminate | repeat split]|].
  destruct (100 <? z) eqn:G; [split; [discriminate | repeat split]|].
  cbn [orb].
  destruct (update_validators f p g o) eqn:V;
    [|split; [discriminate | repeat split]].
  destruct (findById users (s_userId sess)) as [u|] eqn:F;
    [|split; [discriminate | repeat split]].
  change (JS.of_Z z) with (JS.Fin (inject_Z z)). cbv iota.
  cbn [fst snd p_success s_userName s_userId].
  unfold update_validators in V.
  repeat (apply andb_true_iff in V as [V ?]).
  split; [|split; [|split]].
  - intros _.
    apply truthy_Some in Ef as [-> _]. apply truthy_Some in Ep as [-> _].
    apply truthy_Some in Ea as [-> _]. apply truthy_Some in Eg as [-> _].
    apply truthy_Some in Eo as [-> _].
    exists u, f, p, a, g, o, z.
    repeat split; try reflexivity.
    + exact E.
    + apply Z.ltb_ge in L. exact L.
    + apply Z.ltb_ge in G. exact G.
    + apply String.eqb_neq, negb_true_iff. assumption.
    + apply String.eqb_neq, negb_true_iff. assumption.
    + apply String.eqb_neq, negb_true_iff. assumption.
    + apply gender_enum_spec. assumption.
    + rewrite findById_by_id in *.
      rewrite (update_first_find (by_id (s_userId sess))) by reflexivity.
      rewrite F. reflexivity.
    + cbn [set_profile User.fullname].
      destruct (String.eqb_spec (JSMore.trim f) (s_userName sess));
        congruence.
  - apply update_first_map. reflexivity.
  - apply update_first_others.
    + intros x Hx. rewrite Hx. reflexivity.
    + intros x Hx. unfold by_id in *. cbn [set_profile User._id].
      rewrite Hx. reflexivity.
  - reflexivity.
Qed.

Lemma update_profile_stores_valid_witness :
  exists u z,
    findById [asha; ravi] 7%nat = Some u
    /\ JS.parseInt "28 years" = JS.of_Z z /\ 18 <= z <= 100.
Proof.
  destruct (proj1 (update_profile_stores_valid [asha; ravi] asha_session
                     (Some "  Asha R  "%string) (Some "9800000001"%string)
                     (Some "28 years"%string) (Some "Female"%string)
                     (Some "Engineer"%string)) eq_refl)
    as (u & f & p & a & g & o & z & _ & _ & Ha & _ & _ & Hu & Hz & Hb & _).
  injection Ha as <-.
  exists u, z. repeat split; try assumption; apply Hb.
Defined.







Lemma required_nonempty (s : string) :
  s <> EmptyString -> Chat.required s = true.
Proof.
  intro H. unfold Chat.required. apply negb_true_iff, String.eqb_neq, H.
Qed.

Lemma send_code_state (now : Z) (code : string) (mail_ok : bool)
  (st : state) (uid : oid) (user : User.doc) :
  findById (users st) uid = Some user ->
  User.email user <> EmptyString ->
  code <> EmptyString ->
  send_code now code mail_ok st uid
  = (if mail_ok then answer 200 true "OTP sent to your email"
     else answer 500 false
            "Error sending OTP. Please check email configuration.",
     {| users := users st;
        otps := delete_first (for_email (User.email user)) (otps st) ++
                [code_row user code now] |}).
Proof.
  intros F He Hc. unfold send_code. rewrite F.
  rewrite (required_nonempty _ He), (required_nonempty _ Hc). cbn [andb].
  destruct mail_ok; reflexivity.
Qed.

Lemma for_code_new (email otp : string) (t : Z) :
  for_code email otp
    {| OTP.email := email; OTP.otp := otp; OTP.createdAt := t |} = true.
Proof.
  unfold for_code. cbn. rewrite !String.eqb_refl. reflexivity.
Qed.

(** X20: when the handler has stored a code for a user whose e-mail is
    not empty, whether the mail could be sent or not, and less than 600
    seconds have passed, so that the store has not deleted the code,
    the verification with that code, with or without white space around
    it, succeeds and marks the user's e-mail verified.  The code is
    whatever the handler has generated, a text that is not empty. *)
Theorem otp_round_trip (now : Z) (code : string) (mail_ok : bool)
  (st : state) (uid : oid) (user : User.doc) (later : Z)
  (gone : OTP.doc -> bool) (input : string) :
  findById (users st) uid = Some user ->
  User.email user <> EmptyString ->
  code <> EmptyString ->
  JSMore.trim input = code ->
  later < now + 600000 ->
  let sent := expire later gone (snd (send_code now code mail_ok st uid)) in
  let out := verify_otp sent uid (Some input) in
  fst out = answer 200 true "Email verified successfully"
  /\ findById (users (snd out)) uid = Some (verified user)
  /\ Posts.success (fst (send_code now code mail_ok st uid)) = mail_ok.
Proof.
  intros F He Hc Hin Hl sent out.
  assert (Eid : User._id user = uid).
  { apply find_some in F as [_ F]. apply Nat.eqb_eq, F. }
  unfold out, sent.
  rewrite (send_code_state now code mail_ok st uid user F He Hc).
  cbn [fst snd]. unfold verify_otp, expire. cbn [users otps].
  rewrite F, Hin.
  set (kept := filter _ _).
  assert (Hrow : In (code_row user code now) kept).
  { unfold kept. apply filter_In. split.
    - apply in_or_app. right. left. reflexivity.
    - unfold due, code_row. cbn [OTP.createdAt].
      destruct (now + 600000 <=? later) eqn:E;
        [apply Z.leb_le in E; lia | reflexivity]. }
  destruct (find_exists (for_code (User.email user) code) kept
              (code_row user code now) Hrow (for_code_new _ _ _))
    as (y & ->).
  cbn [fst snd users otps].
  split; [reflexivity|]. split.
  - rewrite Eid, findById_by_id in *.
    rewrite (update_first_find (by_id uid) verified) by reflexivity.
    rewrite F. reflexivity.
  - destruct mail_ok; reflexivity.
Qed.

(** A code for user 7, the mail failing; five minutes later the code is
    given with spaces around it. *)
Lemma otp_round_trip_witness :
  let sent :=
    expire 1700001300000 (fun _ => true)
      (snd (send_code 1700001000000 "550000" false two_users 7%nat)) in
  fst (verify_otp sent 7%nat (Some " 550000 "%string))
  = answer 200 true "Email verified successfully".
Proof.
  refine (proj1 (otp_round_trip 1700001000000 "550000" false two_users
                   7%nat asha 1700001300000 (fun _ => true) " 550000 "
                   eq_refl _ _ _ _)).
  - discriminate.
  - discriminate.
  - vm_compute. reflexivity.
  - lia.
Defined.

Lemma for_code_email (email otp : string) (o : OTP.doc) :
  for_code email otp o = true ->
  for_email email o = true /\ OTP.otp o = otp.
Proof.
  unfold for_code, for_email. intro H.
  apply andb_true_iff in H as [H1 H2].
  split; [exact H1 | apply String.eqb_eq, H2].
Qed.

Lemma no_code_left (st : state) (email : string) :
  otp_once st ->
  filter (for_email email) (delete_first (for_email email) (otps st)) = [].
Proof.
  intro H. rewrite SavedMoreFacts.delete_first_filter.
  specialize (H email).
  destruct (filter (for_email email) (otps st)) as [|x [|y l]];
    cbn in H |- *; [reflexivity | reflexivity | lia].
Qed.

Lemma for_email_eq (e e' : string) (o : OTP.doc) :
  for_email e o = true -> for_email e' o = true -> e = e'.
Proof.
  unfold for_email. rewrite !String.eqb_eq. congruence.
Qed.

Lemma delete_first_once (st : state) (email : string) :
  otp_once st ->
  otp_once {| users := users st;
              otps := delete_first (for_email email) (otps st) |}.
Proof.
  intros H e. cbn [otps]. specialize (H e).
  destruct (String.eqb_spec e email) as [->|Hne].
  - rewrite SavedMoreFacts.delete_first_filter.
    destruct (filter (for_email email) (otps st)); cbn in *; lia.
  - rewrite SavedMoreFacts.delete_first_others; [exact H|].
    intros x Hx. destruct (for_email e x) eqn:E; [|reflexivity].
    exfalso. apply Hne. exact (for_email_eq _ _ _ E Hx).
Qed.

(** X21: starting with at most one code for each address, after the
    handler has stored a code for a user a verification succeeds only
    for an input that trims to that code, so that an older code of the
    user no longer verifies; and once the store has deleted the code,
    which it may do from 600 seconds after the code was made, no input
    verifies. *)
Theorem only_last_otp_verifies (now : Z) (code : string) (mail_ok : bool)
  (st : state) (uid : oid) (user : User.doc) (later : Z)
  (gone : OTP.doc -> bool) (input : string) :
  otp_once st ->
  findById (users st) uid = Some user ->
  User.email user <> EmptyString ->
  code <> EmptyString ->
  let sent := expire later gone (snd (send_code now code mail_ok st uid)) in
  let ok := Posts.success (fst (verify_otp sent uid (Some input))) in
  (ok = true -> JSMore.trim input = code)
  /\ (now + 600000 <= later -> gone (code_row user code now) = true ->
      ok = false).
Proof.
  intros Ho F He Hc sent ok.
  assert (Hfound : forall o,
             find (for_code (User.email user) (JSMore.trim input))
               (otps sent) = Some o ->
             o = code_row user code now /\ In o (otps sent)).
  { intros o E. apply find_some in E as [Hin Hfc].
    split; [|exact Hin].
    apply for_code_email in Hfc as [Hc1 Hc2].
    unfold sent in Hin.
    rewrite (send_code_state now code mail_ok st uid user F He Hc) in Hin.
    cbn [snd expire otps] in Hin.
    apply filter_In in Hin as [Hin _].
    apply in_app_or in Hin as [Hin|[<-|[]]]; [|reflexivity].
    exfalso.
    assert (Hf : In o (filter (for_email (User.email user))
                         (delete_first (for_email (User.email user))
                            (otps st)))).
    { apply filter_In. split; assumption. }
    rewrite (no_code_left st _ Ho) in Hf. destruct Hf. }
  assert (Hu : users sent = users st).
  { unfold sent.
    rewrite (send_code_state now code mail_ok st uid user F He Hc).
    reflexivity. }
  unfold ok, verify_otp. rewrite Hu, F.
  destruct (find (for_code (User.email user) (JSMore.trim input))
              (otps sent)) as [o|] eqn:E.
  - destruct (Hfound o eq_refl) as [-> Hin]. split.
    + intros _. apply find_some in E as [_ Hfc].
      apply for_code_email in Hfc as [_ Hfc]. symmetry. exact Hfc.
    + intros Hl Hg. exfalso. unfold sent in Hin.
      rewrite (send_code_state now code mail_ok st uid user F He Hc) in Hin.
      cbn [snd expire otps] in Hin.
      apply filter_In in Hin as [_ Hk].
      rewrite Hg in Hk. unfold due, code_row in Hk. cbn [OTP.createdAt] in Hk.
      destruct (now + 600000 <=? later) eqn:L;
        [discriminate Hk | apply Z.leb_gt in L; lia].
  - split; [discriminate | reflexivity].
Qed.

(** User 7 has the code 550000; 700 seconds later the store has deleted
    it, and the code does not verify. *)
Lemma only_last_otp_verifies_witness :
  let sent :=
    expire 1700001700000 (fun _ => true)
      (snd (send_code 1700001000000 "550000" true two_users 7%nat)) in
  Posts.success (fst (verify_otp sent 7%nat (Some "550000"%string))) = false.
Proof.
  apply (proj2 (only_last_otp_verifies 1700001000000 "550000" true
                  two_users 7%nat asha 1700001700000 (fun _ => true)
                  "550000" ltac:(intro e; cbn; lia) eq_refl
                  ltac:(discriminate) ltac:(discriminate))).
  - lia.
  - reflexivity.
Defined.

(** X22: at most one code for each address is kept by the sending and
    by the verification of a code; and, with at most one code for each
    address, a code is good for one verification: after a verification
    that succeeds, the next one is answered "Invalid or expired OTP",
    whatever code it gives. *)
Theorem otp_single_use (st : state) (uid : oid) (code : option string) :
  otp_once st ->
  (forall now random mail_ok,
      otp_once (snd (send_otp now random mail_ok st uid)))
  /\ otp_once (snd (verify_otp st uid code))
  /\ (Posts.success (fst (verify_otp st uid code)) = true ->
      forall again,
        fst (verify_otp (snd (verify_otp st uid code)) uid (Some again))
        = answer 200 false "Invalid or expired OTP").
Proof.
  intro Ho. split; [|split].
  - intros now random mail_ok. unfold send_otp, send_code.
    destruct (findById (users st) uid) as [user|]; [|exact Ho].
    assert (Hnew : otp_once
              {| users := users st;
                 otps := delete_first (for_email (User.email user))
                           (otps st) ++
                         [{| OTP.email := User.email user;
                             OTP.otp := generate_otp random;
                             OTP.createdAt := now |}] |}).
    { intro e. cbn [otps]. rewrite filter_app, length_app.
      cbn [filter].
      destruct (for_email e _) eqn:En.
      - unfold for_email in En. cbn [OTP.email] in En.
        apply String.eqb_eq in En. subst e.
        rewrite (no_code_left st _ Ho). cbn. lia.
      - cbn [List.length].
        pose proof (delete_first_once st (User.email user) Ho e) as H.
        cbn [otps] in H. lia. }
    destruct (Chat.required (User.email user) && Chat.required _);
      [destruct mail_ok; exact Hnew|].
    apply delete_first_once, Ho.
  - unfold verify_otp.
    destruct (findById (users st) uid) as [user|]; [|exact Ho].
    destruct code as [c|]; [|exact Ho].
    destruct (find _ _); [|exact Ho].
    cbn [snd]. intro e. cbn [otps].
    exact (delete_first_once st (User.email user) Ho e).
  - unfold verify_otp at 1 3.
    destruct (findById (users st) uid) as [user|] eqn:F; [|discriminate].
    destruct code as [c|]; [|discriminate].
    destruct (find (for_code (User.email user) (JSMore.trim c)) (otps st));
      [|discriminate].
    intros _ again. cbn [snd]. unfold verify_otp. cbn [users otps].
    assert (Eid : User._id user = uid).
    { apply find_some in F as [_ F]. apply Nat.eqb_eq, F. }
    rewrite Eid, findById_by_id in *.
    rewrite (update_first_find (by_id uid) verified) by reflexivity.
    rewrite F. cbn [option_map verified User.email].
    destruct (find (for_code (User.email user) (JSMore.trim again)) _)
      as [o|] eqn:E; [|reflexivity].
    exfalso. apply find_some in E as [Hin Hc].
    apply for_code_email in Hc as [Hc _].
    assert (Hf : In o (filter (for_email (User.email user))
                         (delete_first (for_email (User.email user))
                            (otps st)))).
    { apply filter_In. split; assumption. }
    rewrite (no_code_left st _ Ho) in Hf. destruct Hf.
Qed.

Lemma otp_single_use_witness :
  let sent := snd (send_otp 1700001000000 0 true two_users 7%nat) in
  fst (verify_otp (snd (verify_otp sent 7%nat (Some "100000"%string)))
         7%nat (Some "100000"%string))
  = answer 200 false "Invalid or expired OTP".
Proof.
  intro sent.
  assert (H0 : otp_once two_users) by (intro e; cbn; lia).
  assert (Hs : otp_once sent).
  { apply (proj1 (otp_single_use two_users 7%nat None H0)). }
  exact (proj2 (proj2 (otp_single_use sent 7%nat (Some "100000"%string) Hs))
           eq_refl "100000"%string).
Defined.

Lemma toLowerCase_chars (s : string) :
  JS.chars (toLowerCase s) = map JS.lower (JS.chars s).
Proof.
  unfold toLowerCase, JS.chars.
  apply list_ascii_of_string_of_list_ascii.
Qed.

(** X23: a login that succeeds binds the session to a user of the
    collection whose stored password is the given one and whose stored
    e-mail, for a given e-mail in ASCII, is the given one in lower case
    and trimmed; a login that fails leaves the session as it was.  Two
    e-mails in ASCII that differ only in the case of their letters log
    in alike. *)
Theorem login_binds_session (users : list User.doc) (sess : option session)
  (email password : option string) :
  let out := login users sess email password in
  (l_success (fst out) = true ->
   exists u e p,
     In u users /\ email = Some e /\ password = Some p
     /\ p <> EmptyString
     /\ (JS.ascii_only e = true ->
         User.email u = email_setters (toLowerCase e))
     /\ User.password u = p
     /\ snd out = Some {| s_userId := User._id u;
                          s_userEmail := User.email u;
                          s_userName := User.fullname u |})
  /\ (l_success (fst out) = false -> snd out = sess)
  /\ forall e e',
       email = Some e -> e <> EmptyString -> e' <> EmptyString ->
       JS.ascii_only e = true -> JS.ascii_only e' = true ->
       toLowerCase e' = toLowerCase e ->
       login users sess (Some e') password = out.
Proof.
  cbn zeta. split; [|split].
  - unfold login.
    destruct (JS.truthy email) as [e|] eqn:Ee; [|discriminate].
    destruct (JS.truthy password) as [p|] eqn:Ep; [|discriminate].
    destruct (find _ users) as [u|] eqn:F; [|discriminate].
    destruct (String.eqb_spec (User.password u) p) as [Hp|]; [|discriminate].
    intros _. apply find_some in F as [Hin He].
    apply String.eqb_eq in He.
    apply truthy_Some in Ee as [-> _]. apply truthy_Some in Ep as [-> Hne].
    exists u, e, p. repeat split; try assumption.
    intros _. exact He.
  - unfold login.
    destruct (JS.truthy email) as [e|]; [|reflexivity].
    destruct (JS.truthy password) as [p|]; [|reflexivity].
    destruct (find _ users) as [u|]; [|reflexivity].
    destruct (String.eqb (User.password u) p); [discriminate | reflexivity].
  - intros e e' -> He He' _ _ Hl. unfold login.
    rewrite (SearchClaims.truthy_nonempty e He),
      (SearchClaims.truthy_nonempty e' He'), Hl.
    reflexivity.
Qed.

Lemma login_binds_session_witness :
  login [asha; ravi] None (Some "ASHA@Example.com"%string)
    (Some "s3cret"%string)
  = login [asha; ravi] None (Some "asha@example.com"%string)
      (Some "s3cret"%string).
Proof.
  apply (proj2 (proj2 (login_binds_session [asha; ravi] None
                         (Some "asha@example.com"%string)
                         (Some "s3cret"%string)))
           "asha@example.com"%string "ASHA@Example.com"%string eq_refl).
  - discriminate.
  - discriminate.
  - reflexivity.
  - reflexivity.
  - reflexivity.
Defined.

End AccountsFacts.
